(** * Watermark compositing engine ([watermark.py])

    A shallow embedding of [paint_shadowed_text] and
    [add_watermark_to_image] and the properties of the placement
    compositor, followed by [load_font], [iter_image_files] and
    [process_directory], which run the compositor over a directory, with
    the file system and the font files as an outside world that answers
    calls.

    Python integers are [Z]; Python floats are IEEE binary64 values of the
    Standard Library's [spec_float]; Pillow images are mutable objects in an
    explicit store, addressed by their position in it. *)

From Stdlib Require Import ZArith List String Lia Bool.

From Stdlib Require Import Floats.SpecFloat.

From stdpp Require Import base list.

Open Scope Z_scope.

(* ===================================================================== *)
(** ** Python values: exceptions, floats, [int], [range] *)
(* ===================================================================== *)

(** The exceptions the functions can raise, each with its message. *)
Inductive exn : Type :=
| ValueError (msg : string)
| OverflowError (msg : string).

Inductive result (A : Type) : Type :=
| Ok (a : A)
| Raise (e : exn).

Arguments Ok {A} a.

Arguments Raise {A} e.

Module PyFloat.

(** binary64 *)
Definition prec : Z := 53.

Definition emax : Z := 1024.

Definition float := spec_float.

(** [float(n)] for a Python int: round to nearest even; a magnitude
    beyond the binary64 range raises. *)
Definition of_int (n : Z) : result float :=
  match binary_normalize prec emax n 0 false with
  | S754_infinity _ =>
      Raise (OverflowError "int too large to convert to float")
  | f => Ok f
  end.

Definition mul (a b : float) : float := SFmul prec emax a b.

(** [n * f] with [n] an int and [f] a float. *)
Definition int_mul (n : Z) (f : float) : result float :=
  match of_int n with
  | Ok a => Ok (mul a f)
  | Raise e => Raise e
  end.

(** [int(f)]: truncation toward zero. *)
Definition to_int (f : float) : result Z :=
  match f with
  | S754_zero _ => Ok 0
  | S754_infinity _ =>
      Raise (OverflowError "cannot convert float infinity to integer")
  | S754_nan => Raise (ValueError "cannot convert float NaN to integer")
  | S754_finite s m e =>
      let mag := if 0 <=? e then Z.shiftl (Z.pos m) e
                 else Z.shiftr (Z.pos m) (- e) in
      Ok (if s then - mag else mag)
  end.

(** [round(f)]: to the nearest integer, ties to the even one. *)
Definition round (f : float) : result Z :=
  match f with
  | S754_zero _ => Ok 0
  | S754_infinity _ =>
      Raise (OverflowError "cannot convert float infinity to integer")
  | S754_nan => Raise (ValueError "cannot convert float NaN to integer")
  | S754_finite s m e =>
      let mag :=
        if 0 <=? e then Z.shiftl (Z.pos m) e
        else
          let q := Z.shiftr (Z.pos m) (- e) in
          let r := Z.pos m - Z.shiftl q (- e) in
          let half := Z.shiftl 1 (- e - 1) in
          if r <? half then q
          else if half <? r then q + 1
          else if Z.even q then q else q + 1 in
      Ok (if s then - mag else mag)
  end.

(** Literals used in examples: [m * 2^e]. *)
Definition lit (m e : Z) : float := binary_normalize prec emax m e false.

End PyFloat.

(** [range(start, stop, step)], as the list it iterates over. *)
Definition range_len (start stop step : Z) : Z :=
  if 0 <? step then
    if start <? stop then (stop - start - 1) / step + 1 else 0
  else
    if stop <? start then (start - stop - 1) / (- step) + 1 else 0.

Definition py_range (start stop step : Z) : result (list Z) :=
  if step =? 0 then Raise (ValueError "range() arg 3 must not be zero")
  else Ok (map (fun i => start + Z.of_nat i * step)
               (seq 0 (Z.to_nat (range_len start stop step)))).

(* ===================================================================== *)
(** ** Pillow images in a store *)
(* ===================================================================== *)

Record pixel : Type := Px { pr : Z; pg : Z; pb : Z; pa : Z }.

Definition transparent : pixel := Px 0 0 0 0.

(** A colour as the code writes it: a 4-tuple of ints. *)
Definition color : Type := (Z * Z * Z * Z)%type.

Inductive band_mode : Type := ModeL | ModeRGB | ModeRGBA.

Definition band_mode_eqb (a b : band_mode) : bool :=
  match a, b with
  | ModeL, ModeL | ModeRGB, ModeRGB | ModeRGBA, ModeRGBA => true
  | _, _ => false
  end.

(** An image: its mode, its size (never negative) and its pixels.  Only the
    pixels inside the size are part of the image. *)
Record image : Type := Image {
  im_mode : band_mode;
  im_width : N;
  im_height : N;
  im_px : Z -> Z -> pixel
}.

Definition inside (w h : N) (x y : Z) : bool :=
  (0 <=? x) && (x <? Z.of_N w) && (0 <=? y) && (y <? Z.of_N h).

Definition getpixel (im : image) (x y : Z) : pixel :=
  if inside (im_width im) (im_height im) x y then im_px im x y
  else transparent.

(** A loaded font face: the bounding box of a text drawn at the origin and
    the coverage (0..255) of the text, drawn with a stroke width, at an
    offset from its anchor. *)
Record font : Type := Font {
  font_bbox : string -> Z * Z * Z * Z;
  font_mask : string -> Z -> Z -> Z -> Z
}.

Definition loc : Type := nat.

(** One call of [ImageDraw.text], as the code makes it. *)
Record text_call : Type := TextCall {
  tc_target : loc;
  tc_xy : Z * Z;
  tc_text : string;
  tc_fill : color;
  tc_stroke_width : Z;
  tc_stroke_fill : color
}.

(** The state a call runs in: the images that exist, and the text draws
    made so far, oldest first. *)
Record world : Type := World {
  images : list image;
  drawn : list text_call
}.

(** Computations: they read and change the world and return or raise; what
    was changed before an exception stays changed. *)
Definition M (A : Type) : Type := world -> result A * world.

Definition ret {A} (a : A) : M A := fun s => (Ok a, s).

Definition bind {A B} (c : M A) (k : A -> M B) : M B :=
  fun s => match c s with
           | (Ok a, s') => k a s'
           | (Raise e, s') => (Raise e, s')
           end.

Definition lift {A} (r : result A) : M A := fun s => (r, s).

Definition raise {A} (e : exn) : M A := fun s => (Raise e, s).

Notation "x <- c ;; k" := (bind c (fun x => k))
  (at level 100, c at next level, right associativity).

Notation "c ;;; k" := (bind c (fun _ => k))
  (at level 100, right associativity).

Fixpoint for_each {A} (xs : list A) (body : A -> M unit) : M unit :=
  match xs with
  | [] => ret tt
  | x :: xs' => body x ;;; for_each xs' body
  end.

(** [for v in range(start, stop, step): body] *)
Definition for_range (start stop step : Z) (body : Z -> M unit) : M unit :=
  xs <- lift (py_range start stop step) ;; for_each xs body.

(** A reference outside the store; no Python run produces one. *)
Definition dangling : exn := ValueError "no such image".

Definition load (l : loc) : M image :=
  fun s => match images s !! l with
           | Some im => (Ok im, s)
           | None => (Raise dangling, s)
           end.

Definition alloc (im : image) : M loc :=
  fun s => (Ok (length (images s)),
            World (images s ++ [im]) (drawn s)).

Definition store (l : loc) (im : image) : M unit :=
  fun s => (Ok tt, World (<[l := im]> (images s)) (drawn s)).

Definition log_text (c : text_call) : M unit :=
  fun s => (Ok tt, World (images s) (drawn s ++ [c])).

Module Pillow.

Definition clip8 (v : Z) : Z := Z.max 0 (Z.min 255 v).

(** The ink of a colour: Pillow clips each component to 0..255.  (It
    takes a component as a C int; the properties keep to components
    within that.) *)
Definition ink_of (c : color) : pixel :=
  let '(r, g, b, a) := c in Px (clip8 r) (clip8 g) (clip8 b) (clip8 a).

(** Division by 255 with rounding, as the C core does it. *)
Definition div255 (a : Z) : Z :=
  let t := a + 128 in Z.shiftr (Z.shiftr t 8 + t) 8.

Definition blend (mask in1 in2 : Z) : Z :=
  div255 (in1 * (255 - mask) + in2 * mask).

(** Filling through a coverage mask: every band moves toward the ink;
    where an RGBA target is fully transparent the colour bands take the
    ink's colour outright. *)
Definition fill_mask (has_alpha : bool) (m : Z) (ink old : pixel) : pixel :=
  let mc := if has_alpha && negb (m =? 0) && (pa old =? 0)
            then 255 else m in
  Px (blend mc (pr old) (pr ink)) (blend mc (pg old) (pg ink))
     (blend mc (pb old) (pb ink)) (blend m (pa old) (pa ink)).

(** The "over" operator on one pixel, bottom [dst], top [src]. *)
Definition over (dst src : pixel) : pixel :=
  if pa src =? 0 then dst
  else
    let blend := pa dst * (255 - pa src) in
    let outa255 := pa src * 255 + blend in
    let coef1 := pa src * 255 * 255 * 128 / outa255 in
    let coef2 := 255 * 128 - coef1 in
    let ch s d := Z.shiftr (div255 (s * coef1 + d * coef2 + 128 * 128
                                    - 128)) 7 in
    Px (ch (pr src) (pr dst)) (ch (pg src) (pg dst))
       (ch (pb src) (pb dst)) (div255 (outa255 + 128 - 128)).

(** [Image.new("RGBA", size, (0, 0, 0, 0))] *)
Definition blank (size : N * N) : image :=
  Image ModeRGBA (fst size) (snd size) (fun _ _ => transparent).

Definition new (size : N * N) : M loc := alloc (blank size).

Definition size (l : loc) : M (N * N) :=
  im <- load l ;; ret (im_width im, im_height im).

(** One pass of text through the font's mask for a stroke width. *)
Definition text_pass (f : font) (text : string) (xy : Z * Z)
    (sw : Z) (ink : pixel) (im : image) : image :=
  Image (im_mode im) (im_width im) (im_height im)
    (fun px py =>
       fill_mask (band_mode_eqb (im_mode im) ModeRGBA)
         (clip8 (font_mask f text sw (px - fst xy) (py - snd xy)))
         ink (im_px im px py)).

(** What [text] leaves in the image: the stroked text first when there
    is a stroke, then the text itself. *)
Definition text_image (f : font) (txt : string) (xy : Z * Z)
    (fill : color) (stroke_width : Z) (stroke_fill : color)
    (im : image) : image :=
  let im1 := if stroke_width =? 0 then im
             else text_pass f txt xy stroke_width (ink_of stroke_fill) im in
  text_pass f txt xy 0 (ink_of fill) im1.

(** [ImageDraw.Draw(target).text(xy, text, font=.., fill=..,
    stroke_width=.., stroke_fill=..)] *)
Definition text (target : loc) (xy : Z * Z) (txt : string) (f : font)
    (fill : color) (stroke_width : Z) (stroke_fill : color) : M unit :=
  im <- load target ;;
  log_text (TextCall target xy txt fill stroke_width stroke_fill) ;;;
  store target (text_image f txt xy fill stroke_width stroke_fill im).

(** [textbbox((0, 0), text, font=font)] *)
Definition textbbox (f : font) (txt : string) : Z * Z * Z * Z :=
  font_bbox f txt.

Definition check_composite (a b : image) : result unit :=
  if negb (band_mode_eqb (im_mode a) ModeRGBA
           && band_mode_eqb (im_mode b) ModeRGBA)
  then Raise (ValueError "image has wrong mode")
  else if negb ((im_width a =? im_width b)%N
                && (im_height a =? im_height b)%N)
  then Raise (ValueError "images do not match")
  else Ok tt.

Definition composite_image (a b : image) : image :=
  Image ModeRGBA (im_width a) (im_height a)
    (fun x y => over (im_px a x y) (im_px b x y)).

(** [Image.alpha_composite(im1, im2)]: a new image. *)
Definition alpha_composite (l1 l2 : loc) : M loc :=
  a <- load l1 ;;
  b <- load l2 ;;
  lift (check_composite a b) ;;;
  alloc (composite_image a b).

Definition composite_into_image (a b : image) : image :=
  Image (im_mode a) (im_width a) (im_height a)
    (fun x y => if inside (im_width b) (im_height b) x y
                then over (im_px a x y) (im_px b x y)
                else im_px a x y).

(** [base.alpha_composite(layer)]: in place, over the part of [base] that
    [layer], put at the origin, covers. *)
Definition alpha_composite_into (base layer : loc) : M unit :=
  a <- load base ;;
  b <- load layer ;;
  (if negb (band_mode_eqb (im_mode a) ModeRGBA
            && band_mode_eqb (im_mode b) ModeRGBA)
   then raise (ValueError "image has wrong mode") else ret tt) ;;;
  store base (composite_into_image a b).

(** [im.convert("RGBA")]: a copy with an opaque alpha band added where
    the image has none. *)
Definition to_rgba (m : band_mode) (p : pixel) : pixel :=
  match m with
  | ModeL => Px (pr p) (pr p) (pr p) 255
  | ModeRGB => Px (pr p) (pg p) (pb p) 255
  | ModeRGBA => p
  end.

Definition convert_rgba_image (im : image) : image :=
  Image ModeRGBA (im_width im) (im_height im)
    (fun x y => to_rgba (im_mode im) (im_px im x y)).

Definition convert_rgba (l : loc) : M loc :=
  im <- load l ;; alloc (convert_rgba_image im).

Section Resampling.

(** The two operations of Pillow that compute in floating point are
    taken through their pixel maps: for a size and an output pixel, the
    source pixel a 45 degree rotation samples; and the blurred pixels
    of an image for a radius. *)
Variable rot_src : N * N -> Z * Z -> Z * Z.

Variable blur_px : Z -> image -> Z -> Z -> pixel.

Definition rotate_image (im : image) : image :=
  Image (im_mode im) (im_width im) (im_height im)
    (fun x y =>
       let '(sx, sy) := rot_src (im_width im, im_height im) (x, y) in
       getpixel im sx sy).

(** [im.rotate(45, expand=False)]: a new image of the same size; an
    output pixel whose source falls outside the image is transparent. *)
Definition rotate45 (l : loc) : M loc :=
  im <- load l ;; alloc (rotate_image im).

Definition blur_image (radius : Z) (im : image) : image :=
  Image (im_mode im) (im_width im) (im_height im) (blur_px radius im).

(** [im.filter(ImageFilter.GaussianBlur(radius))]: a new image of the
    same size. *)
Definition gaussian_blur (radius : Z) (l : loc) : M loc :=
  im <- load l ;; alloc (blur_image radius im).

End Resampling.

End Pillow.

(* ===================================================================== *)
(** ** The program *)
(* ===================================================================== *)

Definition pair_eqb (a b : Z * Z) : bool :=
  (fst a =? fst b) && (snd a =? snd b).

Section Program.

Variable rot_src : N * N -> Z * Z -> Z * Z.

Variable blur_px : Z -> image -> Z -> Z -> pixel.

(** The keyword arguments the two functions share. *)
Record style : Type := Style {
  stroke_width : Z;
  shadow_offset : Z * Z;
  shadow_alpha : Z;
  shadow_blur : Z
}.

(** [paint_shadowed_text(base, pos, text, font, fill, **style)] *)
Definition paint_shadowed_text (base : loc) (pos : Z * Z) (text : string)
    (f : font) (fill : color) (st : style) : M unit :=
  let '(x, y) := pos in
  (if negb (shadow_alpha st =? 0)
      && negb (pair_eqb (shadow_offset st) (0, 0))
   then
     sz <- Pillow.size base ;;
     shadow_layer <- Pillow.new sz ;;
     let shadow_fill : color := (0, 0, 0, shadow_alpha st) in
     Pillow.text shadow_layer
       (x + fst (shadow_offset st), y + snd (shadow_offset st))
       text f shadow_fill (stroke_width st) shadow_fill ;;;
     shadow_layer <-
       (if 0 <? shadow_blur st
        then Pillow.gaussian_blur blur_px (shadow_blur st) shadow_layer
        else ret shadow_layer) ;;
     Pillow.alpha_composite_into base shadow_layer
   else ret tt) ;;;
  Pillow.text base (x, y) text f fill (stroke_width st) fill.

(** The arguments of [add_watermark_to_image] besides the image. *)
Record params : Type := Params {
  text : string;
  fnt : font;
  mode : string;
  opacity : Z;
  margin : Z;
  sty : style;
  tile_step : PyFloat.float * PyFloat.float;
  diag_step : PyFloat.float
}.

(** [int(n * factor)] *)
Definition scaled (n : Z) (factor : PyFloat.float) : result Z :=
  match PyFloat.int_mul n factor with
  | Ok p => PyFloat.to_int p
  | Raise e => Raise e
  end.

(** [tw, th = tmp_draw.textbbox((0, 0), text, font=font)[2:]] *)
Definition text_size (f : font) (txt : string) : Z * Z :=
  let '(_, _, x1, y1) := Pillow.textbbox f txt in (x1, y1).

(** [add_watermark_to_image(img, **params)] *)
Definition add_watermark_to_image (img : loc) (p : params) : M loc :=
  sz <- Pillow.size img ;;
  let w := Z.of_N (fst sz) in
  let h := Z.of_N (snd sz) in
  overlay <- Pillow.new sz ;;
  let '(tw, th) := text_size (fnt p) (text p) in
  let fill : color := (255, 255, 255, opacity p) in
  let add_at (x y : Z) : M unit :=
    paint_shadowed_text overlay (x, y) (text p) (fnt p) fill (sty p) in
  overlay <-
    (if String.eqb (mode p) "bottom-right" then
       add_at (w - tw - margin p) (h - th - margin p) ;;; ret overlay
     else if String.eqb (mode p) "center" then
       add_at ((w - tw) / 2) ((h - th) / 2) ;;; ret overlay
     else if String.eqb (mode p) "tile" then
       step_x <- lift (scaled (tw + margin p) (fst (tile_step p))) ;;
       step_y <- lift (scaled (th + margin p) (snd (tile_step p))) ;;
       for_range 0 h step_y (fun yy =>
         for_range 0 w step_x (fun xx => add_at xx yy)) ;;;
       ret overlay
     else if String.eqb (mode p) "diagonal-tile" then
       tile_layer <- Pillow.new sz ;;
       step <- lift (scaled (Z.max tw th) (diag_step p)) ;;
       for_range (- h) (h * 2) step (fun yy =>
         for_range (- w) (w * 2) step (fun xx =>
           paint_shadowed_text tile_layer (xx, yy) (text p) (fnt p)
             fill (sty p))) ;;;
       rotated <- Pillow.rotate45 rot_src tile_layer ;;
       Pillow.alpha_composite overlay rotated
     else
       raise (ValueError ("unknown mode: " ++ mode p))) ;;
  converted <- Pillow.convert_rgba img ;;
  Pillow.alpha_composite converted overlay.

End Program.

(* ===================================================================== *)
(** ** Vocabulary of the properties *)
(* ===================================================================== *)

(** The positions at which text was drawn onto image [l], in order. *)
Definition drawn_on (l : loc) (cs : list text_call) : list (Z * Z) :=
  map tc_xy (filter (fun c => Nat.eqb (tc_target c) l) cs).

(** The calls made since the world [s0]. *)
Definition new_calls (s0 s : world) : list text_call :=
  drop (length (drawn s0)) (drawn s).

Definition same_shape (a b : image) : Prop :=
  im_mode a = im_mode b /\ im_width a = im_width b
  /\ im_height a = im_height b.

Definition alpha_zero (im : image) : Prop :=
  forall x y, pa (im_px im x y) = 0.

Definition color_alpha (c : color) : Z := let '(_, _, _, a) := c in a.

(** A text call uses the fill colour or the shadow colour, for the body
    and the stroke alike. *)
Definition ink_ok (fill : color) (st : style) (c : text_call) : Prop :=
  (tc_fill c = fill \/ tc_fill c = (0, 0, 0, shadow_alpha st))
  /\ tc_stroke_fill c = tc_fill c.

(** Neither the shadow nor the fill can leave a visible mark. *)
Definition quiet (fill : color) (st : style) : Prop :=
  shadow_alpha st = 0 /\ color_alpha fill = 0.

(** What painting onto [base] may do between two worlds: images are only
    added, the images that existed are untouched except [base], which
    keeps its shape, and text is drawn onto [base] at [anchors]. *)
Record evolved (base : loc) (fill : color) (st : style)
    (s s' : world) (anchors : list (Z * Z)) : Prop := {
  pt_len : (length (images s) <= length (images s'))%nat;
  pt_old : forall l, (l < length (images s))%nat -> l <> base ->
           images s' !! l = images s !! l;
  pt_base : forall im, images s !! base = Some im ->
            exists im', images s' !! base = Some im'
              /\ same_shape im im'
              /\ (quiet fill st -> alpha_zero im -> alpha_zero im');
  pt_calls : exists cs, drawn s' = drawn s ++ cs
              /\ drawn_on base cs = anchors
              /\ Forall (ink_ok fill st) cs
}.

(** Painting at [anchors]: without an anchor no text is drawn at all. *)
Definition painted (base : loc) (fill : color) (st : style)
    (s s' : world) (anchors : list (Z * Z)) : Prop :=
  evolved base fill st s s' anchors
  /\ (anchors = [] -> drawn s' = drawn s).

(** The anchors two nested [range] loops visit, rows outermost; the inner
    range is built once per row, so its error needs a row. *)
Definition grid (x0 x1 sx y0 y1 sy : Z) : result (list (Z * Z)) :=
  match py_range y0 y1 sy with
  | Raise e => Raise e
  | Ok [] => Ok []
  | Ok ys =>
      match py_range x0 x1 sx with
      | Raise e => Raise e
      | Ok xs => Ok (flat_map (fun yy => map (fun xx => (xx, yy)) xs) ys)
      end
  end.

(** [ceil(a / b)] for a positive [b]. *)
Definition ceil_div (a b : Z) : Z := (a + b - 1) / b.

Definition valid_rgba (base : loc) (s : world) : Prop :=
  exists im, images s !! base = Some im /\ im_mode im = ModeRGBA.

(** The anchors [add_watermark_to_image] draws at, or the exception that
    stops it, for an image of size [w] x [h]: the mode dispatch of the
    program without its drawing, which [run_outcome] shows the program to
    follow. *)
Definition placement (w h : Z) (p : params) : result (list (Z * Z)) :=
  let '(tw, th) := text_size (fnt p) (text p) in
  if String.eqb (mode p) "bottom-right" then
    Ok [(w - tw - margin p, h - th - margin p)]
  else if String.eqb (mode p) "center" then
    Ok [((w - tw) / 2, (h - th) / 2)]
  else if String.eqb (mode p) "tile" then
    match scaled (tw + margin p) (fst (tile_step p)) with
    | Raise e => Raise e
    | Ok step_x =>
        match scaled (th + margin p) (snd (tile_step p)) with
        | Raise e => Raise e
        | Ok step_y => grid 0 w step_x 0 h step_y
        end
    end
  else if String.eqb (mode p) "diagonal-tile" then
    match scaled (Z.max tw th) (diag_step p) with
    | Raise e => Raise e
    | Ok step => grid (- w) (w * 2) step (- h) (h * 2) step
    end
  else Raise (ValueError ("unknown mode: " ++ mode p)).

(** The image the anchors are drawn onto: the overlay, or in the diagonal
    mode the working layer made after it. *)
Definition canvas (n0 : nat) (p : params) : loc :=
  if String.eqb (mode p) "diagonal-tile" then S n0 else n0.

Definition fill_of (p : params) : color := (255, 255, 255, opacity p).

(** What a run leaves, when it paints onto [base] what [plan] says: the
    images that existed are untouched, the text calls made are those of the
    plan, and the result is the converted source under the overlay. *)
Record outcome (rot_src : N * N -> Z * Z -> Z * Z) (p : params)
    (s0 : world) (im0 : image) (base : loc)
    (plan : result (list (Z * Z))) (r : result loc) (s' : world) : Prop := {
  oc_old : forall l, (l < length (images s0))%nat ->
           images s' !! l = images s0 !! l;
  oc_calls : exists cs, drawn s' = drawn s0 ++ cs
               /\ Forall (ink_ok (fill_of p) (sty p)) cs
               /\ drawn_on base cs =
                  match plan with Ok a => a | Raise _ => [] end;
  oc_none : match plan with Ok a => a | Raise _ => [] end = [] ->
            drawn s' = drawn s0;
  oc_result :
    match plan with
    | Raise e => r = Raise e
    | Ok _ =>
        exists rl ov,
          r = Ok rl /\ (length (images s0) <= rl)%nat
          /\ images s' !! rl =
             Some (Pillow.composite_image
                     (Pillow.convert_rgba_image im0) ov)
          /\ (quiet (fill_of p) (sty p) -> alpha_zero ov)
          /\ (base = S (length (images s0)) ->
              (exists tl, images s' !! base = Some tl
                 /\ im_width tl = im_width im0
                 /\ im_height tl = im_height im0)
              /\ forall x y,
                   (let '(sx, sy) :=
                      rot_src (im_width im0, im_height im0) (x, y) in
                    inside (im_width im0) (im_height im0) sx sy) = false ->
                   im_px ov x y = transparent)
    end
}.

(** The regular grid with [nx] columns and [ny] rows from [(x0, y0)], rows
    outermost. *)
Definition lattice (x0 sx : Z) (nx : nat) (y0 sy : Z) (ny : nat)
  : list (Z * Z) :=
  flat_map (fun j => map (fun i => (x0 + Z.of_nat i * sx,
                                    y0 + Z.of_nat j * sy)) (seq 0 nx))
           (seq 0 ny).

Definition valid_mode (m : string) : Prop :=
  m = "bottom-right"%string \/ m = "center"%string \/ m = "tile"%string
  \/ m = "diagonal-tile"%string.

(** The pixel steps of the tiling modes are computed and are not zero. *)
Definition nondegenerate (p : params) : Prop :=
  let '(tw, th) := text_size (fnt p) (text p) in
  (mode p = "tile"%string ->
   exists sx sy, scaled (tw + margin p) (fst (tile_step p)) = Ok sx
                 /\ scaled (th + margin p) (snd (tile_step p)) = Ok sy
                 /\ sx <> 0 /\ sy <> 0)
  /\ (mode p = "diagonal-tile"%string ->
      exists step, scaled (Z.max tw th) (diag_step p) = Ok step
                   /\ step <> 0).

(* ===================================================================== *)
(** ** Inputs of the examples *)
(* ===================================================================== *)

(** A rotation and a blur that leave every pixel where it is. *)
Definition rot_none (sz : N * N) (xy : Z * Z) : Z * Z := xy.

Definition blur_none (r : Z) (im : image) : Z -> Z -> pixel := im_px im.

(** A font whose every text is a solid box of [tw] x [th] pixels. *)
Definition box_font (tw th : Z) : font :=
  Font (fun _ => (0, 0, tw, th))
       (fun _ sw dx dy =>
          if (- sw <=? dx) && (dx <? tw + sw) && (- sw <=? dy)
             && (dy <? th + sw)
          then 255 else 0).

(** An opaque image of one colour. *)
Definition plain (m : band_mode) (w h : N) : image :=
  Image m w h (fun _ _ => Px 10 20 30 255).

Definition default_style : style := Style 0 (2, 2) 180 0.

Definition one : PyFloat.float := PyFloat.lit 1 0.

(** The inputs of the examples: an opaque 200 x 100 image alone in the
    store, and a text measuring 50 x 20. *)
Definition photo : world := World [plain ModeRGB 200 100] [].

Definition corner_params : params :=
  Params "SAMPLE" (box_font 50 20) "bottom-right" 128 10 default_style
         (one, one) (PyFloat.lit 3 (-1)).


Definition empty_diag_params : params :=
  Params "" (box_font 0 0) "diagonal-tile" 128 20 default_style
         (one, one) (PyFloat.lit 3 (-1)).

Definition quiet_params (m : string) : params :=
  Params "SAMPLE" (box_font 50 20) m 0 10 (Style 1 (2, 2) 0 3)
         (one, one) (PyFloat.lit 3 (-1)).

(** The tile anchors as the specification words them: the steps are the
    products rounded to the nearest integer. *)
Definition spec_step (n : Z) (factor : PyFloat.float) : result Z :=
  match PyFloat.int_mul n factor with
  | Ok v => PyFloat.round v
  | Raise e => Raise e
  end.

Definition spec_tile_anchors (w h : Z) (p : params)
  : result (list (Z * Z)) :=
  let '(tw, th) := text_size (fnt p) (text p) in
  match spec_step (tw + margin p) (fst (tile_step p)) with
  | Raise e => Raise e
  | Ok sx =>
      match spec_step (th + margin p) (snd (tile_step p)) with
      | Raise e => Raise e
      | Ok sy => Ok (lattice 0 sx (Z.to_nat (ceil_div w sx))
                             0 sy (Z.to_nat (ceil_div h sy)))
      end
  end.

(** A 10 x 4 image; a text of 2 x 1 with margin 1 and the horizontal
    factor 1.25, so that the product is 3.75. *)
Definition strip : world := World [plain ModeRGB 10 4] [].

Definition strip_params : params :=
  Params "ab" (box_font 2 1) "tile" 128 1 default_style
         (PyFloat.lit 5 (-2), one) (PyFloat.lit 3 (-1)).


(** The exact 45 degree rotation about the centre of a [w] x [h] image,
    sampled at pixel centres: with [X = 2x + 1 - w] and [Y = 2y + 1 - h],
    the source of the output pixel [(x, y)] is
    [(floor ((2w + sqrt2 (X - Y)) / 4), floor ((2h + sqrt2 (X + Y)) / 4))]. *)
Definition floor_sqrt2_mul (a : Z) : Z :=
  if 0 <=? a then Z.sqrt (2 * a * a) else - (Z.sqrt (2 * a * a) + 1).

Definition rot45_src (sz : N * N) (xy : Z * Z) : Z * Z :=
  let w := Z.of_N (fst sz) in
  let h := Z.of_N (snd sz) in
  let X := 2 * fst xy + 1 - w in
  let Y := 2 * snd xy + 1 - h in
  ((2 * w + floor_sqrt2_mul (X - Y)) / 4,
   (2 * h + floor_sqrt2_mul (X + Y)) / 4).

(** An 8 x 8 image, and a text of 2 x 2 solid pixels drawn opaque, without
    shadow, every 2 pixels: the instances leave no gap between them. *)
Definition tile8 : world := World [plain ModeRGB 8 8] [].

Definition solid_diag_params : params :=
  Params "x" (box_font 2 2) "diagonal-tile" 255 0 (Style 0 (0, 0) 0 0)
         (one, one) one.

Definition pixels (w h : nat) : list (Z * Z) :=
  flat_map (fun y => map (fun x => (Z.of_nat x, Z.of_nat y)) (seq 0 w))
           (seq 0 h).

Definition spiral_params : params :=
  Params "SAMPLE" (box_font 50 20) "spiral" 128 10 default_style
         (one, one) (PyFloat.lit 3 (-1)).

(* ===================================================================== *)
(** ** Further vocabulary: the renderer and the single-anchor modes *)
(* ===================================================================== *)

(** Whether [paint_shadowed_text] runs its shadow pass. *)
Definition shadow_on (st : style) : bool :=
  negb (shadow_alpha st =? 0) && negb (pair_eqb (shadow_offset st) (0, 0)).

(** The shadow layer [paint_shadowed_text] puts under a text drawn at
    [pos] on an image of the shape of [im]. *)
Definition shadow_image (blur_px : Z -> image -> Z -> Z -> pixel)
    (f : font) (txt : string) (pos : Z * Z) (st : style) (im : image)
  : image :=
  let shadow_fill : color := (0, 0, 0, shadow_alpha st) in
  let sh :=
    Pillow.text_image f txt
      (fst pos + fst (shadow_offset st), snd pos + snd (shadow_offset st))
      shadow_fill (stroke_width st) shadow_fill
      (Pillow.blank (im_width im, im_height im)) in
  if 0 <? shadow_blur st then Pillow.blur_image blur_px (shadow_blur st) sh
  else sh.

(** What [paint_shadowed_text] leaves in [base], as a function of what
    was there. *)
Definition painted_image (blur_px : Z -> image -> Z -> Z -> pixel)
    (f : font) (txt : string) (pos : Z * Z) (fill : color) (st : style)
    (im : image) : image :=
  Pillow.text_image f txt pos fill (stroke_width st) fill
    (if shadow_on st
     then Pillow.composite_into_image im
            (shadow_image blur_px f txt pos st im)
     else im).

(** The text calls of one [paint_shadowed_text], the scratch layer of the
    shadow being image [n]. *)
Definition paint_calls (n : loc) (base : loc) (txt : string) (pos : Z * Z)
    (fill : color) (st : style) : list text_call :=
  (if shadow_on st
   then [TextCall n
           (fst pos + fst (shadow_offset st),
            snd pos + snd (shadow_offset st))
           txt (0, 0, 0, shadow_alpha st) (stroke_width st)
           (0, 0, 0, shadow_alpha st)]
   else [])
  ++ [TextCall base pos txt fill (stroke_width st) fill].

(** The images one [paint_shadowed_text] creates. *)
Definition paint_allocs (st : style) : nat :=
  if shadow_on st then (if 0 <? shadow_blur st then 2 else 1) else 0.

(** Whether the text, drawn at [pos] with stroke width [sw], puts any ink
    on the pixel [(x, y)]: through the mask of the text itself, or through
    the mask of the stroked text when there is a stroke. *)
Definition covers (f : font) (txt : string) (sw : Z) (dx dy : Z) : bool :=
  negb (Pillow.clip8 (font_mask f txt sw dx dy) =? 0).

Definition touches (f : font) (txt : string) (sw : Z) (pos : Z * Z)
    (x y : Z) : bool :=
  covers f txt 0 (x - fst pos) (y - snd pos)
  || (negb (sw =? 0) && covers f txt sw (x - fst pos) (y - snd pos)).

(** The anchor of the two modes that draw the text once. *)
Definition single_anchor (w h : Z) (p : params) : Z * Z :=
  let '(tw, th) := text_size (fnt p) (text p) in
  if String.eqb (mode p) "bottom-right"
  then (w - tw - margin p, h - th - margin p)
  else ((w - tw) / 2, (h - th) / 2).

Definition single_mode (m : string) : Prop :=
  m = "bottom-right"%string \/ m = "center"%string.

Definition is_finite (f : PyFloat.float) : bool :=
  match f with
  | S754_zero _ | S754_finite _ _ _ => true
  | S754_infinity _ | S754_nan => false
  end.

(** Where the shadow of a text drawn at [pos] is drawn. *)
Definition shadow_pos (pos : Z * Z) (st : style) : Z * Z :=
  (fst pos + fst (shadow_offset st), snd pos + snd (shadow_offset st)).

(** The exceptions the computation of a pixel step can raise. *)
Definition step_error (e : exn) : Prop :=
  e = OverflowError "int too large to convert to float"
  \/ e = ValueError "cannot convert float NaN to integer"
  \/ e = OverflowError "cannot convert float infinity to integer".

(** A 5 x 3 image and a text of 8 x 2, wider than it. *)
Definition tiny : world := World [plain ModeRGB 5 3] [].

Definition center_params : params :=
  Params "SAMPLE" (box_font 8 2) "center" 128 10 default_style
         (one, one) (PyFloat.lit 3 (-1)).

(** A blank 4 x 4 layer alone in the store. *)
Definition layer_world : world := World [Pillow.blank (4%N, 4%N)] [].

Definition opaque_corner_params : params :=
  Params "SAMPLE" (box_font 50 20) "bottom-right" 255 10 default_style
         (one, one) (PyFloat.lit 3 (-1)).

(** A blur that paints everything black. *)
Definition blur_black (r : Z) (im : image) (x y : Z) : pixel :=
  Px 0 0 0 255.

Definition nan_tile_params : params :=
  Params "SAMPLE" (box_font 50 20) "tile" 128 10 default_style
         (S754_nan, one) (PyFloat.lit 3 (-1)).

(* ===================================================================== *)
(** ** Fonts, files and batches *)
(* ===================================================================== *)

(** The exceptions of the batch layer: those of the compositor, the
    [OSError] family ([FileNotFoundError] and [NotADirectoryError] are
    [OSError]s) and [KeyError].  The message of the [FileNotFoundError] of
    [load_font] is left out. *)
Inductive py_exn : Type :=
| Core (e : exn)
| OSError (msg : string)
| FileNotFoundError
| NotADirectoryError (path : string)
| KeyError (key : string).

(** What [except OSError] catches. *)
Definition is_oserror (e : py_exn) : bool :=
  match e with
  | OSError _ | FileNotFoundError | NotADirectoryError _ => true
  | Core _ | KeyError _ => false
  end.

Inductive res (A : Type) : Type :=
| Val (a : A)
| Exc (e : py_exn).

Arguments Val {A} a.

Arguments Exc {A} e.

(** The two lines [process_directory] prints: the warning that no image
    was found, and the line that names a file written. *)
Inductive message : Type :=
| NoImagesWarning
| DoneLine (name : string).

(** The calls made to the world outside, each with its arguments: a font
    file read, an image file opened, a directory made, an image saved, a
    line printed. *)
Inductive event : Type :=
| EvTruetype (path : string) (size : Z)
| EvOpen (path : string)
| EvMkdir (path : string)
| EvSave (path : string) (im : image) (quality : Z)
| EvPrint (msg : message).

(** The world outside, through its answers; each may depend on all the
    calls made before it.  [resolve] is [expanduser().resolve()],
    [iterdir] gives the names of the entries of a directory in the order
    of the file system, [open_image] is [Image.open], [mkdir] is
    [mkdir(exist_ok=True)], [save] is [save(path, quality=..)]; the last
    two fields are the pixel maps of Pillow's rotation and blur. *)
Record host : Type := Host {
  resolve : list event -> string -> string;
  is_dir : list event -> string -> bool;
  iterdir : list event -> string -> res (list string);
  truetype : list event -> string -> Z -> res font;
  open_image : list event -> string -> res image;
  exif_transpose : image -> res image;
  mkdir : list event -> string -> res unit;
  save : list event -> string -> image -> res unit;
  host_rot : N * N -> Z * Z -> Z * Z;
  host_blur : Z -> image -> Z -> Z -> pixel
}.

(** The state of a batch: the images in memory and the calls made so far,
    oldest first. *)
Record session : Type := Session {
  memory : world;
  trace : list event
}.

Definition B (A : Type) : Type := session -> res A * session.

Definition bret {A} (a : A) : B A := fun t => (Val a, t).

Definition bbind {A C} (c : B A) (k : A -> B C) : B C :=
  fun t => match c t with
           | (Val a, t') => k a t'
           | (Exc e, t') => (Exc e, t')
           end.

Definition braise {A} (e : py_exn) : B A := fun t => (Exc e, t).

Notation "x <~ c ;; k" := (bbind c (fun x => k))
  (at level 100, c at next level, right associativity).

Notation "c ;;~ k" := (bbind c (fun _ => k))
  (at level 100, right associativity).

(** A value or an exception of the compositor, as one of the batch. *)
Definition of_result {A} (r : result A) : res A :=
  match r with
  | Ok a => Val a
  | Raise e => Exc (Core e)
  end.

Definition rbind {A C} (r : res A) (k : A -> res C) : res C :=
  match r with
  | Val a => k a
  | Exc e => Exc e
  end.

(** A computation on the images in memory, inside a batch. *)
Definition in_memory {A} (c : M A) : B A :=
  fun t => let '(r, w) := c (memory t) in
           (of_result r, Session w (trace t)).

(** A call to the world outside: it is answered from the calls made
    before it, and recorded whether it returns or raises. *)
Definition call {A} (ev : event) (answer : list event -> res A) : B A :=
  fun t => (answer (trace t), Session (memory t) (trace t ++ [ev])).

(** A computation that touches nothing outside. *)
Definition pure_call {A} (r : res A) : B A := fun t => (r, t).

Fixpoint bfor_each {A} (xs : list A) (body : A -> B unit) : B unit :=
  match xs with
  | [] => bret tt
  | x :: xs' => body x ;;~ bfor_each xs' body
  end.

(** [Path("fonts/NotoSansJP-Regular.ttfa")] *)
Definition bundled_font : string := "fonts/NotoSansJP-Regular.ttfa".

(** [filter(None, candidates)] keeps a path that is neither [None] nor
    the empty string. *)
Definition given_path (font_path : option string) : list string :=
  match font_path with
  | Some p => if String.eqb p "" then [] else [p]
  | None => []
  end.

(** The loop of [load_font] over the candidates, and the [raise] after
    it. *)
Fixpoint try_fonts (h : host) (size : Z) (candidates : list string)
  : B font :=
  match candidates with
  | [] => braise FileNotFoundError
  | fp :: rest =>
      fun t =>
        match call (EvTruetype fp size)
                (fun past => truetype h past fp size) t with
        | (Val f, t') => (Val f, t')
        | (Exc e, t') =>
            if is_oserror e then try_fonts h size rest t' else (Exc e, t')
        end
  end.

(** [load_font(size, font_path)] *)
Definition load_font (h : host) (size : Z) (font_path : option string)
  : B font :=
  try_fonts h size (given_path font_path ++ [bundled_font]).

Module Path.

(** [name.rfind('.')], as the parts before and after the last dot. *)
Fixpoint split_last_dot (s : string) : option (string * string) :=
  match s with
  | EmptyString => None
  | String c rest =>
      match split_last_dot rest with
      | Some (b, a) => Some (String c b, a)
      | None =>
          if String.eqb (String c "") "." then Some (EmptyString, rest)
          else None
      end
  end.

Definition nonempty (s : string) : bool :=
  match s with
  | EmptyString => false
  | String _ _ => true
  end.

(** [Path.suffix] and [Path.stem], from the name of the file, as pathlib
    computes them up to Python 3.13: the name is cut at its last dot when
    that dot is neither its first nor its last character. *)
Definition suffix (name : string) : string :=
  match split_last_dot name with
  | Some (b, a) => if nonempty b && nonempty a then "." ++ a else ""
  | None => ""
  end.

Definition stem (name : string) : string :=
  match split_last_dot name with
  | Some (b, a) => if nonempty b && nonempty a then b else name
  | None => name
  end.

(** [directory / name], as text: a label of the file, which is not taken
    apart again. *)
Definition join (directory name : string) : string :=
  directory ++ "/" ++ name.

End Path.

(** [str.lower()], on the ASCII letters: it is [str.lower()] on ASCII
    text, and on any text as far as membership in [default_exts] goes,
    since no other character lowers to a letter of these extensions. *)
Definition lower_ascii (c : Ascii.ascii) : Ascii.ascii :=
  let n := Ascii.nat_of_ascii c in
  if (65 <=? n)%nat && (n <=? 90)%nat then Ascii.ascii_of_nat (n + 32)
  else c.

Fixpoint lower (s : string) : string :=
  match s with
  | EmptyString => EmptyString
  | String c rest => String (lower_ascii c) (lower rest)
  end.

Definition default_exts : list string :=
  [".png"; ".jpg"; ".jpeg"; ".webp"; ".bmp"]%string.

(** [p.suffix.lower() in exts] *)
Definition is_image_name (exts : list string) (name : string) : bool :=
  existsb (String.eqb (lower (Path.suffix name))) exts.

(** [iter_image_files(directory, exts)], on the names of the entries of
    the directory, in the order [iterdir] gives them. *)
Definition iter_image_files (entries : list string) (exts : list string)
  : list string :=
  List.filter (is_image_name exts) entries.

(** [im.convert("RGB")]: the colour bands, the alpha band dropped. *)
Definition convert_rgb_image (im : image) : image :=
  Image ModeRGB (im_width im) (im_height im)
    (fun x y =>
       let p := Pillow.to_rgba (im_mode im) (im_px im x y) in
       Px (pr p) (pg p) (pb p) 255).

(** The arguments of [process_directory] besides the directory. *)
Record batch_args : Type := BatchArgs {
  b_text : string;
  b_mode : string;
  b_font_size : option Z;
  b_font_ratio : PyFloat.float;
  b_fit : string;
  b_opacity : Z;
  b_margin_ratio : PyFloat.float;
  b_font_path : option string;
  b_sty : style;
  b_tile_step : PyFloat.float * PyFloat.float;
  b_diag_step : PyFloat.float
}.

(** [if font_size:] holds for a size that is neither [None] nor 0. *)
Definition fixed_size (font_size : option Z) : option Z :=
  match font_size with
  | Some n => if n =? 0 then None else Some n
  | None => None
  end.

(** [int((w**2 + h**2) ** 0.5)], the power one half being the rounded
    square root. *)
Definition diagonal (w h : Z) : result Z :=
  match PyFloat.of_int (w * w + h * h) with
  | Ok v => PyFloat.to_int (SFsqrt PyFloat.prec PyFloat.emax v)
  | Raise e => Raise e
  end.

(** The font size of an image of [w] x [h]: the fixed size when there is
    one, else the base that [fit] names, times the ratio.  The table of
    the bases is built whole before [fit] is looked up in it. *)
Definition font_size_for (a : batch_args) (w h : Z) : res Z :=
  match fixed_size (b_font_size a) with
  | Some n => Val n
  | None =>
      rbind (of_result (diagonal w h)) (fun diag =>
      rbind (if String.eqb (b_fit a) "width" then Val w
             else if String.eqb (b_fit a) "height" then Val h
             else if String.eqb (b_fit a) "long" then Val (Z.max w h)
             else if String.eqb (b_fit a) "short" then Val (Z.min w h)
             else if String.eqb (b_fit a) "diag" then Val diag
             else Exc (KeyError (b_fit a))) (fun base =>
      of_result (scaled base (b_font_ratio a))))
  end.

(** [Path("output")] *)
Definition out_dir : string := "output".

(** The name of the file written for an entry:
    [f"{img_path.stem}_wm{img_path.suffix}"]. *)
Definition out_name (name : string) : string :=
  Path.stem name ++ "_wm" ++ Path.suffix name.

(** The arguments [process_directory] passes to
    [add_watermark_to_image]. *)
Definition watermark_params (a : batch_args) (f : font) (margin : Z)
  : params :=
  Params (b_text a) f (b_mode a) (b_opacity a) margin (b_sty a)
         (b_tile_step a) (b_diag_step a).

(** The body of the loop of [process_directory], for one entry of the
    directory. *)
Definition process_image (h : host) (a : batch_args) (directory : string)
    (name : string) : B unit :=
  let img_path := Path.join directory name in
  opened <~ call (EvOpen img_path)
              (fun past => open_image h past img_path) ;;
  im <~ pure_call (exif_transpose h opened) ;;
  img <~ in_memory (alloc im) ;;
  let w := Z.of_N (im_width im) in
  let h' := Z.of_N (im_height im) in
  size <~ pure_call (font_size_for a w h') ;;
  font <~ load_font h size (b_font_path a) ;;
  margin <~ pure_call
              (of_result (scaled (Z.max w h') (b_margin_ratio a))) ;;
  wm_img <~ in_memory
              (add_watermark_to_image (host_rot h) (host_blur h) img
                 (watermark_params a font margin)) ;;
  let out_path := Path.join out_dir (out_name name) in
  wm <~ in_memory (load wm_img) ;;
  rgb <~ in_memory (alloc (convert_rgb_image wm)) ;;
  call (EvSave out_path (convert_rgb_image wm) 95)
    (fun past => save h past out_path (convert_rgb_image wm)) ;;~
  call (EvPrint (DoneLine (out_name name))) (fun _ => Val tt).

(** [process_directory(directory, **args)] *)
Definition process_directory (h : host) (directory : string)
    (a : batch_args) : B unit :=
  fun t =>
    let directory := resolve h (trace t) directory in
    if negb (is_dir h (trace t) directory)
    then braise (NotADirectoryError directory) t
    else
      (entries <~ pure_call (iterdir h (trace t) directory) ;;
       let files := iter_image_files entries default_exts in
       match files with
       | [] => call (EvPrint NoImagesWarning) (fun _ => Val tt)
       | _ :: _ =>
           call (EvMkdir out_dir) (fun past => mkdir h past out_dir) ;;~
           bfor_each files (process_image h a directory)
       end) t.

(** The paths opened, the paths saved to, the names reported as done and
    the font sizes asked for, in a list of calls. *)
Definition opened_paths (evs : list event) : list string :=
  flat_map (fun ev => match ev with EvOpen p => [p] | _ => [] end) evs.

Definition saved_paths (evs : list event) : list string :=
  flat_map (fun ev => match ev with EvSave p _ _ => [p] | _ => [] end) evs.

Definition done_lines (evs : list event) : list string :=
  flat_map (fun ev => match ev with
                      | EvPrint (DoneLine n) => [n]
                      | _ => []
                      end) evs.

Definition font_sizes (evs : list event) : list Z :=
  flat_map (fun ev => match ev with EvTruetype _ sz => [sz] | _ => [] end)
           evs.

(** An entry the batch can process: it opens, whenever it is opened, to
    an image that transposes, for whose size the margin is computed and
    gives steps that are not zero. *)
Definition readable (h : host) (a : batch_args) (f : font) (dir n : string)
  : Prop :=
  exists opened src mg,
    (forall past, open_image h past (Path.join dir n) = Val opened)
    /\ exif_transpose h opened = Val src
    /\ scaled (Z.max (Z.of_N (im_width src)) (Z.of_N (im_height src)))
         (b_margin_ratio a) = Ok mg
    /\ nondegenerate (watermark_params a f mg).

(** What is known of an image handed to [save]: it is the RGB copy of
    the watermarked image of an entry, and with nothing visible to draw
    it has the colours of the source. *)
Definition save_of (h : host) (dir : string) (a : batch_args)
    (ev : event) : Prop :=
  match ev with
  | EvSave p im q =>
      q = 95 /\ im_mode im = ModeRGB
      /\ exists n past opened src,
           p = Path.join out_dir (out_name n)
           /\ is_image_name default_exts n = true
           /\ open_image h past (Path.join dir n) = Val opened
           /\ exif_transpose h opened = Val src
           /\ im_width im = im_width src
           /\ im_height im = im_height src
           /\ (b_opacity a = 0 -> shadow_alpha (b_sty a) = 0 ->
               forall x y,
                 im_px im x y = im_px (convert_rgb_image src) x y)
  | _ => True
  end.

(** A world outside for the examples: the directory [/pics] holds the
    entries given; every file opens to an opaque 200 x 100 image, every
    font file gives the font of the examples, and nothing fails. *)
Definition studio (entries : list string) : host :=
  Host (fun _ d => d)
       (fun _ d => String.eqb d "/pics")
       (fun _ _ => Val entries)
       (fun _ _ _ => Val (box_font 50 20))
       (fun _ _ => Val (plain ModeRGB 200 100))
       (fun im => Val im)
       (fun _ _ => Val tt)
       (fun _ _ _ => Val tt)
       rot_none blur_none.

Definition holiday : list string := ["a.png"; "notes.txt"; "b.JPG"]%string.

(** Entries none of which has an image suffix. *)
Definition clutter : list string :=
  [".png"; "notes.txt"; "png"; "a.png."]%string.

Definition fresh : session := Session (World [] []) [].

(** The arguments the command line gives by default, the ratios 0.05 and
    0.02 as the floats nearest to them. *)
Definition default_args : batch_args :=
  BatchArgs "sample" "bottom-right" None
            (PyFloat.lit 3602879701896397 (-56)) "diag" 128
            (PyFloat.lit 5764607523034235 (-58)) None default_style
            (one, one) (PyFloat.lit 3 (-1)).

(** The same with a font size and a font file given. *)
Definition sized_args : batch_args :=
  BatchArgs "sample" "bottom-right" (Some 40)
            (PyFloat.lit 3602879701896397 (-56)) "diag" 128
            (PyFloat.lit 5764607523034235 (-58)) (Some "font.ttf"%string)
            default_style (one, one) (PyFloat.lit 3 (-1)).

(** The same with a fit that does not exist. *)
Definition odd_fit_args : batch_args :=
  BatchArgs "sample" "bottom-right" None
            (PyFloat.lit 3602879701896397 (-56)) "area" 128
            (PyFloat.lit 5764607523034235 (-58)) None default_style
            (one, one) (PyFloat.lit 3 (-1)).

(** The same with nothing visible to draw. *)
Definition invisible_args : batch_args :=
  BatchArgs "sample" "tile" None
            (PyFloat.lit 3602879701896397 (-56)) "diag" 0
            (PyFloat.lit 5764607523034235 (-58)) None (Style 0 (2, 2) 0 0)
            (one, one) (PyFloat.lit 3 (-1)).

(** The text calls of [paint_shadowed_text] run at each of [anchors] in
    turn onto [base], the next image to be created being image [n]: each
    run makes the calls of [paint_calls], and its scratch layers come
    after those of the runs before it. *)
Fixpoint run_calls (n base : loc) (txt : string) (fill : color)
    (st : style) (anchors : list (Z * Z)) : list text_call :=
  match anchors with
  | [] => []
  | pos :: rest =>
      paint_calls n base txt pos fill st
      ++ run_calls (n + paint_allocs st)%nat base txt fill st rest
  end.

(** Painting at [anchors] in turn, with the calls it makes and the
    images it creates. *)
Definition draws_exactly (base : loc) (txt : string) (fill : color)
    (st : style) (s s' : world) (anchors : list (Z * Z)) : Prop :=
  drawn s' = drawn s ++ run_calls (length (images s)) base txt fill st anchors
  /\ length (images s')
     = (length (images s) + length anchors * paint_allocs st)%nat
  /\ valid_rgba base s'.

(** Text of ASCII characters only.  On it [lower] is [str.lower()]. *)
Fixpoint is_ascii (s : string) : bool :=
  match s with
  | EmptyString => true
  | String c rest => (Ascii.nat_of_ascii c <? 128)%nat && is_ascii rest
  end.

(** Whether a text has an upper-case ASCII letter. *)
Fixpoint has_upper (s : string) : bool :=
  match s with
  | EmptyString => false
  | String c rest =>
      ((65 <=? Ascii.nat_of_ascii c)%nat
       && (Ascii.nat_of_ascii c <=? 90)%nat)
      || has_upper rest
  end.

(** Two extensions asked for in upper and in lower case. *)
Definition shouted_exts : list string := [".JPG"; ".png"]%string.

(* ===================================================================== *)
(** ** Properties *)
(* ===================================================================== *)

Example range_ex1 : py_range 0 10 3 = Ok [0; 3; 6; 9].
Proof. reflexivity. Qed.

Example range_ex2 : py_range (-4) 8 5 = Ok [-4; 1; 6].
Proof. reflexivity. Qed.

Example range_ex3 : py_range 0 10 (-3) = Ok [].
Proof. reflexivity. Qed.

Example float_ex1 :
  PyFloat.int_mul 3 (PyFloat.lit 3 (-1)) = Ok (PyFloat.lit 9 (-1))
  /\ PyFloat.to_int (PyFloat.lit 9 (-1)) = Ok 4
  /\ PyFloat.round (PyFloat.lit 9 (-1)) = Ok 4
  /\ PyFloat.round (PyFloat.lit 3 (-1)) = Ok 2
  /\ PyFloat.to_int (PyFloat.lit 3 (-1)) = Ok 1
  /\ PyFloat.to_int (PyFloat.lit (-3) (-1)) = Ok (-1).
Proof. vm_compute. repeat split. Qed.

Lemma lookup_snoc_old (l : list image) (x im : image) (i : nat) :
  l !! i = Some im -> (l ++ [x]) !! i = Some im.
Proof. intros H. rewrite lookup_app_l; [done | by eapply lookup_lt_Some]. Qed.

Lemma lookup_snoc_new (l : list image) (x : image) :
  (l ++ [x]) !! length l = Some x.
Proof. by rewrite list_lookup_middle. Qed.

Lemma load_ok (l : loc) (s : world) (im : image) :
  images s !! l = Some im -> load l s = (Ok im, s).
Proof. unfold load. by intros ->. Qed.

Lemma load_dangling (l : loc) (s : world) :
  images s !! l = None -> load l s = (Raise dangling, s).
Proof. unfold load. by intros ->. Qed.

Lemma size_ok (l : loc) (s : world) (im : image) :
  images s !! l = Some im ->
  Pillow.size l s = (Ok (im_width im, im_height im), s).
Proof. intros H. unfold Pillow.size, bind. by rewrite (load_ok _ _ _ H). Qed.

Lemma text_ok (t : loc) (xy : Z * Z) (txt : string) (f : font)
    (fill : color) (sw : Z) (sfill : color) (s : world) (im : image) :
  images s !! t = Some im ->
  Pillow.text t xy txt f fill sw sfill s =
  (Ok tt, World (<[t := Pillow.text_image f txt xy fill sw sfill im]>
                   (images s))
                (drawn s ++ [TextCall t xy txt fill sw sfill])).
Proof. intros H. unfold Pillow.text, bind. by rewrite (load_ok _ _ _ H). Qed.

Lemma text_image_shape f txt xy fill sw sfill im :
  same_shape im (Pillow.text_image f txt xy fill sw sfill im).
Proof.
  unfold Pillow.text_image, same_shape. by destruct (sw =? 0).
Qed.

Lemma text_pass_alpha_zero f txt xy sw ink im :
  pa ink = 0 -> alpha_zero im ->
  alpha_zero (Pillow.text_pass f txt xy sw ink im).
Proof.
  intros Hi Hz x y. cbn. rewrite Hi, Hz. unfold Pillow.blend.
  by rewrite !Z.mul_0_l.
Qed.

Lemma text_image_alpha_zero f txt xy fill sw im :
  color_alpha fill = 0 -> alpha_zero im ->
  alpha_zero (Pillow.text_image f txt xy fill sw fill im).
Proof.
  intros Hf Hz. destruct fill as [[[r g] b] a]. cbn in Hf. subst a.
  unfold Pillow.text_image.
  apply text_pass_alpha_zero; [done|].
  destruct (sw =? 0); [done|]. by apply text_pass_alpha_zero.
Qed.

Lemma alloc_ok (im : image) (s : world) :
  alloc im s = (Ok (length (images s)), World (images s ++ [im]) (drawn s)).
Proof. reflexivity. Qed.

Lemma into_ok (base layer : loc) (s : world) (a b : image) :
  images s !! base = Some a -> images s !! layer = Some b ->
  im_mode a = ModeRGBA -> im_mode b = ModeRGBA ->
  Pillow.alpha_composite_into base layer s =
  (Ok tt, World (<[base := Pillow.composite_into_image a b]> (images s))
                (drawn s)).
Proof.
  intros Ha Hb Ma Mb. unfold Pillow.alpha_composite_into, bind.
  rewrite (load_ok _ _ _ Ha), (load_ok _ _ _ Hb), Ma, Mb. reflexivity.
Qed.

Lemma composite_ok (l1 l2 : loc) (s : world) (a b : image) :
  images s !! l1 = Some a -> images s !! l2 = Some b ->
  im_mode a = ModeRGBA -> im_mode b = ModeRGBA ->
  im_width a = im_width b -> im_height a = im_height b ->
  Pillow.alpha_composite l1 l2 s =
  (Ok (length (images s)),
   World (images s ++ [Pillow.composite_image a b]) (drawn s)).
Proof.
  intros Ha Hb Ma Mb Hw Hh. unfold Pillow.alpha_composite, bind.
  rewrite (load_ok _ _ _ Ha), (load_ok _ _ _ Hb).
  unfold Pillow.check_composite, lift.
  rewrite Ma, Mb, Hw, Hh, !N.eqb_refl. reflexivity.
Qed.

Lemma blur_ok blur_px (r : Z) (l : loc) (s : world) (im : image) :
  images s !! l = Some im ->
  Pillow.gaussian_blur blur_px r l s =
  (Ok (length (images s)),
   World (images s ++ [Pillow.blur_image blur_px r im]) (drawn s)).
Proof.
  intros H. unfold Pillow.gaussian_blur, bind. by rewrite (load_ok _ _ _ H).
Qed.

Lemma rotate_ok rot_src (l : loc) (s : world) (im : image) :
  images s !! l = Some im ->
  Pillow.rotate45 rot_src l s =
  (Ok (length (images s)),
   World (images s ++ [Pillow.rotate_image rot_src im]) (drawn s)).
Proof.
  intros H. unfold Pillow.rotate45, bind. by rewrite (load_ok _ _ _ H).
Qed.

Lemma convert_ok (l : loc) (s : world) (im : image) :
  images s !! l = Some im ->
  Pillow.convert_rgba l s =
  (Ok (length (images s)),
   World (images s ++ [Pillow.convert_rgba_image im]) (drawn s)).
Proof.
  intros H. unfold Pillow.convert_rgba, bind. by rewrite (load_ok _ _ _ H).
Qed.

Lemma evolved_refl base fill st s : evolved base fill st s s [].
Proof.
  split; [lia | done | |].
  - intros im H. exists im. by repeat split.
  - exists []. by rewrite app_nil_r.
Qed.

Lemma painted_refl base fill st s : painted base fill st s s [].
Proof. split; [apply evolved_refl | done]. Qed.

Lemma drawn_on_app l cs1 cs2 :
  drawn_on l (cs1 ++ cs2) = drawn_on l cs1 ++ drawn_on l cs2.
Proof. unfold drawn_on. by rewrite filter_app, map_app. Qed.

Lemma evolved_trans base fill st s1 s2 s3 a1 a2 :
  evolved base fill st s1 s2 a1 -> evolved base fill st s2 s3 a2 ->
  evolved base fill st s1 s3 (a1 ++ a2).
Proof.
  intros [L1 O1 B1 (cs1 & D1 & A1 & F1)] [L2 O2 B2 (cs2 & D2 & A2 & F2)].
  split.
  - lia.
  - intros l Hl Hne. rewrite O2 by (done || lia). by apply O1.
  - intros im H. destruct (B1 _ H) as (im' & H' & S' & Z').
    destruct (B2 _ H') as (im'' & H'' & S'' & Z'').
    exists im''. split; [done|]. split.
    + destruct S' as (?&?&?), S'' as (?&?&?). repeat split; congruence.
    + auto.
  - exists (cs1 ++ cs2). split; [|split].
    + by rewrite D2, D1, app_assoc.
    + by rewrite drawn_on_app, A1, A2.
    + by apply Forall_app.
Qed.

Lemma painted_trans base fill st s1 s2 s3 a1 a2 :
  painted base fill st s1 s2 a1 -> painted base fill st s2 s3 a2 ->
  painted base fill st s1 s3 (a1 ++ a2).
Proof.
  intros [E1 N1] [E2 N2]. split; [by eapply evolved_trans|].
  intros H. apply app_eq_nil in H as [H1 H2].
  by rewrite (N2 H2), (N1 H1).
Qed.

Lemma text_painted base pos txt f fill st s im :
  images s !! base = Some im ->
  exists s',
    Pillow.text base pos txt f fill (stroke_width st) fill s = (Ok tt, s')
    /\ evolved base fill st s s' [pos].
Proof.
  intros Hb. eexists. split; [by apply text_ok|].
  pose proof (lookup_lt_Some _ _ _ Hb) as Hlt.
  split; cbn [images drawn].
  - by rewrite length_insert.
  - intros l Hl Hne. by rewrite list_lookup_insert_ne.
  - intros im0 H0. rewrite Hb in H0. injection H0 as <-.
    eexists. split; [by rewrite list_lookup_insert_eq|]. split.
    + apply text_image_shape.
    + intros [_ Hq] Hz. by apply text_image_alpha_zero.
  - eexists. split; [done|]. split.
    + unfold drawn_on. cbn. by rewrite Nat.eqb_refl.
    + constructor; [|constructor]. split; [by left | done].
Qed.

Section Painting.

Variable blur_px : Z -> image -> Z -> Z -> pixel.

Lemma shadow_painted base x y txt f fill st s im :
  images s !! base = Some im -> im_mode im = ModeRGBA ->
  shadow_alpha st <> 0 ->
  exists s',
    (sz <- Pillow.size base ;;
     shadow_layer <- Pillow.new sz ;;
     let shadow_fill : color := (0, 0, 0, shadow_alpha st) in
     Pillow.text shadow_layer
       (x + fst (shadow_offset st), y + snd (shadow_offset st))
       txt f shadow_fill (stroke_width st) shadow_fill ;;;
     shadow_layer <-
       (if 0 <? shadow_blur st
        then Pillow.gaussian_blur blur_px (shadow_blur st) shadow_layer
        else ret shadow_layer) ;;
     Pillow.alpha_composite_into base shadow_layer) s = (Ok tt, s')
    /\ evolved base fill st s s' [].
Proof.
  intros Hb Hm Ha.
  pose proof (lookup_lt_Some _ _ _ Hb) as Hlt.
  unfold bind at 1. rewrite (size_ok _ _ _ Hb).
  unfold bind at 1. unfold Pillow.new. rewrite alloc_ok.
  set (n := length (images s)).
  set (L0 := Pillow.blank _).
  unfold bind at 1.
  erewrite text_ok by (cbn; apply lookup_snoc_new).
  cbn [images drawn].
  set (X := Pillow.text_image _ _ _ _ _ _ _).
  set (c := TextCall _ _ _ _ _ _).
  assert (HX : im_mode X = ModeRGBA).
  { destruct (text_image_shape f txt (x + (shadow_offset st).1, y + (shadow_offset st).2)
               (0,0,0,shadow_alpha st) (stroke_width st) (0,0,0,shadow_alpha st) L0) as (E&_).
    fold X in E. by rewrite <- E. }
  assert (Hn : (<[n:=X]> (images s ++ [L0])) !! n = Some X).
  { apply list_lookup_insert_eq. rewrite length_app. cbn. lia. }
  assert (Hbase : (<[n:=X]> (images s ++ [L0])) !! base = Some im).
  { rewrite list_lookup_insert_ne by lia. by apply lookup_snoc_old. }
  assert (Hcalls : drawn_on base [c] = [] /\ Forall (ink_ok fill st) [c]).
  { split.
    - unfold drawn_on. cbn. destruct (Nat.eqb_spec n base); [lia | done].
    - constructor; [|constructor]. split; [by right | done]. }
  destruct (0 <? shadow_blur st).
  - unfold bind at 1. erewrite blur_ok by (cbn; exact Hn). cbn [images drawn].
    set (B := Pillow.blur_image _ _ _).
    eexists. split.
    { eapply into_ok; cbn [images].
      - by apply lookup_snoc_old.
      - apply lookup_snoc_new.
      - done.
      - done. }
    split; cbn [images drawn].
    + rewrite length_insert, length_app, length_insert, length_app. lia.
    + intros l Hl Hne. rewrite list_lookup_insert_ne by done.
      rewrite lookup_app_l by (rewrite length_insert, length_app; lia).
      rewrite list_lookup_insert_ne by lia. rewrite lookup_app_l by lia. done.
    + intros im0 H0. rewrite Hb in H0. injection H0 as <-.
      eexists. split.
      * apply list_lookup_insert_eq.
        rewrite length_app, length_insert, length_app. lia.
      * split; [by repeat split|]. intros [Hq _]. contradiction.
    + exists [c]. by destruct Hcalls.
  - unfold bind at 1, ret at 1.
    eexists. split.
    { eapply into_ok; cbn [images]; [exact Hbase | exact Hn | done | done]. }
    split; cbn [images drawn].
    + rewrite length_insert, length_insert, length_app. lia.
    + intros l Hl Hne. rewrite list_lookup_insert_ne by done.
      rewrite list_lookup_insert_ne by lia. rewrite lookup_app_l by lia. done.
    + intros im0 H0. rewrite Hb in H0. injection H0 as <-.
      eexists. split.
      * apply list_lookup_insert_eq. rewrite length_insert, length_app. lia.
      * split; [by repeat split|]. intros [Hq _]. contradiction.
    + exists [c]. by destruct Hcalls.
Qed.

Lemma evolved_valid base fill st s s' a :
  evolved base fill st s s' a -> valid_rgba base s -> valid_rgba base s'.
Proof.
  intros P (im & H & Hm). destruct (pt_base _ _ _ _ _ _ P _ H)
    as (im' & H' & (E & _) & _).
  exists im'. split; [done | congruence].
Qed.

Lemma painted_valid base fill st s s' a :
  painted base fill st s s' a -> valid_rgba base s -> valid_rgba base s'.
Proof. intros [P _]. exact (evolved_valid _ _ _ _ _ _ P). Qed.

Lemma paint_spec base pos txt f fill st s :
  valid_rgba base s ->
  exists s',
    paint_shadowed_text blur_px base pos txt f fill st s = (Ok tt, s')
    /\ painted base fill st s s' [pos].
Proof.
  intros (im & Hb & Hm). destruct pos as [x y]. unfold paint_shadowed_text.
  destruct (negb (shadow_alpha st =? 0)
            && negb (pair_eqb (shadow_offset st) (0, 0))) eqn:Hc.
  - assert (Ha : shadow_alpha st <> 0).
    { apply andb_true_iff in Hc as [Hc _]. apply negb_true_iff in Hc. lia. }
    destruct (shadow_painted base x y txt f fill st s im Hb Hm Ha)
      as (s1 & E1 & P1).
    unfold bind at 1. cbv beta iota zeta in E1 |- *. rewrite E1.
    destruct (evolved_valid _ _ _ _ _ _ P1 (ex_intro _ im (conj Hb Hm)))
      as (im1 & H1 & _).
    destruct (text_painted base (x, y) txt f fill st s1 im1 H1)
      as (s2 & E2 & P2).
    exists s2. split; [done|]. split; [|discriminate].
    apply (evolved_trans _ _ _ _ _ _ _ _ P1 P2).
  - unfold bind, ret.
    destruct (text_painted base (x, y) txt f fill st s im Hb)
      as (s2 & E2 & P2).
    exists s2. split; [done|]. split; [done | discriminate].
Qed.

Lemma for_each_painted {A} base fill st (body : A -> M unit)
    (h : A -> list (Z * Z)) (xs : list A) :
  (forall x s, valid_rgba base s ->
     exists s', body x s = (Ok tt, s') /\ painted base fill st s s' (h x)) ->
  forall s, valid_rgba base s ->
    exists s', for_each xs body s = (Ok tt, s')
               /\ painted base fill st s s' (flat_map h xs).
Proof.
  intros Hbody. induction xs as [|x xs IH]; intros s Hv.
  - exists s. split; [done | apply painted_refl].
  - destruct (Hbody x s Hv) as (s1 & E1 & P1).
    destruct (IH s1 (painted_valid _ _ _ _ _ _ P1 Hv)) as (s2 & E2 & P2).
    exists s2. split.
    + cbn. unfold bind. by rewrite E1.
    + apply (painted_trans _ _ _ _ _ _ _ _ P1 P2).
Qed.

Lemma flat_map_singleton {A B} (g : A -> B) (xs : list A) :
  flat_map (fun x => [g x]) xs = map g xs.
Proof. induction xs; cbn; congruence. Qed.

(** The two nested loops of the tiling modes, for any ranges: they end as
    [grid] says, having drawn at its anchors. *)
Lemma loops_painted base txt f fill st x0 x1 sx y0 y1 sy s :
  valid_rgba base s ->
  exists s',
    for_range y0 y1 sy (fun yy =>
      for_range x0 x1 sx (fun xx =>
        paint_shadowed_text blur_px base (xx, yy) txt f fill st)) s
    = (match grid x0 x1 sx y0 y1 sy with
       | Ok _ => Ok tt
       | Raise e => Raise e
       end, s')
    /\ painted base fill st s s'
         (match grid x0 x1 sx y0 y1 sy with Ok a => a | Raise _ => [] end).
Proof.
  intros Hv. unfold for_range, grid. unfold bind at 1, lift at 1.
  destruct (py_range y0 y1 sy) as [ys|e].
  2: { exists s. split; [done | apply painted_refl]. }
  destruct ys as [|y ys].
  { exists s. split; [done | apply painted_refl]. }
  destruct (py_range x0 x1 sx) as [xs|e] eqn:Hx.
  - apply for_each_painted; [|done].
    intros yy s1 Hv1. unfold bind, lift.
    rewrite <- flat_map_singleton.
    apply for_each_painted; [|done].
    intros xx s2 Hv2. by apply paint_spec.
  - exists s. split; [|apply painted_refl].
    cbn. unfold bind, lift. done.
Qed.

End Painting.

Lemma finish_ok (img ov : loc) (s : world) (im0 o : image) :
  images s !! img = Some im0 -> images s !! ov = Some o ->
  im_mode o = ModeRGBA ->
  im_width im0 = im_width o -> im_height im0 = im_height o ->
  (converted <- Pillow.convert_rgba img ;;
   Pillow.alpha_composite converted ov) s =
  (Ok (S (length (images s))),
   World ((images s ++ [Pillow.convert_rgba_image im0])
            ++ [Pillow.composite_image (Pillow.convert_rgba_image im0) o])
         (drawn s)).
Proof.
  intros Hi Ho Hm Hw Hh. unfold bind. rewrite (convert_ok _ _ _ Hi).
  erewrite composite_ok; cbn [images drawn].
  - rewrite length_app. cbn. by rewrite Nat.add_1_r.
  - apply lookup_snoc_new.
  - by apply lookup_snoc_old.
  - done.
  - done.
  - done.
  - done.
Qed.

Lemma blank_alpha_zero sz : alpha_zero (Pillow.blank sz).
Proof. by intros x y. Qed.

Section Modes.

Variable rot_src : N * N -> Z * Z -> Z * Z.

Variable blur_px : Z -> image -> Z -> Z -> pixel.

(** The modes that paint onto the overlay itself. *)
Lemma flat_outcome (img : loc) (p : params) (s0 : world) (im0 : image)
    (c : M loc) (plan : result (list (Z * Z))) (s2 : world)
    (r : result loc) (s' : world) :
  let n0 := length (images s0) in
  let s1 := World (images s0 ++ [Pillow.blank (im_width im0, im_height im0)])
                  (drawn s0) in
  images s0 !! img = Some im0 ->
  c s1 = (match plan with Ok _ => Ok n0 | Raise e => Raise e end, s2) ->
  painted n0 (fill_of p) (sty p) s1 s2
    (match plan with Ok a => a | Raise _ => [] end) ->
  (overlay <- c ;;
   converted <- Pillow.convert_rgba img ;;
   Pillow.alpha_composite converted overlay) s1 = (r, s') ->
  outcome rot_src p s0 im0 n0 plan r s'.
Proof.
  intros n0 s1 Hi Hc P E.
  pose proof (lookup_lt_Some _ _ _ Hi) as Hlt. fold n0 in Hlt.
  destruct P as [[PL PO PB (cs & PD & PA & PF)] PN].
  assert (Hlen1 : length (images s1) = S n0).
  { cbn. rewrite length_app. cbn. unfold n0. lia. }
  assert (Hold : forall l, (l < n0)%nat -> images s2 !! l = images s0 !! l).
  { intros l Hl. rewrite PO by lia. cbn. by rewrite lookup_app_l. }
  destruct (PB (Pillow.blank (im_width im0, im_height im0)))
    as (o & Ho & (Hm & Hw & Hh) & Hq).
  { cbn. apply lookup_snoc_new. }
  unfold bind at 1 in E. rewrite Hc in E.
  destruct plan as [a|e].
  - rewrite (finish_ok img n0 s2 im0 o) in E; [| | done | by rewrite <- Hm | done | done].
    2: { rewrite Hold by done. done. }
    injection E as <- <-. split; cbn [images drawn].
    + intros l Hl. rewrite !lookup_app_l by (rewrite ?length_app; lia).
      by apply Hold.
    + exists cs. by rewrite PD.
    + exact PN.
    + eexists _, o. split; [done|]. split; [lia|]. split; [|split].
      * replace (S (length (images s2))) with
          (length (images s2 ++ [Pillow.convert_rgba_image im0]))
          by (rewrite length_app; cbn; lia).
        apply lookup_snoc_new.
      * intros Q. apply Hq; [done | apply blank_alpha_zero].
      * intros Hb. fold n0 in Hb. lia.
  - injection E as <- <-. split.
    + done.
    + exists cs. by rewrite PD.
    + exact PN.
    + done.
Qed.

(** The diagonal mode: it paints onto a working layer, rotates it and
    puts it over the blank overlay. *)
Lemma diag_outcome (img : loc) (p : params) (s0 : world) (im0 : image)
    (tw th : Z) (r : result loc) (s' : world) :
  let n0 := length (images s0) in
  let sz := (im_width im0, im_height im0) in
  let w := Z.of_N (im_width im0) in
  let h := Z.of_N (im_height im0) in
  let s1 := World (images s0 ++ [Pillow.blank sz]) (drawn s0) in
  images s0 !! img = Some im0 ->
  (overlay <-
     (tile_layer <- Pillow.new sz ;;
      step <- lift (scaled (Z.max tw th) (diag_step p)) ;;
      for_range (- h) (h * 2) step (fun yy =>
        for_range (- w) (w * 2) step (fun xx =>
          paint_shadowed_text blur_px tile_layer (xx, yy) (text p) (fnt p)
            (fill_of p) (sty p))) ;;;
      rotated <- Pillow.rotate45 rot_src tile_layer ;;
      Pillow.alpha_composite n0 rotated) ;;
   converted <- Pillow.convert_rgba img ;;
   Pillow.alpha_composite converted overlay) s1 = (r, s') ->
  outcome rot_src p s0 im0 (S n0)
    (match scaled (Z.max tw th) (diag_step p) with
     | Raise e => Raise e
     | Ok step => grid (- w) (w * 2) step (- h) (h * 2) step
     end) r s'.
Proof.
  intros n0 sz w h s1 Hi E.
  pose proof (lookup_lt_Some _ _ _ Hi) as Hlt. fold n0 in Hlt.
  unfold bind at 1 in E. unfold bind at 1 in E.
  unfold Pillow.new in E. rewrite alloc_ok in E.
  replace (length (images s1)) with (S n0) in E
    by (cbn; rewrite length_app; cbn; unfold n0; lia).
  cbn [images drawn s1] in E.
  set (s1' := World _ _) in E.
  unfold bind at 1 in E. unfold lift at 1 in E.
  destruct (scaled (Z.max tw th) (diag_step p)) as [step|e].
  2: { injection E as <- <-. split; cbn [images drawn s1'].
       - intros l Hl. by rewrite !lookup_app_l by (rewrite ?length_app; lia).
       - exists []. by rewrite app_nil_r.
       - done.
       - done. }
  assert (Hv : valid_rgba (S n0) s1').
  { exists (Pillow.blank sz). split; [|done]. cbn.
    replace (S n0) with (length (images s0 ++ [Pillow.blank sz]))
      by (rewrite length_app; cbn; unfold n0; lia).
    apply lookup_snoc_new. }
  destruct (loops_painted blur_px (S n0) (text p) (fnt p) (fill_of p) (sty p)
              (- w) (w * 2) step (- h) (h * 2) step s1' Hv)
    as (s2 & E2 & P2).
  unfold bind at 1 in E. rewrite E2 in E.
  destruct P2 as [[PL PO PB (cs & PD & PA & PF)] PN].
  assert (Hlen1 : length (images s1') = S (S n0)).
  { cbn. rewrite !length_app. cbn. unfold n0. lia. }
  assert (Hold : forall l, (l <= n0)%nat ->
            images s2 !! l = (images s0 ++ [Pillow.blank sz]) !! l).
  { intros l Hl. rewrite PO by lia. cbn.
    rewrite lookup_app_l; [done | rewrite length_app; cbn; lia]. }
  destruct (grid (- w) (w * 2) step (- h) (h * 2) step) as [a|e].
  2: { injection E as <- <-. split.
       - intros l Hl. rewrite Hold by lia. by rewrite lookup_app_l.
       - exists cs. by rewrite PD.
       - exact PN.
       - done. }
  destruct (PB (Pillow.blank sz)) as (tl & Ht & (Hm & Hw & Hh) & Hq).
  { destruct Hv as (b & Hb & _). cbn in Hb |- *.
    replace (S n0) with (length (images s0 ++ [Pillow.blank sz]))
      by (rewrite length_app; cbn; unfold n0; lia).
    apply lookup_snoc_new. }
  unfold bind at 1 in E. rewrite (rotate_ok _ _ _ _ Ht) in E.
  set (R := Pillow.rotate_image rot_src tl) in E.
  assert (Hov : images s2 !! n0 = Some (Pillow.blank sz)).
  { rewrite Hold by lia. apply lookup_snoc_new. }
  rewrite (composite_ok n0 (length (images s2)) _ (Pillow.blank sz) R) in E;
    cbn [images drawn] in E |- *;
    [ | by apply lookup_snoc_old | apply lookup_snoc_new | done
      | unfold R; cbn; by rewrite <- Hm | exact Hw | exact Hh ].
  set (OV := Pillow.composite_image (Pillow.blank sz) R) in E.
  rewrite (finish_ok img _ _ im0 OV) in E; cbn [images drawn] in E |- *;
    [ | | apply lookup_snoc_new | done | done | done ].
  2: { rewrite !lookup_app_l by (rewrite ?length_app; lia).
       rewrite Hold by lia. by rewrite lookup_app_l. }
  injection E as <- <-. split; cbn [images drawn].
  - intros l Hl. rewrite !lookup_app_l by (rewrite ?length_app; lia).
    rewrite Hold by lia. by rewrite lookup_app_l.
  - exists cs. by rewrite PD.
  - exact PN.
  - eexists _, OV. split; [done|]. split; [rewrite !length_app; lia|].
    split; [|split].
    + set (L := (images s2 ++ [R]) ++ [OV]).
      replace (S (length L)) with
        (length (L ++ [Pillow.convert_rgba_image im0]))
        by (rewrite length_app; cbn; lia).
      apply lookup_snoc_new.
    + intros Q x y. cbn.
      assert (Hz : alpha_zero tl) by (apply Hq; [done | apply blank_alpha_zero]).
      destruct (rot_src (im_width tl, im_height tl) (x, y)) as [sx sy].
      unfold getpixel. destruct (inside _ _ sx sy).
      * unfold Pillow.over. by rewrite Hz.
      * done.
    + intros _. split.
      { exists tl. split; [|split; [symmetry; exact Hw | symmetry; exact Hh]].
        do 4 apply lookup_snoc_old. exact Ht. }
      intros x y Hout. cbn. cbn in Hw, Hh. rewrite <- Hw, <- Hh.
      destruct (rot_src (im_width im0, im_height im0) (x, y)) as [sx sy].
      unfold getpixel. rewrite <- Hw, <- Hh, Hout. done.
Qed.

End Modes.

Section Assembly.

Variable rot_src : N * N -> Z * Z -> Z * Z.

Variable blur_px : Z -> image -> Z -> Z -> pixel.

Lemma run_outcome (img : loc) (p : params) (s0 : world) (im0 : image)
    (r : result loc) (s' : world) :
  images s0 !! img = Some im0 ->
  add_watermark_to_image rot_src blur_px img p s0 = (r, s') ->
  outcome rot_src p s0 im0 (canvas (length (images s0)) p)
    (placement (Z.of_N (im_width im0)) (Z.of_N (im_height im0)) p) r s'.
Proof.
  intros Hi E.
  unfold add_watermark_to_image, placement, canvas in *.
  unfold bind at 1 in E. rewrite (size_ok _ _ _ Hi) in E.
  unfold bind at 1 in E. unfold Pillow.new at 1 in E. rewrite alloc_ok in E.
  cbn [fst snd] in E.
  set (n0 := length (images s0)) in *.
  set (w := Z.of_N (im_width im0)) in *.
  set (h := Z.of_N (im_height im0)) in *.
  set (s1 := World _ _) in E.
  assert (Hv : valid_rgba n0 s1).
  { eexists. split; [apply lookup_snoc_new | done]. }
  destruct (text_size (fnt p) (text p)) as [tw th].
  destruct (String.eqb (mode p) "bottom-right") eqn:M1.
  { apply String.eqb_eq in M1. rewrite M1. cbn [String.eqb Ascii.eqb Bool.eqb].
    destruct (paint_spec blur_px n0 (w - tw - margin p, h - th - margin p)
                (text p) (fnt p) (fill_of p) (sty p) s1 Hv) as (s2 & E2 & P2).
    eapply (flat_outcome rot_src img p s0 im0 _ (Ok _) s2); [done | | exact P2 | exact E].
    unfold bind, ret. unfold fill_of, s1 in E2. by rewrite E2. }
  destruct (String.eqb (mode p) "center") eqn:M2.
  { apply String.eqb_eq in M2. rewrite M2. cbn [String.eqb Ascii.eqb Bool.eqb].
    destruct (paint_spec blur_px n0 ((w - tw) / 2, (h - th) / 2)
                (text p) (fnt p) (fill_of p) (sty p) s1 Hv) as (s2 & E2 & P2).
    eapply (flat_outcome rot_src img p s0 im0 _ (Ok _) s2); [done | | exact P2 | exact E].
    unfold bind, ret. unfold fill_of, s1 in E2. by rewrite E2. }
  destruct (String.eqb (mode p) "tile") eqn:M3.
  { apply String.eqb_eq in M3. rewrite M3. cbn [String.eqb Ascii.eqb Bool.eqb].
    destruct (scaled (tw + margin p) (tile_step p).1) as [sx|e] eqn:Sx.
    2: { eapply (flat_outcome rot_src img p s0 im0 _ (Raise e) s1);
           [done | | apply painted_refl | exact E].
         reflexivity. }
    destruct (scaled (th + margin p) (tile_step p).2) as [sy|e] eqn:Sy.
    2: { eapply (flat_outcome rot_src img p s0 im0 _ (Raise e) s1);
           [done | | apply painted_refl | exact E].
         reflexivity. }
    destruct (loops_painted blur_px n0 (text p) (fnt p) (fill_of p) (sty p)
                0 w sx 0 h sy s1 Hv) as (s2 & E2 & P2).
    eapply (flat_outcome rot_src img p s0 im0 _ _ s2); [done | | exact P2 | exact E].
    unfold bind at 1, lift at 1.
    unfold bind at 1, lift at 1.
    unfold bind at 1. unfold fill_of, s1 in E2. rewrite E2.
    by destruct (grid 0 w sx 0 h sy). }
  destruct (String.eqb (mode p) "diagonal-tile") eqn:M4.
  { apply (diag_outcome rot_src blur_px img p s0 im0 tw th r s' Hi E). }
  eapply (flat_outcome rot_src img p s0 im0 _ (Raise _) s1);
    [done | | apply painted_refl | exact E].
  done.
Qed.

End Assembly.

Lemma new_calls_app (s0 s' : world) (cs : list text_call) :
  drawn s' = drawn s0 ++ cs -> new_calls s0 s' = cs.
Proof. intros H. unfold new_calls. rewrite H. by rewrite drop_app_length. Qed.

Lemma range_len_pos (start stop step : Z) :
  0 < step ->
  Z.to_nat (range_len start stop step)
  = Z.to_nat (ceil_div (stop - start) step).
Proof.
  intros Hs. unfold range_len, ceil_div.
  destruct (Z.ltb_spec 0 step); [|lia].
  destruct (Z.ltb_spec start stop).
  - f_equal. replace (stop - start + step - 1) with
      ((stop - start - 1) + 1 * step) by lia.
    rewrite Z.div_add by lia. lia.
  - assert ((stop - start + step - 1) / step <= 0); [|lia].
    apply Z.lt_succ_r. apply Z.div_lt_upper_bound; lia.
Qed.

Lemma py_range_pos (start stop step : Z) :
  0 < step ->
  py_range start stop step
  = Ok (map (fun i => start + Z.of_nat i * step)
            (seq 0 (Z.to_nat (ceil_div (stop - start) step)))).
Proof.
  intros Hs. unfold py_range.
  destruct (Z.eqb_spec step 0); [lia|].
  by rewrite range_len_pos.
Qed.


Lemma flat_map_map {A B C} (f : B -> list C) (g : A -> B) (l : list A) :
  flat_map f (map g l) = flat_map (fun a => f (g a)) l.
Proof. induction l; cbn; congruence. Qed.

Lemma grid_pos (x0 x1 sx y0 y1 sy : Z) :
  0 < sx -> 0 < sy ->
  grid x0 x1 sx y0 y1 sy
  = Ok (lattice x0 sx (Z.to_nat (ceil_div (x1 - x0) sx))
                y0 sy (Z.to_nat (ceil_div (y1 - y0) sy))).
Proof.
  intros Hx Hy. unfold grid, lattice.
  rewrite (py_range_pos y0 y1 sy Hy), (py_range_pos x0 x1 sx Hx).
  set (ny := Z.to_nat (ceil_div (y1 - y0) sy)).
  set (nx := Z.to_nat (ceil_div (x1 - x0) sx)).
  assert (E :
    flat_map (fun yy => map (fun xx => (xx, yy))
                (map (fun i => x0 + Z.of_nat i * sx) (seq 0 nx)))
      (map (fun j => y0 + Z.of_nat j * sy) (seq 0 ny))
    = flat_map (fun j => map (fun i => (x0 + Z.of_nat i * sx,
                                        y0 + Z.of_nat j * sy)) (seq 0 nx))
        (seq 0 ny)).
  { rewrite flat_map_map. apply flat_map_ext. intros j. by rewrite map_map. }
  rewrite <- E.
  destruct (map (fun j => y0 + Z.of_nat j * sy) (seq 0 ny)); reflexivity.
Qed.

Lemma lattice_length x0 sx nx y0 sy ny :
  length (lattice x0 sx nx y0 sy ny) = (ny * nx)%nat.
Proof.
  unfold lattice. generalize 0%nat at 2.
  induction ny as [|ny IH]; intros k; cbn; [done|].
  rewrite length_app, IH, length_map, length_seq. lia.
Qed.

Lemma grid_zero_rows (x0 x1 sx y0 y1 : Z) :
  grid x0 x1 sx y0 y1 0
  = Raise (ValueError "range() arg 3 must not be zero").
Proof. reflexivity. Qed.





Lemma grid_nonzero (x0 x1 sx y0 y1 sy : Z) :
  sx <> 0 -> sy <> 0 -> exists a, grid x0 x1 sx y0 y1 sy = Ok a.
Proof.
  intros Hx Hy. unfold grid, py_range.
  destruct (Z.eqb_spec sy 0); [done|]. destruct (Z.eqb_spec sx 0); [done|].
  destruct (map _ _); eauto.
Qed.

Lemma placement_total (w h : Z) (p : params) :
  valid_mode (mode p) -> nondegenerate p ->
  exists a, placement w h p = Ok a.
Proof.
  unfold valid_mode, nondegenerate, placement.
  destruct (text_size (fnt p) (text p)) as [tw th].
  intros Hm [Ht Hd]. destruct Hm as [-> | [-> | [E | E]]].
  - eauto.
  - eauto.
  - destruct (Ht E) as (sx & sy & -> & -> & Hx & Hy). rewrite E. cbn.
    by apply grid_nonzero.
  - destruct (Hd E) as (step & -> & Hs). rewrite E. cbn.
    by apply grid_nonzero.
Qed.

Section Facts.

Variable rot_src : N * N -> Z * Z -> Z * Z.

Variable blur_px : Z -> image -> Z -> Z -> pixel.

(** A run whose placement succeeds returns. *)
Lemma run_ok (img : loc) (p : params) (s0 : world) (im0 : image)
    (a : list (Z * Z)) :
  images s0 !! img = Some im0 ->
  placement (Z.of_N (im_width im0)) (Z.of_N (im_height im0)) p = Ok a ->
  exists rl s' ov,
    add_watermark_to_image rot_src blur_px img p s0 = (Ok rl, s')
    /\ (length (images s0) <= rl)%nat
    /\ images s' !! rl =
       Some (Pillow.composite_image (Pillow.convert_rgba_image im0) ov)
    /\ (quiet (fill_of p) (sty p) -> alpha_zero ov)
    /\ (canvas (length (images s0)) p = S (length (images s0)) ->
        (exists tl, images s' !! canvas (length (images s0)) p = Some tl
           /\ im_width tl = im_width im0
           /\ im_height tl = im_height im0)
        /\ forall x y,
             (let '(sx, sy) :=
                rot_src (im_width im0, im_height im0) (x, y) in
              inside (im_width im0) (im_height im0) sx sy) = false ->
             im_px ov x y = transparent)
    /\ drawn_on (canvas (length (images s0)) p) (new_calls s0 s') = a
    /\ (a = [] -> new_calls s0 s' = []).
Proof.
  intros Hi Hp.
  destruct (add_watermark_to_image rot_src blur_px img p s0) as [r s'] eqn:E.
  destruct (run_outcome rot_src blur_px img p s0 im0 r s' Hi E)
    as [_ (cs & D & _ & A) N R].
  rewrite Hp in A, N, R. destruct R as (rl & ov & -> & Hl & Hr & Hq & Hg).
  exists rl, s', ov.
  split; [done|]. split; [done|]. split; [done|]. split; [done|].
  split; [done|]. split.
  - by rewrite (new_calls_app _ _ _ D).
  - intros Ha. unfold new_calls. rewrite (N Ha). by rewrite drop_all.
Qed.

(** A run whose placement raises raises the same, having drawn no text. *)
Lemma run_raise (img : loc) (p : params) (s0 : world) (im0 : image)
    (e : exn) :
  images s0 !! img = Some im0 ->
  placement (Z.of_N (im_width im0)) (Z.of_N (im_height im0)) p = Raise e ->
  exists s',
    add_watermark_to_image rot_src blur_px img p s0 = (Raise e, s')
    /\ new_calls s0 s' = [].
Proof.
  intros Hi Hp.
  destruct (add_watermark_to_image rot_src blur_px img p s0) as [r s'] eqn:E.
  destruct (run_outcome rot_src blur_px img p s0 im0 r s' Hi E)
    as [_ _ N R].
  rewrite Hp in N, R. subst r. exists s'. split; [done|].
  unfold new_calls. rewrite (N eq_refl). by rewrite drop_all.
Qed.

Lemma canvas_flat (n0 : nat) (p : params) :
  mode p <> "diagonal-tile"%string -> canvas n0 p = n0.
Proof.
  intros H. unfold canvas.
  destruct (String.eqb_spec (mode p) "diagonal-tile"); done.
Qed.

End Facts.

Lemma placement_corner (w h : Z) (p : params) :
  mode p = "bottom-right"%string ->
  placement w h p
  = Ok [(w - fst (text_size (fnt p) (text p)) - margin p,
         h - snd (text_size (fnt p) (text p)) - margin p)].
Proof.
  intros Hm. unfold placement.
  destruct (text_size (fnt p) (text p)) as [tw th]. by rewrite Hm.
Qed.

Lemma placement_center (w h : Z) (p : params) :
  mode p = "center"%string ->
  placement w h p
  = Ok [((w - fst (text_size (fnt p) (text p))) / 2,
         (h - snd (text_size (fnt p) (text p))) / 2)].
Proof.
  intros Hm. unfold placement.
  destruct (text_size (fnt p) (text p)) as [tw th]. by rewrite Hm.
Qed.

Lemma placement_tile (w h : Z) (p : params) (sx sy : Z) :
  mode p = "tile"%string ->
  scaled (fst (text_size (fnt p) (text p)) + margin p) (fst (tile_step p))
    = Ok sx ->
  scaled (snd (text_size (fnt p) (text p)) + margin p) (snd (tile_step p))
    = Ok sy ->
  placement w h p = grid 0 w sx 0 h sy.
Proof.
  intros Hm. unfold placement.
  destruct (text_size (fnt p) (text p)) as [tw th]. rewrite Hm. cbn.
  by intros -> ->.
Qed.

Lemma placement_diag (w h : Z) (p : params) (step : Z) :
  mode p = "diagonal-tile"%string ->
  scaled (Z.max (fst (text_size (fnt p) (text p)))
                (snd (text_size (fnt p) (text p)))) (diag_step p)
    = Ok step ->
  placement w h p = grid (- w) (w * 2) step (- h) (h * 2) step.
Proof.
  intros Hm. unfold placement.
  destruct (text_size (fnt p) (text p)) as [tw th]. rewrite Hm. cbn.
  by intros ->.
Qed.

Lemma placement_unknown (w h : Z) (p : params) :
  ~ valid_mode (mode p) ->
  placement w h p = Raise (ValueError ("unknown mode: " ++ mode p)).
Proof.
  intros Hm. unfold placement, valid_mode in *.
  destruct (text_size (fnt p) (text p)) as [tw th].
  destruct (String.eqb_spec (mode p) "bottom-right"); [tauto|].
  destruct (String.eqb_spec (mode p) "center"); [tauto|].
  destruct (String.eqb_spec (mode p) "tile"); [tauto|].
  destruct (String.eqb_spec (mode p) "diagonal-tile"); [tauto|].
  reflexivity.
Qed.

Section Contract.

Variable rot_src : N * N -> Z * Z -> Z * Z.

Variable blur_px : Z -> image -> Z -> Z -> pixel.

Lemma run_dangling (img : loc) (p : params) (s0 : world) :
  images s0 !! img = None ->
  add_watermark_to_image rot_src blur_px img p s0 = (Raise dangling, s0).
Proof.
  intros H. unfold add_watermark_to_image, bind at 1, Pillow.size, bind.
  by rewrite (load_dangling _ _ H).
Qed.

(** C4: in the bottom-right mode the text is drawn once, at
    [(W - tw - margin, H - th - margin)], whatever the sign of the
    coordinates. *)
Theorem corner_anchor (img : loc) (p : params) (s0 : world) (im0 : image) :
  images s0 !! img = Some im0 ->
  mode p = "bottom-right"%string ->
  exists r s',
    add_watermark_to_image rot_src blur_px img p s0 = (Ok r, s')
    /\ drawn_on (length (images s0)) (new_calls s0 s')
       = [(Z.of_N (im_width im0) - fst (text_size (fnt p) (text p))
             - margin p,
           Z.of_N (im_height im0) - snd (text_size (fnt p) (text p))
             - margin p)].
Proof.
  intros Hi Hm.
  destruct (run_ok rot_src blur_px img p s0 im0 _ Hi
              (placement_corner _ _ p Hm))
    as (rl & s' & ov & E & _ & _ & _ & _ & A & _).
  exists rl, s'. split; [done|].
  rewrite canvas_flat in A; [done | by rewrite Hm].
Qed.

(** C9: a mode that is none of the four makes the call raise a
    [ValueError] whose message names the mode; no image is returned and no
    text has been drawn. *)
Theorem unknown_mode_raises (img : loc) (p : params) (s0 : world)
    (im0 : image) :
  images s0 !! img = Some im0 ->
  ~ valid_mode (mode p) ->
  exists s',
    add_watermark_to_image rot_src blur_px img p s0
    = (Raise (ValueError ("unknown mode: " ++ mode p)), s')
    /\ new_calls s0 s' = [].
Proof.
  intros Hi Hm.
  apply (run_raise rot_src blur_px img p s0 im0 _ Hi).
  by apply placement_unknown.
Qed.

(** C8: a run leaves every image that existed as it was, the source
    among them, and what it returns is an image that did not exist
    before. *)
Theorem source_untouched (img : loc) (p : params) (s0 : world) :
  let '(r, s') := add_watermark_to_image rot_src blur_px img p s0 in
  (forall l im, images s0 !! l = Some im -> images s' !! l = Some im)
  /\ (forall rl, r = Ok rl ->
        images s0 !! rl = None /\ is_Some (images s' !! rl)).
Proof.
  destruct (images s0 !! img) as [im0|] eqn:Hi.
  - destruct (add_watermark_to_image rot_src blur_px img p s0)
      as [r s'] eqn:E.
    pose proof (run_outcome rot_src blur_px img p s0 im0 r s' Hi E)
      as [O _ _ R].
    split.
    + intros l im Hl. rewrite O; [done | by eapply lookup_lt_Some].
    + intros rl ->.
      destruct (placement _ _ p); [|discriminate].
      destruct R as (rl' & ov & [= <-] & Hl & Hr & _).
      split; [by apply lookup_ge_None_2 | by eexists].
  - rewrite (run_dangling img p s0 Hi). split; [done | discriminate].
Qed.

End Contract.

Section Results.

Variable rot_src : N * N -> Z * Z -> Z * Z.

Variable blur_px : Z -> image -> Z -> Z -> pixel.

(** C5: for a valid mode, every image a call returns has the width and
    height of the source; and the call does return whenever the tiling
    steps, where the mode has any, are computed and not zero, and the
    opacity and the shadow alpha are inks that Pillow takes (from 0 to
    below 2^31). *)
Theorem size_preserved (img : loc) (p : params) (s0 : world) (im0 : image) :
  images s0 !! img = Some im0 ->
  valid_mode (mode p) ->
  (forall r s',
     add_watermark_to_image rot_src blur_px img p s0 = (Ok r, s') ->
     exists res,
       images s' !! r = Some res
       /\ im_width res = im_width im0
       /\ im_height res = im_height im0)
  /\ (nondegenerate p ->
      0 <= opacity p < 2 ^ 31 ->
      0 <= shadow_alpha (sty p) < 2 ^ 31 ->
      exists r s',
        add_watermark_to_image rot_src blur_px img p s0 = (Ok r, s')).
Proof.
  intros Hi Hm. split.
  - intros r s' E.
    destruct (run_outcome rot_src blur_px img p s0 im0 _ _ Hi E)
      as [_ _ _ R].
    destruct (placement _ _ p); [|discriminate R].
    destruct R as (rl & ov & [= <-] & _ & Hr & _).
    by eexists.
  - intros Hn _ _.
    destruct (placement_total (Z.of_N (im_width im0))
                (Z.of_N (im_height im0)) p Hm Hn) as (a & Hp).
    destruct (run_ok rot_src blur_px img p s0 im0 a Hi Hp)
      as (rl & s' & ov & E & _).
    by exists rl, s'.
Qed.

(** C6: for a valid mode, with fill opacity 0 and shadow alpha 0 every
    image a call returns is the source converted to RGBA, pixel for
    pixel; and the call does return whenever the tiling steps, where the
    mode has any, are computed and not zero. *)
Theorem zero_opacity_identity (img : loc) (p : params) (s0 : world)
    (im0 : image) :
  images s0 !! img = Some im0 ->
  valid_mode (mode p) ->
  opacity p = 0 ->
  shadow_alpha (sty p) = 0 ->
  (forall r s',
     add_watermark_to_image rot_src blur_px img p s0 = (Ok r, s') ->
     exists res,
       images s' !! r = Some res
       /\ same_shape res (Pillow.convert_rgba_image im0)
       /\ forall x y,
            im_px res x y = im_px (Pillow.convert_rgba_image im0) x y)
  /\ (nondegenerate p ->
      exists r s',
        add_watermark_to_image rot_src blur_px img p s0 = (Ok r, s')).
Proof.
  intros Hi Hm Ho Ha. split.
  - intros r s' E.
    destruct (run_outcome rot_src blur_px img p s0 im0 _ _ Hi E)
      as [_ _ _ R].
    destruct (placement _ _ p); [|discriminate R].
    destruct R as (rl & ov & [= <-] & _ & Hr & Hq & _).
    eexists. split; [exact Hr|]. split; [done|].
    intros x y. cbn. unfold Pillow.over.
    by rewrite (Hq (conj Ha Ho) x y).
  - intros Hn.
    destruct (placement_total (Z.of_N (im_width im0))
                (Z.of_N (im_height im0)) p Hm Hn) as (a & Hp).
    destruct (run_ok rot_src blur_px img p s0 im0 a Hi Hp)
      as (rl & s' & ov & E & _).
    by exists rl, s'.
Qed.

End Results.

(** C4 at the spec's example: tw = 50, th = 20, margin = 10 on 200 x 100
    gives the anchor (140, 70). *)
Lemma corner_anchor_example :
  images photo !! 0%nat = Some (plain ModeRGB 200 100)
  /\ mode corner_params = "bottom-right"%string
  /\ exists r s',
       add_watermark_to_image rot_none blur_none 0%nat corner_params photo
       = (Ok r, s')
       /\ drawn_on 1%nat (new_calls photo s') = [(140, 70)].
Proof.
  split; [reflexivity|]. split; [reflexivity|].
  exact (corner_anchor rot_none blur_none 0%nat corner_params photo
           (plain ModeRGB 200 100) eq_refl eq_refl).
Defined.

Lemma quiet_tile_nondegenerate : nondegenerate (quiet_params "tile").
Proof.
  unfold nondegenerate. cbn. split.
  - intros _. exists 60, 30. vm_compute. repeat split; discriminate.
  - discriminate.
Qed.

Lemma strip_nondegenerate : nondegenerate strip_params.
Proof.
  unfold nondegenerate. cbn. split.
  - intros _. exists 3, 2. vm_compute. repeat split; discriminate.
  - discriminate.
Qed.

Lemma size_preserved_example :
  images strip !! 0%nat = Some (plain ModeRGB 10 4)
  /\ valid_mode (mode strip_params)
  /\ nondegenerate strip_params
  /\ 0 <= opacity strip_params < 2 ^ 31
  /\ 0 <= shadow_alpha (sty strip_params) < 2 ^ 31
  /\ (forall r s',
        add_watermark_to_image rot_none blur_none 0%nat strip_params strip
        = (Ok r, s') ->
        exists res,
          images s' !! r = Some res
          /\ im_width res = 10%N /\ im_height res = 4%N)
  /\ exists r s',
       add_watermark_to_image rot_none blur_none 0%nat strip_params strip
       = (Ok r, s').
Proof.
  split; [reflexivity|]. split; [right; right; by left|].
  split; [exact strip_nondegenerate|].
  assert (Ho : 0 <= opacity strip_params < 2 ^ 31) by (cbn; lia).
  assert (Ha : 0 <= shadow_alpha (sty strip_params) < 2 ^ 31)
    by (cbn; lia).
  split; [exact Ho|]. split; [exact Ha|].
  exact (conj
           (proj1 (size_preserved rot_none blur_none 0%nat strip_params
                     strip (plain ModeRGB 10 4) eq_refl
                     (or_intror (or_intror (or_introl eq_refl)))))
           (proj2 (size_preserved rot_none blur_none 0%nat strip_params
                     strip (plain ModeRGB 10 4) eq_refl
                     (or_intror (or_intror (or_introl eq_refl))))
              strip_nondegenerate Ho Ha)).
Defined.

Lemma bind_ext {A B} (c : M A) (k k' : A -> M B) (s : world) :
  (forall a s1, k a s1 = k' a s1) -> bind c k s = bind c k' s.
Proof. intros H. unfold bind. destruct (c s) as [[a|e] s1]; [apply H | done]. Qed.

Lemma bind_ext_l {A B} (c c' : M A) (k : A -> M B) (s : world) :
  c s = c' s -> bind c k s = bind c' k s.
Proof. intros H. unfold bind. by rewrite H. Qed.

Lemma for_each_ext {A} (xs : list A) (f g : A -> M unit) :
  (forall x s, f x s = g x s) -> forall s, for_each xs f s = for_each xs g s.
Proof.
  intros H. induction xs as [|x xs IH]; intros s; [done|].
  cbn. unfold bind. rewrite H. destruct (g x s) as [[[]|e] s1]; [apply IH | done].
Qed.

Lemma for_range_ext (a b c : Z) (f g : Z -> M unit) :
  (forall x s, f x s = g x s) ->
  forall s, for_range a b c f s = for_range a b c g s.
Proof.
  intros H s. unfold for_range. apply bind_ext. intros xs s1.
  by apply for_each_ext.
Qed.

Section Shadow.

Variable rot_src : N * N -> Z * Z -> Z * Z.

Variable blur_px : Z -> image -> Z -> Z -> pixel.

Lemma paint_zero_offset base pos txt f fill sw a b s :
  paint_shadowed_text blur_px base pos txt f fill (Style sw (0, 0) a b) s
  = paint_shadowed_text blur_px base pos txt f fill (Style sw (0, 0) 0 b) s.
Proof.
  destruct pos as [x y]. unfold paint_shadowed_text.
  cbn [shadow_alpha shadow_offset stroke_width shadow_blur].
  change (pair_eqb (0, 0) (0, 0)) with true. cbn [negb].
  rewrite !andb_false_r. reflexivity.
Qed.

(** C7: with the shadow offset (0, 0) the shadow alpha has no effect:
    a renderer call and a whole run with any shadow alpha (200, say) end as
    they do with shadow alpha 0. *)
Theorem zero_offset_no_shadow (img : loc) (txt : string) (f : font)
    (m : string) (op mg sw a b : Z)
    (ts : PyFloat.float * PyFloat.float) (ds : PyFloat.float) (s0 : world) :
  (forall base pos fill s,
     paint_shadowed_text blur_px base pos txt f fill (Style sw (0, 0) a b) s
     = paint_shadowed_text blur_px base pos txt f fill
         (Style sw (0, 0) 0 b) s)
  /\ add_watermark_to_image rot_src blur_px img
       (Params txt f m op mg (Style sw (0, 0) a b) ts ds) s0
     = add_watermark_to_image rot_src blur_px img
         (Params txt f m op mg (Style sw (0, 0) 0 b) ts ds) s0.
Proof.
  split; [intros; apply paint_zero_offset|].
  unfold add_watermark_to_image.
  cbn [text fnt mode opacity margin sty tile_step diag_step].
  apply bind_ext. intros sz s1. apply bind_ext. intros ov s2.
  destruct (text_size f txt) as [tw th].
  apply bind_ext_l.
  destruct (String.eqb m "bottom-right").
  { apply bind_ext_l. apply paint_zero_offset. }
  destruct (String.eqb m "center").
  { apply bind_ext_l. apply paint_zero_offset. }
  destruct (String.eqb m "tile").
  { apply bind_ext. intros sx s3. apply bind_ext. intros sy s4.
    apply bind_ext_l. apply for_range_ext. intros yy s5.
    apply for_range_ext. intros xx s6. apply paint_zero_offset. }
  destruct (String.eqb m "diagonal-tile"); [|done].
  apply bind_ext. intros tl s3. apply bind_ext. intros step s4.
  apply bind_ext_l. apply for_range_ext. intros yy s5.
  apply for_range_ext. intros xx s6. apply paint_zero_offset.
Qed.

End Shadow.

Lemma ceil_div_nonneg (a b : Z) : 0 <= a -> 0 < b -> 0 <= ceil_div a b.
Proof. intros Ha Hb. unfold ceil_div. apply Z.div_pos; lia. Qed.

Lemma ceil_div_pos (a b : Z) : 0 < a -> 0 < b -> 0 < ceil_div a b.
Proof. intros Ha Hb. unfold ceil_div. apply Z.div_str_pos. lia. Qed.

Lemma lattice_head x0 sx nx y0 sy ny :
  (0 < nx)%nat -> (0 < ny)%nat ->
  head (lattice x0 sx nx y0 sy ny) = Some (x0, y0).
Proof.
  intros Hx Hy. destruct nx as [|nx]; [lia|]. destruct ny as [|ny]; [lia|].
  unfold lattice. cbn. f_equal. f_equal; lia.
Qed.

Lemma ceil_div_bound (a b i : Z) :
  0 < b -> i < ceil_div a b -> i * b < a.
Proof.
  intros Hb Hi. unfold ceil_div in Hi.
  pose proof (Z.mul_div_le (a + b - 1) b Hb). nia.
Qed.

Lemma lattice_within (x0 sx x1 y0 sy y1 : Z) :
  0 < sx -> 0 < sy ->
  List.Forall (fun xy => x0 <= fst xy < x1 /\ y0 <= snd xy < y1)
    (lattice x0 sx (Z.to_nat (ceil_div (x1 - x0) sx))
             y0 sy (Z.to_nat (ceil_div (y1 - y0) sy))).
Proof.
  intros Hx Hy. apply List.Forall_forall. intros [x y] Hin.
  unfold lattice in Hin. apply in_flat_map in Hin as (j & Hj & Hin).
  apply in_map_iff in Hin as (i & [= <- <-] & Hi).
  apply in_seq in Hi, Hj. cbn [fst snd].
  pose proof (ceil_div_bound (x1 - x0) sx (Z.of_nat i) Hx).
  pose proof (ceil_div_bound (y1 - y0) sy (Z.of_nat j) Hy).
  split; split; nia.
Qed.

Section Tiling.

Variable rot_src : N * N -> Z * Z -> Z * Z.

Variable blur_px : Z -> image -> Z -> Z -> pixel.

(** C1, amended: in the tile mode, when the steps [int((tw + margin) *
    tileStepX)] and [int((th + margin) * tileStepY)], truncated toward
    zero, are positive, the text is drawn on the overlay at the regular
    grid of these steps from (0, 0), row by row while y < H and x < W:
    all anchors are inside the image, there are ceil(H/sy) * ceil(W/sx) of
    them, and the first one is (0, 0). *)
Theorem tile_anchors (img : loc) (p : params) (s0 : world) (im0 : image)
    (sx sy : Z) :
  images s0 !! img = Some im0 ->
  mode p = "tile"%string ->
  scaled (fst (text_size (fnt p) (text p)) + margin p) (fst (tile_step p))
    = Ok sx ->
  scaled (snd (text_size (fnt p) (text p)) + margin p) (snd (tile_step p))
    = Ok sy ->
  0 < sx -> 0 < sy ->
  let w := Z.of_N (im_width im0) in
  let h := Z.of_N (im_height im0) in
  exists r s',
    add_watermark_to_image rot_src blur_px img p s0 = (Ok r, s')
    /\ drawn_on (length (images s0)) (new_calls s0 s')
       = lattice 0 sx (Z.to_nat (ceil_div w sx)) 0 sy (Z.to_nat (ceil_div h sy))
    /\ List.Forall (fun xy => 0 <= fst xy < w /\ 0 <= snd xy < h)
         (drawn_on (length (images s0)) (new_calls s0 s'))
    /\ Z.of_nat (length (drawn_on (length (images s0)) (new_calls s0 s')))
       = ceil_div h sy * ceil_div w sx
    /\ (0 < w -> 0 < h ->
        head (drawn_on (length (images s0)) (new_calls s0 s')) = Some (0, 0)).
Proof.
  intros Hi Hm Hx Hy Px Py w h.
  assert (Hp : placement w h p
               = Ok (lattice 0 sx (Z.to_nat (ceil_div w sx))
                             0 sy (Z.to_nat (ceil_div h sy)))).
  { rewrite (placement_tile w h p sx sy Hm Hx Hy), grid_pos by done.
    by rewrite !Z.sub_0_r. }
  destruct (run_ok rot_src blur_px img p s0 im0 _ Hi Hp)
    as (rl & s' & ov & E & _ & _ & _ & _ & A & _).
  rewrite canvas_flat in A by (by rewrite Hm).
  exists rl, s'. split; [done|]. rewrite A. split; [done|].
  assert (0 <= w) by (unfold w; lia). assert (0 <= h) by (unfold h; lia).
  pose proof (ceil_div_nonneg w sx). pose proof (ceil_div_nonneg h sy).
  split; [|split].
  - pose proof (lattice_within 0 sx w 0 sy h Px Py) as F.
    by rewrite !Z.sub_0_r in F.
  - rewrite lattice_length. lia.
  - intros Hw Hh. pose proof (ceil_div_pos w sx Hw Px).
    pose proof (ceil_div_pos h sy Hh Py).
    apply lattice_head; lia.
Qed.


End Tiling.

(** C1 as stated fails: the step is truncated, not rounded.  Here the
    horizontal product is 3.75: the anchors are 3 apart, eight in all,
    where rounding would put them 4 apart, six in all. *)
Lemma tile_step_is_truncated :
  spec_tile_anchors 10 4 strip_params
  = Ok [(0, 0); (4, 0); (8, 0); (0, 2); (4, 2); (8, 2)]
  /\ exists r s',
       add_watermark_to_image rot_none blur_none 0%nat strip_params strip
       = (Ok r, s')
       /\ drawn_on 1%nat (new_calls strip s')
          = [(0, 0); (3, 0); (6, 0); (9, 0); (0, 2); (3, 2); (6, 2); (9, 2)].
Proof.
  split; [vm_compute; reflexivity|].
  assert (Hp : placement 10 4 strip_params
               = Ok [(0, 0); (3, 0); (6, 0); (9, 0);
                     (0, 2); (3, 2); (6, 2); (9, 2)])
    by (vm_compute; reflexivity).
  destruct (run_ok rot_none blur_none 0%nat strip_params strip
              (plain ModeRGB 10 4) _ eq_refl Hp)
    as (rl & s' & ov & E & _ & _ & _ & _ & A & _).
  exists rl, s'. split; [exact E | exact A].
Qed.


Lemma tile_anchors_example :
  images strip !! 0%nat = Some (plain ModeRGB 10 4)
  /\ mode strip_params = "tile"%string
  /\ scaled (2 + 1) (PyFloat.lit 5 (-2)) = Ok 3
  /\ scaled (1 + 1) one = Ok 2
  /\ exists r s',
       add_watermark_to_image rot_none blur_none 0%nat strip_params strip
       = (Ok r, s')
       /\ drawn_on 1%nat (new_calls strip s')
          = [(0, 0); (3, 0); (6, 0); (9, 0); (0, 2); (3, 2); (6, 2); (9, 2)]
       /\ List.Forall (fun xy => 0 <= fst xy < 10 /\ 0 <= snd xy < 4)
            (drawn_on 1%nat (new_calls strip s'))
       /\ Z.of_nat (length (drawn_on 1%nat (new_calls strip s'))) = 2 * 4
       /\ (0 < 10 -> 0 < 4 ->
           head (drawn_on 1%nat (new_calls strip s')) = Some (0, 0)).
Proof.
  split; [reflexivity|]. split; [reflexivity|].
  split; [vm_compute; reflexivity|]. split; [vm_compute; reflexivity|].
  exact (tile_anchors rot_none blur_none 0%nat strip_params strip
           (plain ModeRGB 10 4) 3 2 eq_refl eq_refl
           (eq_refl (Ok 3)) (eq_refl (Ok 2)) eq_refl eq_refl).
Defined.

Section Diagonal.

Variable rot_src : N * N -> Z * Z -> Z * Z.

Variable blur_px : Z -> image -> Z -> Z -> pixel.

(** What the diagonal mode does with a positive step: the working layer
    has the size of the image; the text is drawn onto it at the grid of
    that step from (-W, -H), all of it within [-W, 2W) x [-H, 2H); and an
    output pixel that the rotation samples from outside the layer gets no
    watermark: it is the pixel of the converted source.  The anchors reach
    a full image beyond every edge, but what is drawn beyond the edges of
    the layer is lost before the rotation. *)
Theorem diagonal_layer (img : loc) (p : params) (s0 : world) (im0 : image)
    (step : Z) :
  images s0 !! img = Some im0 ->
  mode p = "diagonal-tile"%string ->
  scaled (Z.max (fst (text_size (fnt p) (text p)))
                (snd (text_size (fnt p) (text p)))) (diag_step p)
    = Ok step ->
  0 < step ->
  let w := Z.of_N (im_width im0) in
  let h := Z.of_N (im_height im0) in
  let layer := S (length (images s0)) in
  exists r s' res tl,
    add_watermark_to_image rot_src blur_px img p s0 = (Ok r, s')
    /\ images s' !! r = Some res
    /\ images s' !! layer = Some tl
    /\ im_width tl = im_width im0 /\ im_height tl = im_height im0
    /\ drawn_on layer (new_calls s0 s')
       = lattice (- w) step (Z.to_nat (ceil_div (3 * w) step))
                 (- h) step (Z.to_nat (ceil_div (3 * h) step))
    /\ List.Forall (fun xy => - w <= fst xy < 2 * w /\ - h <= snd xy < 2 * h)
         (drawn_on layer (new_calls s0 s'))
    /\ (forall x y,
          (let '(sx, sy) :=
             rot_src (im_width im0, im_height im0) (x, y) in
           inside (im_width im0) (im_height im0) sx sy) = false ->
          im_px res x y = im_px (Pillow.convert_rgba_image im0) x y).
Proof.
  intros Hi Hm Hs Ps w h layer.
  assert (Hc : canvas (length (images s0)) p = layer).
  { unfold canvas. by rewrite Hm. }
  assert (Hp : placement w h p
               = Ok (lattice (- w) step (Z.to_nat (ceil_div (3 * w) step))
                             (- h) step (Z.to_nat (ceil_div (3 * h) step)))).
  { rewrite (placement_diag w h p step Hm Hs), grid_pos by done.
    by replace (w * 2 - - w) with (3 * w) by lia;
       replace (h * 2 - - h) with (3 * h) by lia. }
  destruct (run_ok rot_src blur_px img p s0 im0 _ Hi Hp)
    as (rl & s' & ov & E & _ & Hr & _ & Hg & A & _).
  rewrite Hc in Hg, A.
  destruct (Hg eq_refl) as ((tl & Ht & Hw & Hh) & Gap).
  exists rl, s', (Pillow.composite_image (Pillow.convert_rgba_image im0) ov), tl.
  split; [exact E|]. split; [exact Hr|]. split; [exact Ht|].
  split; [exact Hw|]. split; [exact Hh|]. split; [exact A|]. split.
  - rewrite A.
    pose proof (lattice_within (- w) step (2 * w) (- h) step (2 * h) Ps Ps)
      as F.
    by replace (2 * w - - w) with (3 * w) in F by lia;
       replace (2 * h - - h) with (3 * h) in F by lia.
  - intros x y Hout. cbn. by rewrite (Gap x y Hout).
Qed.

End Diagonal.

(** C3, the code at an 8 x 8 image with a text of 2 x 2 at step 2: every
    pixel of the working layer is covered and the centre of the output
    carries the watermark, yet the corner (0, 0) of the output is the bare
    source: the rotation has nothing to sample there, so the canvas is
    not covered to its corners. *)
Lemma diagonal_corner_gap :
  match add_watermark_to_image rot45_src blur_none 0%nat
          solid_diag_params tile8 with
  | (Ok r, s') =>
      match images s' !! r, images s' !! 2%nat with
      | Some res, Some layer =>
          forallb (fun xy => pa (getpixel layer (fst xy) (snd xy)) =? 255)
                  (pixels 8 8) = true
          /\ getpixel res 4 4 = Px 255 255 255 255
          /\ getpixel res 0 0 = Px 10 20 30 255
      | _, _ => False
      end
  | _ => False
  end.
Proof. vm_compute. repeat split. Qed.

Lemma diagonal_layer_example :
  images tile8 !! 0%nat = Some (plain ModeRGB 8 8)
  /\ mode solid_diag_params = "diagonal-tile"%string
  /\ scaled (Z.max 2 2) one = Ok 2
  /\ 0 < 2
  /\ exists r s' res tl,
       add_watermark_to_image rot45_src blur_none 0%nat solid_diag_params
         tile8 = (Ok r, s')
       /\ images s' !! r = Some res
       /\ images s' !! 2%nat = Some tl
       /\ im_width tl = 8%N /\ im_height tl = 8%N
       /\ drawn_on 2%nat (new_calls tile8 s')
          = lattice (- 8) 2 12 (- 8) 2 12
       /\ List.Forall (fun xy => - 8 <= fst xy < 2 * 8
                                 /\ - 8 <= snd xy < 2 * 8)
            (drawn_on 2%nat (new_calls tile8 s'))
       /\ (forall x y,
             (let '(sx, sy) := rot45_src (8%N, 8%N) (x, y) in
              inside 8 8 sx sy) = false ->
             im_px res x y
             = im_px (Pillow.convert_rgba_image (plain ModeRGB 8 8)) x y).
Proof.
  split; [reflexivity|]. split; [reflexivity|].
  split; [vm_compute; reflexivity|]. split; [lia|].
  exact (diagonal_layer rot45_src blur_none 0%nat solid_diag_params tile8
           (plain ModeRGB 8 8) 2 eq_refl eq_refl (eq_refl (Ok 2)) eq_refl).
Defined.

Lemma zero_opacity_identity_example :
  images photo !! 0%nat = Some (plain ModeRGB 200 100)
  /\ valid_mode (mode (quiet_params "tile"))
  /\ opacity (quiet_params "tile") = 0
  /\ shadow_alpha (sty (quiet_params "tile")) = 0
  /\ nondegenerate (quiet_params "tile")
  /\ (forall r s',
        add_watermark_to_image rot_none blur_none 0%nat
          (quiet_params "tile") photo = (Ok r, s') ->
        exists res,
          images s' !! r = Some res
          /\ same_shape res
               (Pillow.convert_rgba_image (plain ModeRGB 200 100))
          /\ forall x y,
               im_px res x y
               = im_px (Pillow.convert_rgba_image (plain ModeRGB 200 100))
                   x y)
  /\ exists r s',
       add_watermark_to_image rot_none blur_none 0%nat
         (quiet_params "tile") photo = (Ok r, s').
Proof.
  split; [reflexivity|]. split; [right; right; by left|].
  split; [reflexivity|]. split; [reflexivity|].
  split; [exact quiet_tile_nondegenerate|].
  exact (conj
           (proj1 (zero_opacity_identity rot_none blur_none 0%nat
                     (quiet_params "tile") photo (plain ModeRGB 200 100)
                     eq_refl (or_intror (or_intror (or_introl eq_refl)))
                     eq_refl eq_refl))
           (proj2 (zero_opacity_identity rot_none blur_none 0%nat
                     (quiet_params "tile") photo (plain ModeRGB 200 100)
                     eq_refl (or_intror (or_intror (or_introl eq_refl)))
                     eq_refl eq_refl)
              quiet_tile_nondegenerate)).
Defined.

Lemma spiral_invalid : ~ valid_mode (mode spiral_params).
Proof. intros [H | [H | [H | H]]]; discriminate H. Defined.

Lemma unknown_mode_example :
  images photo !! 0%nat = Some (plain ModeRGB 200 100)
  /\ ~ valid_mode (mode spiral_params)
  /\ exists s',
       add_watermark_to_image rot_none blur_none 0%nat spiral_params photo
       = (Raise (ValueError "unknown mode: spiral"), s')
       /\ new_calls photo s' = [].
Proof.
  split; [reflexivity|]. split; [exact spiral_invalid|].
  exact (unknown_mode_raises rot_none blur_none 0%nat spiral_params photo
           (plain ModeRGB 200 100) eq_refl spiral_invalid).
Defined.

Lemma source_untouched_example :
  images photo !! 0%nat = Some (plain ModeRGB 200 100)
  /\ images (snd (add_watermark_to_image rot_none blur_none 0%nat
                    corner_params photo)) !! 0%nat
     = Some (plain ModeRGB 200 100).
Proof.
  split; [reflexivity|].
  pose proof (source_untouched rot_none blur_none 0%nat corner_params photo)
    as H.
  destruct (add_watermark_to_image rot_none blur_none 0%nat corner_params
              photo) as [r s'].
  exact (proj1 H 0%nat (plain ModeRGB 200 100) eq_refl).
Defined.


(* ===================================================================== *)
(** ** Further properties of the renderer and the compositor *)
(* ===================================================================== *)

Section PaintExact.

Variable blur_px : Z -> image -> Z -> Z -> pixel.

Lemma paint_exact base pos txt f fill st s im :
  images s !! base = Some im -> im_mode im = ModeRGBA ->
  exists s',
    paint_shadowed_text blur_px base pos txt f fill st s = (Ok tt, s')
    /\ images s' !! base = Some (painted_image blur_px f txt pos fill st im)
    /\ drawn s' = drawn s
                  ++ paint_calls (length (images s)) base txt pos fill st
    /\ length (images s') = (length (images s) + paint_allocs st)%nat
    /\ (forall l, (l < length (images s))%nat -> l <> base ->
        images s' !! l = images s !! l).
Proof.
  intros Hb Hm. destruct pos as [x y].
  pose proof (lookup_lt_Some _ _ _ Hb) as Hlt.
  unfold paint_shadowed_text, painted_image, paint_calls, paint_allocs,
    shadow_image, shadow_on.
  cbn [fst snd].
  destruct (negb (shadow_alpha st =? 0)
            && negb (pair_eqb (shadow_offset st) (0, 0))).
  - unfold bind at 1. unfold bind at 1. rewrite (size_ok _ _ _ Hb).
    unfold bind at 1. unfold Pillow.new. rewrite alloc_ok.
    set (n := length (images s)).
    set (L0 := Pillow.blank _).
    unfold bind at 1.
    erewrite text_ok by (cbn; apply lookup_snoc_new).
    cbn [images drawn].
    set (X := Pillow.text_image _ _ _ _ _ _ L0).
    set (c := TextCall n _ _ _ _ _).
    assert (HX : im_mode X = ModeRGBA).
    { destruct (text_image_shape f txt
                  (x + (shadow_offset st).1, y + (shadow_offset st).2)
                  (0, 0, 0, shadow_alpha st) (stroke_width st)
                  (0, 0, 0, shadow_alpha st) L0) as (E & _).
      fold X in E. by rewrite <- E. }
    assert (Hn : (<[n:=X]> (images s ++ [L0])) !! n = Some X).
    { apply list_lookup_insert_eq. rewrite length_app. cbn. lia. }
    assert (Hbase : (<[n:=X]> (images s ++ [L0])) !! base = Some im).
    { rewrite list_lookup_insert_ne by lia. by apply lookup_snoc_old. }
    destruct (0 <? shadow_blur st).
    + unfold bind at 1. erewrite blur_ok by (cbn; exact Hn).
      cbn [images drawn].
      set (B := Pillow.blur_image _ _ _).
      erewrite into_ok; cbn [images drawn];
        [ | by apply lookup_snoc_old | apply lookup_snoc_new | done | done ].
      erewrite text_ok; cbn [images drawn].
      2: { apply list_lookup_insert_eq.
           rewrite length_app, length_insert, length_app. lia. }
      eexists. split; [reflexivity|]. cbn [images drawn].
      split; [|split; [|split]].
      * rewrite list_insert_insert_eq. apply list_lookup_insert_eq.
        rewrite length_app, length_insert, length_app. lia.
      * by rewrite <- app_assoc.
      * rewrite !length_insert, length_app, length_insert, length_app.
        cbn. lia.
      * intros l Hl Hne. rewrite !list_lookup_insert_ne by done.
        rewrite lookup_app_l by (rewrite length_insert, length_app; lia).
        rewrite list_lookup_insert_ne by lia. by rewrite lookup_app_l by lia.
    + unfold bind at 1, ret at 1.
      erewrite into_ok; cbn [images drawn];
        [ | exact Hbase | exact Hn | done | done ].
      erewrite text_ok; cbn [images drawn].
      2: { apply list_lookup_insert_eq.
           rewrite length_insert, length_app. lia. }
      eexists. split; [reflexivity|]. cbn [images drawn].
      split; [|split; [|split]].
      * rewrite list_insert_insert_eq. apply list_lookup_insert_eq.
        rewrite length_insert, length_app. lia.
      * by rewrite <- app_assoc.
      * rewrite !length_insert, length_app. cbn. lia.
      * intros l Hl Hne. rewrite !list_lookup_insert_ne by done.
        rewrite list_lookup_insert_ne by lia. by rewrite lookup_app_l by lia.
  - unfold bind, ret. rewrite (text_ok _ _ _ _ _ _ _ _ _ Hb).
    eexists. split; [reflexivity|]. cbn [images drawn].
    split; [|split; [|split]].
    + by apply list_lookup_insert_eq.
    + done.
    + rewrite length_insert. lia.
    + intros l Hl Hne. by rewrite list_lookup_insert_ne.
Qed.

End PaintExact.

Lemma painted_image_shape blur_px f txt pos fill st im :
  same_shape im (painted_image blur_px f txt pos fill st im).
Proof.
  unfold painted_image.
  destruct (text_image_shape f txt pos fill (stroke_width st) fill
              (if shadow_on st
               then Pillow.composite_into_image im
                      (shadow_image blur_px f txt pos st im)
               else im)) as (Hm & Hw & Hh).
  unfold same_shape. rewrite <- Hm, <- Hw, <- Hh.
  by destruct (shadow_on st).
Qed.

Section SingleAnchor.

Variable rot_src : N * N -> Z * Z -> Z * Z.
Variable blur_px : Z -> image -> Z -> Z -> pixel.

(** In the modes that draw once, the run is the converted source under a
    blank overlay painted once. *)
Lemma single_run_exact (img : loc) (p : params) (s0 : world) (im0 : image) :
  images s0 !! img = Some im0 ->
  single_mode (mode p) ->
  let sz := (im_width im0, im_height im0) in
  let anchor := single_anchor (Z.of_N (im_width im0))
                              (Z.of_N (im_height im0)) p in
  exists r s',
    add_watermark_to_image rot_src blur_px img p s0 = (Ok r, s')
    /\ images s' !! r
       = Some (Pillow.composite_image (Pillow.convert_rgba_image im0)
                 (painted_image blur_px (fnt p) (text p) anchor
                    (fill_of p) (sty p) (Pillow.blank sz)))
    /\ drawn s' = drawn s0
                  ++ paint_calls (S (length (images s0))) (length (images s0))
                       (text p) anchor (fill_of p) (sty p)
    /\ length (images s')
       = (length (images s0) + 3 + paint_allocs (sty p))%nat.
Proof.
  intros Hi Hm sz anchor.
  pose proof (lookup_lt_Some _ _ _ Hi) as Hlt.
  set (n0 := length (images s0)) in *.
  set (s1 := World (images s0 ++ [Pillow.blank sz]) (drawn s0)).
  assert (Hov : images s1 !! n0 = Some (Pillow.blank sz))
    by apply lookup_snoc_new.
  destruct (paint_exact blur_px n0 anchor (text p) (fnt p) (fill_of p)
              (sty p) s1 (Pillow.blank sz) Hov eq_refl)
    as (s2 & E2 & Hb & Hd & Hl & Hf).
  assert (Hlen1 : length (images s1) = S n0).
  { cbn. rewrite length_app. cbn. unfold n0. lia. }
  rewrite Hlen1 in Hd, Hl.
  assert (Hi2 : images s2 !! img = Some im0).
  { rewrite Hf by lia. by apply lookup_snoc_old. }
  assert (Hrun : add_watermark_to_image rot_src blur_px img p s0
                 = (converted <- Pillow.convert_rgba img ;;
                    Pillow.alpha_composite converted n0) s2).
  { unfold add_watermark_to_image. unfold bind at 1.
    rewrite (size_ok _ _ _ Hi). unfold bind at 1. unfold Pillow.new at 1.
    rewrite alloc_ok. cbn [fst snd]. fold n0 sz s1.
    unfold anchor, single_anchor, fill_of in E2.
    destruct (text_size (fnt p) (text p)) as [tw th].
    destruct Hm as [Hm | Hm]; rewrite Hm in E2 |- *;
      cbn [String.eqb Ascii.eqb Bool.eqb] in E2 |- *;
      unfold bind at 1; unfold bind at 1; rewrite E2; reflexivity. }
  rewrite Hrun.
  destruct (painted_image_shape blur_px (fnt p) (text p) anchor (fill_of p)
              (sty p) (Pillow.blank sz)) as (Sm & Sw & Sh).
  rewrite (finish_ok img n0 s2 im0 _ Hi2 Hb);
    [ | by rewrite <- Sm | by rewrite <- Sw | by rewrite <- Sh ].
  eexists _, _. split; [reflexivity|]. cbn [images drawn].
  split; [|split].
  - replace (S (length (images s2))) with
      (length (images s2 ++ [Pillow.convert_rgba_image im0]))
      by (rewrite length_app; cbn; lia).
    apply lookup_snoc_new.
  - exact Hd.
  - rewrite !length_app, Hl. cbn. lia.
Qed.

End SingleAnchor.

Lemma fill_mask_zero (b : bool) (ink : pixel) :
  Pillow.fill_mask b 0 ink transparent = transparent.
Proof.
  unfold Pillow.fill_mask, Pillow.blend, transparent. cbn [pr pg pb pa].
  destruct b; cbn [andb negb Z.eqb]; by rewrite !Z.mul_0_r.
Qed.

Lemma text_pass_clear f txt xy sw ink im x y :
  covers f txt sw (x - fst xy) (y - snd xy) = false ->
  im_px im x y = transparent ->
  im_px (Pillow.text_pass f txt xy sw ink im) x y = transparent.
Proof.
  unfold covers. intros Hc Hp. apply negb_false_iff, Z.eqb_eq in Hc.
  cbn. rewrite Hc, Hp. apply fill_mask_zero.
Qed.

Lemma text_image_clear f txt pos fill sw sfill im x y :
  touches f txt sw pos x y = false ->
  im_px im x y = transparent ->
  im_px (Pillow.text_image f txt pos fill sw sfill im) x y = transparent.
Proof.
  unfold touches. intros Ht Hp. apply orb_false_iff in Ht as [H0 Hs].
  unfold Pillow.text_image. apply text_pass_clear; [done|].
  destruct (sw =? 0); [done|]. cbn in Hs. by apply text_pass_clear.
Qed.

Lemma painted_image_clear blur_px f txt pos fill st im x y :
  touches f txt (stroke_width st) pos x y = false ->
  (shadow_on st = true ->
   shadow_blur st <= 0
   /\ touches f txt (stroke_width st) (shadow_pos pos st) x y = false) ->
  im_px im x y = transparent ->
  im_px (painted_image blur_px f txt pos fill st im) x y = transparent.
Proof.
  intros Hb Hs Hp. unfold painted_image.
  apply text_image_clear; [done|].
  destruct (shadow_on st); [|done].
  destruct (Hs eq_refl) as [Hblur Hsh].
  unfold shadow_image. destruct (Z.ltb_spec 0 (shadow_blur st)); [lia|].
  cbn [Pillow.composite_into_image im_px].
  assert (Ht : im_px (Pillow.text_image f txt
                        (pos.1 + (shadow_offset st).1,
                         pos.2 + (shadow_offset st).2)
                        (0, 0, 0, shadow_alpha st) (stroke_width st)
                        (0, 0, 0, shadow_alpha st)
                        (Pillow.blank (im_width im, im_height im))) x y
               = transparent).
  { by apply text_image_clear. }
  rewrite Ht, Hp. by destruct (inside _ _ x y).
Qed.

Lemma over_clear (d : pixel) : Pillow.over d transparent = d.
Proof. reflexivity. Qed.

Lemma over_white (d : pixel) :
  Pillow.over d (Px 255 255 255 255) = Px 255 255 255 255.
Proof.
  unfold Pillow.over. cbn [pa pr pg pb Z.eqb Z.sub Z.opp Z.add Z.pos_sub].
  rewrite !Z.mul_0_r. reflexivity.
Qed.

Lemma text_pass_full f txt xy ink im x y :
  Pillow.clip8 (font_mask f txt 0 (x - fst xy) (y - snd xy)) = 255 ->
  0 <= pr ink <= 255 -> 0 <= pg ink <= 255 -> 0 <= pb ink <= 255 ->
  0 <= pa ink <= 255 ->
  im_px (Pillow.text_pass f txt xy 0 ink im) x y = ink.
Proof.
  intros Hm Hr Hg Hb Ha. cbn. rewrite Hm.
  unfold Pillow.fill_mask, Pillow.blend.
  replace (if band_mode_eqb (im_mode im) ModeRGBA && negb (255 =? 0)
              && (pa (im_px im x y) =? 0) then 255 else 255) with 255
    by (by destruct (_ && _ && _)).
  replace (255 - 255) with 0 by lia. rewrite !Z.mul_0_r, !Z.add_0_l.
  assert (D : forall v, 0 <= v <= 255 -> Pillow.div255 (v * 255) = v).
  { intros v Hv. unfold Pillow.div255. rewrite !Z.shiftr_div_pow2 by lia.
    change (2 ^ 8) with 256.
    symmetry.
    apply Z.div_unique with (r := ((v * 255 + 128) / 256 + (v * 255 + 128))
                                   - 256 * v); [left|lia].
    pose proof (Z.div_mod (v * 255 + 128) 256 ltac:(lia)).
    pose proof (Z.mod_pos_bound (v * 255 + 128) 256 ltac:(lia)). lia. }
  rewrite !D by done. by destruct ink.
Qed.

Lemma scaled_error (n : Z) (f : PyFloat.float) (e : exn) :
  scaled n f = Raise e -> step_error e.
Proof.
  unfold scaled, PyFloat.int_mul, PyFloat.of_int, step_error.
  destruct (binary_normalize PyFloat.prec PyFloat.emax n 0 false) as [|b| |b m x];
    try (intros [= <-]; by left);
    (match goal with
     | |- PyFloat.to_int ?v = _ -> _ => destruct v
     end; cbn; intros [= <-]; auto).
Qed.

Lemma scaled_nonfinite (n : Z) (f : PyFloat.float) :
  is_finite f = false -> exists e, scaled n f = Raise e.
Proof.
  unfold scaled, PyFloat.int_mul, PyFloat.of_int.
  destruct (binary_normalize PyFloat.prec PyFloat.emax n 0 false);
    destruct f; try discriminate; cbn; eauto.
Qed.

Lemma paint_blur_unused blur1 blur2 base pos txt f fill st s :
  shadow_on st = false \/ shadow_blur st <= 0 ->
  paint_shadowed_text blur1 base pos txt f fill st s
  = paint_shadowed_text blur2 base pos txt f fill st s.
Proof.
  intros H. destruct pos as [x y]. unfold paint_shadowed_text.
  fold (shadow_on st).
  destruct H as [H | H].
  - by rewrite H.
  - destruct (Z.ltb_spec 0 (shadow_blur st)); [lia | reflexivity].
Qed.

Section CoreExtras.

Variable rot_src : N * N -> Z * Z -> Z * Z.
Variable blur_px : Z -> image -> Z -> Z -> pixel.

(** X1: in the center mode the text is drawn once, at
    [((W - tw) // 2, (H - th) // 2)], the divisions rounding down also for
    a text larger than the image. *)
Theorem center_anchor (img : loc) (p : params) (s0 : world) (im0 : image) :
  images s0 !! img = Some im0 ->
  mode p = "center"%string ->
  exists r s',
    add_watermark_to_image rot_src blur_px img p s0 = (Ok r, s')
    /\ drawn_on (length (images s0)) (new_calls s0 s')
       = [((Z.of_N (im_width im0) - fst (text_size (fnt p) (text p))) / 2,
           (Z.of_N (im_height im0) - snd (text_size (fnt p) (text p))) / 2)].
Proof.
  intros Hi Hm.
  destruct (run_ok rot_src blur_px img p s0 im0 _ Hi
              (placement_center _ _ p Hm))
    as (rl & s' & ov & E & _ & _ & _ & _ & A & _).
  exists rl, s'. split; [done|].
  rewrite canvas_flat in A; [done | by rewrite Hm].
Qed.

(** X2: one call of the renderer on an RGBA image makes, when the shadow
    is on, a text call in black with the shadow alpha on a new scratch
    layer at the position moved by the shadow offset, and then, always,
    the text call in the fill colour on the image itself; it creates one
    image for the shadow and one more when the shadow is blurred, and
    none without shadow. *)
Theorem shadow_pass_structure (base : loc) (pos : Z * Z) (txt : string)
    (f : font) (fill : color) (st : style) (s : world) (im : image) :
  images s !! base = Some im ->
  im_mode im = ModeRGBA ->
  exists s',
    paint_shadowed_text blur_px base pos txt f fill st s = (Ok tt, s')
    /\ new_calls s s'
       = (if shadow_on st
          then [TextCall (length (images s)) (shadow_pos pos st) txt
                  (0, 0, 0, shadow_alpha st) (stroke_width st)
                  (0, 0, 0, shadow_alpha st)]
          else [])
         ++ [TextCall base pos txt fill (stroke_width st) fill]
    /\ length (images s') = (length (images s) + paint_allocs st)%nat.
Proof.
  intros Hb Hm.
  destruct (paint_exact blur_px base pos txt f fill st s im Hb Hm)
    as (s' & E & _ & Hd & Hl & _).
  exists s'. split; [exact E|]. split; [|exact Hl].
  exact (new_calls_app _ _ _ Hd).
Qed.

(** X3: in the modes that draw once, a pixel that neither the text nor,
    with an unblurred shadow, its shadow puts ink on is the pixel of the
    converted source. *)
Theorem watermark_is_local (img : loc) (p : params) (s0 : world)
    (im0 : image) :
  images s0 !! img = Some im0 ->
  single_mode (mode p) ->
  let anchor := single_anchor (Z.of_N (im_width im0))
                              (Z.of_N (im_height im0)) p in
  exists r s' res,
    add_watermark_to_image rot_src blur_px img p s0 = (Ok r, s')
    /\ images s' !! r = Some res
    /\ forall x y,
         touches (fnt p) (text p) (stroke_width (sty p)) anchor x y = false ->
         (shadow_on (sty p) = true ->
          shadow_blur (sty p) <= 0
          /\ touches (fnt p) (text p) (stroke_width (sty p))
               (shadow_pos anchor (sty p)) x y = false) ->
         im_px res x y = im_px (Pillow.convert_rgba_image im0) x y.
Proof.
  intros Hi Hm anchor.
  destruct (single_run_exact rot_src blur_px img p s0 im0 Hi Hm)
    as (r & s' & E & Hr & _).
  fold anchor in Hr.
  eexists r, s', _. split; [exact E|]. split; [exact Hr|].
  intros x y Ht Hs. cbn [Pillow.composite_image im_px].
  rewrite (painted_image_clear blur_px (fnt p) (text p) anchor (fill_of p)
             (sty p) (Pillow.blank (im_width im0, im_height im0)) x y
             Ht Hs eq_refl).
  apply over_clear.
Qed.

(** X4: in the modes that draw once, with an opacity of 255, or more
    within what Pillow takes as an ink (a C int, which it clips to 255),
    and a shadow alpha within 0..255, a pixel that the text covers fully
    comes out pure opaque white, whatever the source, the stroke and the
    shadow. *)
Theorem full_cover_is_white (img : loc) (p : params) (s0 : world)
    (im0 : image) :
  images s0 !! img = Some im0 ->
  single_mode (mode p) ->
  255 <= opacity p < 2 ^ 31 ->
  0 <= shadow_alpha (sty p) <= 255 ->
  let anchor := single_anchor (Z.of_N (im_width im0))
                              (Z.of_N (im_height im0)) p in
  exists r s' res,
    add_watermark_to_image rot_src blur_px img p s0 = (Ok r, s')
    /\ images s' !! r = Some res
    /\ forall x y,
         Pillow.clip8 (font_mask (fnt p) (text p) 0
                         (x - fst anchor) (y - snd anchor)) = 255 ->
         im_px res x y = Px 255 255 255 255.
Proof.
  intros Hi Hm Ho _ anchor.
  destruct (single_run_exact rot_src blur_px img p s0 im0 Hi Hm)
    as (r & s' & E & Hr & _).
  fold anchor in Hr.
  eexists r, s', _. split; [exact E|]. split; [exact Hr|].
  intros x y Hc. cbn [Pillow.composite_image im_px].
  unfold painted_image, Pillow.text_image.
  rewrite text_pass_full; [| exact Hc | | | |];
    unfold fill_of, Pillow.ink_of, Pillow.clip8; cbn [pr pg pb pa];
    try lia.
  replace (Z.max 0 (Z.min 255 (opacity p))) with 255 by lia.
  apply over_white.
Qed.

(** X5: a call that returns returns an RGBA image, and where the
    converted source is opaque the result is opaque: the watermark adds
    no transparency. *)
Theorem opacity_preserved (img : loc) (p : params) (s0 : world)
    (im0 : image) :
  images s0 !! img = Some im0 ->
  valid_mode (mode p) ->
  nondegenerate p ->
  exists r s' res,
    add_watermark_to_image rot_src blur_px img p s0 = (Ok r, s')
    /\ images s' !! r = Some res
    /\ im_mode res = ModeRGBA
    /\ forall x y,
         pa (im_px (Pillow.convert_rgba_image im0) x y) = 255 ->
         pa (im_px res x y) = 255.
Proof.
  intros Hi Hm Hn.
  destruct (placement_total (Z.of_N (im_width im0)) (Z.of_N (im_height im0))
              p Hm Hn) as (a & Hp).
  destruct (run_ok rot_src blur_px img p s0 im0 a Hi Hp)
    as (rl & s' & ov & E & _ & Hr & _).
  eexists rl, s', _. split; [exact E|]. split; [exact Hr|].
  split; [reflexivity|].
  intros x y Ha. cbn [Pillow.composite_image im_px] in *.
  unfold Pillow.over. destruct (pa (im_px ov x y) =? 0); [exact Ha|].
  cbn [pa]. rewrite Ha.
  replace (pa (im_px ov x y) * 255 + 255 * (255 - pa (im_px ov x y))
           + 128 - 128) with 65025 by lia.
  reflexivity.
Qed.

(** X8: in the tiling modes a step factor that is NaN or infinite makes
    the call raise, a [ValueError] or an [OverflowError] of the
    conversion, before any text is drawn. *)
Theorem nonfinite_factor_raises (img : loc) (p : params) (s0 : world)
    (im0 : image) :
  images s0 !! img = Some im0 ->
  (mode p = "tile"%string
   /\ (is_finite (fst (tile_step p)) = false
       \/ is_finite (snd (tile_step p)) = false))
  \/ (mode p = "diagonal-tile"%string /\ is_finite (diag_step p) = false) ->
  exists e s',
    add_watermark_to_image rot_src blur_px img p s0 = (Raise e, s')
    /\ step_error e
    /\ new_calls s0 s' = [].
Proof.
  intros Hi H.
  assert (Hp : exists e,
    placement (Z.of_N (im_width im0)) (Z.of_N (im_height im0)) p = Raise e
    /\ step_error e).
  { unfold placement. destruct (text_size (fnt p) (text p)) as [tw th].
    destruct H as [[Hm Hf] | [Hm Hf]]; rewrite Hm;
      cbn [String.eqb Ascii.eqb Bool.eqb].
    - destruct (scaled (tw + margin p) (tile_step p).1) as [sx|e] eqn:Ex.
      + destruct (scaled (th + margin p) (tile_step p).2) as [sy|e] eqn:Ey.
        * destruct Hf as [Hf | Hf].
          -- destruct (scaled_nonfinite (tw + margin p) _ Hf) as (e & He).
             congruence.
          -- destruct (scaled_nonfinite (th + margin p) _ Hf) as (e & He).
             congruence.
        * exists e. split; [done | by eapply scaled_error].
      + exists e. split; [done | by eapply scaled_error].
    - destruct (scaled_nonfinite (Z.max tw th) _ Hf) as (e & He).
      rewrite He. exists e. split; [done | by eapply scaled_error]. }
  destruct Hp as (e & Hp & He).
  destruct (run_raise rot_src blur_px img p s0 im0 e Hi Hp) as (s' & E & N).
  by exists e, s'.
Qed.

End CoreExtras.

(** X6: unless the shadow is on and its blur radius is positive, the
    Gaussian blur plays no part in a run. *)
Theorem blur_only_when_positive (rot_src : N * N -> Z * Z -> Z * Z)
    (blur1 blur2 : Z -> image -> Z -> Z -> pixel)
    (img : loc) (p : params) (s0 : world) :
  shadow_on (sty p) = false \/ shadow_blur (sty p) <= 0 ->
  add_watermark_to_image rot_src blur1 img p s0
  = add_watermark_to_image rot_src blur2 img p s0.
Proof.
  intros H. unfold add_watermark_to_image.
  apply bind_ext. intros sz s1. apply bind_ext. intros ov s2.
  destruct (text_size (fnt p) (text p)) as [tw th].
  apply bind_ext_l.
  destruct (String.eqb (mode p) "bottom-right").
  { apply bind_ext_l. by apply paint_blur_unused. }
  destruct (String.eqb (mode p) "center").
  { apply bind_ext_l. by apply paint_blur_unused. }
  destruct (String.eqb (mode p) "tile").
  { apply bind_ext. intros sx s3. apply bind_ext. intros sy s4.
    apply bind_ext_l. apply for_range_ext. intros yy s5.
    apply for_range_ext. intros xx s6. by apply paint_blur_unused. }
  destruct (String.eqb (mode p) "diagonal-tile"); [|done].
  apply bind_ext. intros tl s3. apply bind_ext. intros step s4.
  apply bind_ext_l. apply for_range_ext. intros yy s5.
  apply for_range_ext. intros xx s6. by apply paint_blur_unused.
Qed.

(** X7: each mode reads only its own parameters: the modes that draw once
    use neither step factor nor the rotation, the tile mode neither the
    diagonal factor nor the rotation, and the diagonal mode not the tile
    factors. *)
Theorem other_mode_parameters_unused
    (rot1 rot2 : N * N -> Z * Z -> Z * Z)
    (blur_px : Z -> image -> Z -> Z -> pixel)
    (img : loc) (txt : string) (f : font) (m : string) (op mg : Z)
    (st : style) (ts1 ts2 : PyFloat.float * PyFloat.float)
    (ds1 ds2 : PyFloat.float) (s0 : world) :
  (single_mode m ->
   add_watermark_to_image rot1 blur_px img
     (Params txt f m op mg st ts1 ds1) s0
   = add_watermark_to_image rot2 blur_px img
       (Params txt f m op mg st ts2 ds2) s0)
  /\ (m = "tile"%string ->
      add_watermark_to_image rot1 blur_px img
        (Params txt f m op mg st ts1 ds1) s0
      = add_watermark_to_image rot2 blur_px img
          (Params txt f m op mg st ts1 ds2) s0)
  /\ (m = "diagonal-tile"%string ->
      add_watermark_to_image rot1 blur_px img
        (Params txt f m op mg st ts1 ds1) s0
      = add_watermark_to_image rot1 blur_px img
          (Params txt f m op mg st ts2 ds1) s0).
Proof.
  split; [|split].
  - intros [-> | ->]; reflexivity.
  - intros ->. reflexivity.
  - intros ->. reflexivity.
Qed.

Lemma center_anchor_example :
  images tiny !! 0%nat = Some (plain ModeRGB 5 3)
  /\ mode center_params = "center"%string
  /\ exists r s',
       add_watermark_to_image rot_none blur_none 0%nat center_params tiny
       = (Ok r, s')
       /\ drawn_on 1%nat (new_calls tiny s') = [(-2, 0)].
Proof.
  split; [reflexivity|]. split; [reflexivity|].
  exact (center_anchor rot_none blur_none 0%nat center_params tiny
           (plain ModeRGB 5 3) eq_refl eq_refl).
Defined.

Lemma shadow_pass_example :
  images layer_world !! 0%nat = Some (Pillow.blank (4%N, 4%N))
  /\ im_mode (Pillow.blank (4%N, 4%N)) = ModeRGBA
  /\ exists s',
       paint_shadowed_text blur_none 0%nat (1, 1) "a" (box_font 2 2)
         (255, 255, 255, 128) default_style layer_world = (Ok tt, s')
       /\ new_calls layer_world s'
          = [TextCall 1%nat (3, 3) "a" (0, 0, 0, 180) 0 (0, 0, 0, 180);
             TextCall 0%nat (1, 1) "a" (255, 255, 255, 128) 0
               (255, 255, 255, 128)]
       /\ length (images s') = 2%nat.
Proof.
  split; [reflexivity|]. split; [reflexivity|].
  exact (shadow_pass_structure blur_none 0%nat (1, 1) "a" (box_font 2 2)
           (255, 255, 255, 128) default_style layer_world
           (Pillow.blank (4%N, 4%N)) eq_refl eq_refl).
Defined.

Lemma corner_single : single_mode (mode corner_params).
Proof. by left. Defined.

Lemma watermark_is_local_example :
  images photo !! 0%nat = Some (plain ModeRGB 200 100)
  /\ single_mode (mode corner_params)
  /\ exists r s' res,
       add_watermark_to_image rot_none blur_none 0%nat corner_params photo
       = (Ok r, s')
       /\ images s' !! r = Some res
       /\ forall x y,
            touches (box_font 50 20) "SAMPLE" 0 (140, 70) x y = false ->
            (shadow_on default_style = true ->
             shadow_blur default_style <= 0
             /\ touches (box_font 50 20) "SAMPLE" 0 (142, 72) x y = false) ->
            im_px res x y
            = im_px (Pillow.convert_rgba_image (plain ModeRGB 200 100)) x y.
Proof.
  split; [reflexivity|]. split; [exact corner_single|].
  exact (watermark_is_local rot_none blur_none 0%nat corner_params photo
           (plain ModeRGB 200 100) eq_refl corner_single).
Defined.

Lemma opaque_corner_single : single_mode (mode opaque_corner_params).
Proof. by left. Defined.

Lemma full_cover_is_white_example :
  images photo !! 0%nat = Some (plain ModeRGB 200 100)
  /\ single_mode (mode opaque_corner_params)
  /\ 255 <= opacity opaque_corner_params < 2 ^ 31
  /\ 0 <= shadow_alpha (sty opaque_corner_params) <= 255
  /\ exists r s' res,
       add_watermark_to_image rot_none blur_none 0%nat opaque_corner_params
         photo = (Ok r, s')
       /\ images s' !! r = Some res
       /\ forall x y,
            Pillow.clip8 (font_mask (box_font 50 20) "SAMPLE" 0
                            (x - 140) (y - 70)) = 255 ->
            im_px res x y = Px 255 255 255 255.
Proof.
  split; [reflexivity|]. split; [exact opaque_corner_single|].
  assert (H : 255 <= opacity opaque_corner_params < 2 ^ 31) by (cbn; lia).
  assert (A : 0 <= shadow_alpha (sty opaque_corner_params) <= 255)
    by (cbn; lia).
  split; [exact H|]. split; [exact A|].
  exact (full_cover_is_white rot_none blur_none 0%nat opaque_corner_params
           photo (plain ModeRGB 200 100) eq_refl opaque_corner_single H A).
Defined.

Lemma opacity_preserved_example :
  images photo !! 0%nat = Some (plain ModeRGB 200 100)
  /\ valid_mode (mode (quiet_params "tile"))
  /\ nondegenerate (quiet_params "tile")
  /\ exists r s' res,
       add_watermark_to_image rot_none blur_none 0%nat
         (quiet_params "tile") photo = (Ok r, s')
       /\ images s' !! r = Some res
       /\ im_mode res = ModeRGBA
       /\ forall x y,
            pa (im_px (Pillow.convert_rgba_image (plain ModeRGB 200 100))
                  x y) = 255 ->
            pa (im_px res x y) = 255.
Proof.
  split; [reflexivity|]. split; [right; right; by left|].
  split; [exact quiet_tile_nondegenerate|].
  exact (opacity_preserved rot_none blur_none 0%nat (quiet_params "tile")
           photo (plain ModeRGB 200 100) eq_refl
           (or_intror (or_intror (or_introl eq_refl)))
           quiet_tile_nondegenerate).
Defined.

Lemma blur_only_when_positive_example :
  (shadow_on (sty corner_params) = false
   \/ shadow_blur (sty corner_params) <= 0)
  /\ add_watermark_to_image rot_none blur_none 0%nat corner_params photo
     = add_watermark_to_image rot_none blur_black 0%nat corner_params photo.
Proof.
  assert (H : shadow_on (sty corner_params) = false
              \/ shadow_blur (sty corner_params) <= 0) by (right; cbn; lia).
  split; [exact H|].
  exact (blur_only_when_positive rot_none blur_none blur_black 0%nat
           corner_params photo H).
Defined.

Lemma nonfinite_factor_example :
  images photo !! 0%nat = Some (plain ModeRGB 200 100)
  /\ mode nan_tile_params = "tile"%string
  /\ is_finite (fst (tile_step nan_tile_params)) = false
  /\ exists e s',
       add_watermark_to_image rot_none blur_none 0%nat nan_tile_params photo
       = (Raise e, s')
       /\ step_error e
       /\ new_calls photo s' = [].
Proof.
  split; [reflexivity|]. split; [reflexivity|]. split; [reflexivity|].
  exact (nonfinite_factor_raises rot_none blur_none 0%nat nan_tile_params
           photo (plain ModeRGB 200 100) eq_refl
           (or_introl (conj eq_refl (or_introl eq_refl)))).
Defined.

(* ===================================================================== *)
(** ** Properties of the font loader *)
(* ===================================================================== *)

Lemma given_path_cases (font_path : option string) :
  given_path font_path = []
  \/ exists p, font_path = Some p /\ p <> ""%string
               /\ given_path font_path = [p].
Proof.
  destruct font_path as [p|]; [|by left]. cbn.
  destruct (String.eqb_spec p ""); [by left|].
  right. by exists p.
Qed.

Lemma try_fonts_cons (h : host) (size : Z) (fp : string)
    (rest : list string) (t : session) :
  try_fonts h size (fp :: rest) t
  = let t1 := Session (memory t) (trace t ++ [EvTruetype fp size]) in
    match truetype h (trace t) fp size with
    | Val f => (Val f, t1)
    | Exc e => if is_oserror e then try_fonts h size rest t1
               else (Exc e, t1)
    end.
Proof.
  cbn [try_fonts]. unfold call.
  by destruct (truetype h (trace t) fp size).
Qed.

(** X9: a font path that is given and not empty decides the outcome
    unless reading it raises an [OSError]: the font it gives is returned,
    any other exception it raises goes to the caller, and the bundled font
    is not touched. *)
Theorem explicit_font_decides (h : host) (size : Z) (p : string)
    (t : session) :
  p <> ""%string ->
  (forall e, truetype h (trace t) p size = Exc e -> is_oserror e = false) ->
  load_font h size (Some p) t
  = (truetype h (trace t) p size,
     Session (memory t) (trace t ++ [EvTruetype p size])).
Proof.
  intros Hp He. unfold load_font. cbn [given_path].
  destruct (String.eqb_spec p ""); [done|].
  cbn [app]. rewrite try_fonts_cons. cbn zeta.
  destruct (truetype h (trace t) p size) as [f|e] eqn:E; [done|].
  by rewrite (He e eq_refl).
Qed.

(** X10: without a usable font path (none, an empty one, or one whose
    reading raises an [OSError]) the bundled font is read, at the same
    size: its font is returned, an [OSError] from it becomes
    [FileNotFoundError], and any other exception goes to the caller. *)
Theorem font_fallback (h : host) (size : Z) (font_path : option string)
    (t : session) :
  font_path = None \/ font_path = Some ""%string
  \/ (exists p e, font_path = Some p
                  /\ truetype h (trace t) p size = Exc e
                  /\ is_oserror e = true) ->
  let past := trace t ++ map (fun p => EvTruetype p size)
                           (given_path font_path) in
  load_font h size font_path t
  = (match truetype h past bundled_font size with
     | Val f => Val f
     | Exc e => if is_oserror e then Exc FileNotFoundError else Exc e
     end,
     Session (memory t) (past ++ [EvTruetype bundled_font size])).
Proof.
  intros H past.
  assert (Hb : forall t1 : session,
    try_fonts h size [bundled_font] t1
    = (match truetype h (trace t1) bundled_font size with
       | Val f => Val f
       | Exc e => if is_oserror e then Exc FileNotFoundError else Exc e
       end,
       Session (memory t1) (trace t1 ++ [EvTruetype bundled_font size]))).
  { intros t1. cbn [try_fonts]. unfold call, braise.
    destruct (truetype h (trace t1) bundled_font size) as [f|e]; [done|].
    by destruct (is_oserror e). }
  unfold load_font. subst past.
  destruct H as [-> | [-> | (p & e & -> & E & Ho)]].
  - cbn [given_path app map]. rewrite Hb. by rewrite app_nil_r.
  - cbn [given_path String.eqb app map]. rewrite Hb. by rewrite app_nil_r.
  - cbn [given_path]. destruct (String.eqb_spec p "").
    + cbn [app map]. rewrite Hb. by rewrite app_nil_r.
    + cbn [app map]. rewrite try_fonts_cons. cbn zeta. rewrite E, Ho.
      rewrite Hb. cbn [memory trace]. by rewrite <- app_assoc.
Qed.

(** The calls of [load_font]: font files read at the size asked, and at
    least one. *)
Lemma try_fonts_events (h : host) (size : Z) (candidates : list string)
    (t : session) :
  exists r t' evs,
    try_fonts h size candidates t = (r, t')
    /\ memory t' = memory t
    /\ trace t' = trace t ++ evs
    /\ (candidates <> [] -> evs <> [])
    /\ Forall (fun ev => exists p, ev = EvTruetype p size) evs.
Proof.
  revert t. induction candidates as [|fp rest IH]; intros t.
  - exists (Exc FileNotFoundError), t, []. rewrite app_nil_r.
    by repeat split.
  - rewrite try_fonts_cons. cbn zeta.
    destruct (truetype h (trace t) fp size) as [f|e].
    + eexists _, _, [EvTruetype fp size]. repeat split; try done.
      constructor; [by exists fp | constructor].
    + destruct (is_oserror e).
      * destruct (IH (Session (memory t) (trace t ++ [EvTruetype fp size])))
          as (r & t' & evs & E & Hm & Ht & _ & F).
        cbn [memory trace] in Hm, Ht.
        exists r, t', (EvTruetype fp size :: evs).
        split; [exact E|]. split; [exact Hm|].
        split; [by rewrite Ht, <- app_assoc|]. split; [done|].
        constructor; [by exists fp | exact F].
      * eexists _, _, [EvTruetype fp size]. repeat split; try done.
        constructor; [by exists fp | constructor].
Qed.

Lemma load_font_events (h : host) (size : Z) (font_path : option string)
    (t : session) :
  exists r t' evs,
    load_font h size font_path t = (r, t')
    /\ memory t' = memory t
    /\ trace t' = trace t ++ evs
    /\ evs <> []
    /\ Forall (fun ev => exists p, ev = EvTruetype p size) evs.
Proof.
  unfold load_font.
  destruct (try_fonts_events h size
              (given_path font_path ++ [bundled_font]) t)
    as (r & t' & evs & E & Hm & Ht & Hn & F).
  exists r, t', evs. repeat (split; [done|]). split; [|done].
  apply Hn. by destruct (given_path font_path).
Qed.

(** X11: whatever the fonts do, [load_font] reads at most the given path
    and the bundled font, each at the size asked, touches no image, and
    lets out no [OSError] but its own [FileNotFoundError]. *)
Theorem load_font_contained (h : host) (size : Z)
    (font_path : option string) (t : session) :
  exists r t' evs,
    load_font h size font_path t = (r, t')
    /\ memory t' = memory t
    /\ trace t' = trace t ++ evs
    /\ (evs = [EvTruetype bundled_font size]
        \/ exists p, font_path = Some p
             /\ (evs = [EvTruetype p size]
                 \/ evs = [EvTruetype p size;
                           EvTruetype bundled_font size]))
    /\ (forall e, r = Exc e -> is_oserror e = true ->
        e = FileNotFoundError).
Proof.
  assert (Hb : forall t1 : session, exists r,
    try_fonts h size [bundled_font] t1
    = (r, Session (memory t1) (trace t1 ++ [EvTruetype bundled_font size]))
    /\ forall e, r = Exc e -> is_oserror e = true ->
       e = FileNotFoundError).
  { intros t1. cbn [try_fonts]. unfold call, braise.
    destruct (truetype h (trace t1) bundled_font size) as [f|e].
    - eexists. split; [done|]. intros e [=].
    - destruct (is_oserror e) eqn:Ho.
      + eexists. split; [done|]. by intros e' [= <-].
      + eexists. split; [done|]. intros e' [= <-]. congruence. }
  unfold load_font.
  destruct (given_path_cases font_path) as [-> | (p & -> & Hp & ->)].
  - cbn [app]. destruct (Hb t) as (r & E & Hr).
    eexists r, _, _. split; [exact E|]. cbn. split; [done|].
    split; [done|]. split; [by left | exact Hr].
  - cbn [app]. rewrite try_fonts_cons. cbn zeta.
    destruct (truetype h (trace t) p size) as [f|e].
    + eexists _, _, _. split; [done|]. cbn. split; [done|]. split; [done|].
      split; [right; exists p; split; [done | by left]|]. intros e [=].
    + destruct (is_oserror e) eqn:Ho.
      * destruct (Hb (Session (memory t) (trace t ++ [EvTruetype p size])))
          as (r & E & Hr).
        eexists r, _, _. split; [exact E|]. cbn. split; [done|].
        split; [by rewrite <- app_assoc|].
        split; [right; exists p; split; [done | by right] | exact Hr].
      * eexists _, _, _. split; [done|]. cbn. split; [done|].
        split; [done|].
        split; [right; exists p; split; [done | by left]|].
        intros e' [= <-]. congruence.
Qed.

(* ===================================================================== *)
(** ** Properties of the selection of the files and of their names *)
(* ===================================================================== *)

Lemma lower_ascii_dot (c : Ascii.ascii) :
  String.eqb (String (lower_ascii c) "") "."
  = String.eqb (String c "") ".".
Proof. by destruct c as [[] [] [] [] [] [] [] []]. Qed.

Lemma lower_ascii_idem (c : Ascii.ascii) :
  lower_ascii (lower_ascii c) = lower_ascii c.
Proof. by destruct c as [[] [] [] [] [] [] [] []]. Qed.

Lemma lower_idem (s : string) : lower (lower s) = lower s.
Proof.
  induction s as [|c s IH]; [done|].
  cbn [lower]. by rewrite lower_ascii_idem, IH.
Qed.

Lemma lower_app (s t : string) : lower (s ++ t) = (lower s ++ lower t)%string.
Proof.
  induction s as [|c s IH]; [done|]. cbn [append lower]. by rewrite IH.
Qed.

Lemma nonempty_lower (s : string) :
  Path.nonempty (lower s) = Path.nonempty s.
Proof. by destruct s. Qed.

Lemma nonempty_true (s : string) :
  Path.nonempty s = true <-> s <> ""%string.
Proof. destruct s; cbn; split; congruence. Qed.

Lemma split_lower (s : string) :
  Path.split_last_dot (lower s)
  = match Path.split_last_dot s with
    | Some (b, a) => Some (lower b, lower a)
    | None => None
    end.
Proof.
  induction s as [|c s IH]; [done|].
  cbn [lower Path.split_last_dot]. rewrite IH.
  destruct (Path.split_last_dot s) as [[b a]|]; [done|].
  rewrite lower_ascii_dot.
  by destruct (String.eqb (String c "") ".").
Qed.

Lemma split_spec (n b a : string) :
  Path.split_last_dot n = Some (b, a) ->
  n = (b ++ "." ++ a)%string /\ Path.split_last_dot a = None.
Proof.
  revert b a. induction n as [|c n IH]; intros b a; [done|].
  cbn [Path.split_last_dot].
  destruct (Path.split_last_dot n) as [[b' a']|] eqn:E.
  - intros [= <- <-]. destruct (IH b' a' eq_refl) as [-> Ha].
    by split.
  - destruct (String.eqb_spec (String c "") ".") as [Hc|]; [|done].
    intros [= <- <-]. injection Hc as ->. by split.
Qed.

Lemma split_app (b a : string) :
  Path.split_last_dot a = None ->
  Path.split_last_dot (b ++ "." ++ a) = Some (b, a).
Proof.
  intros Ha. induction b as [|c b IH].
  - cbn. by rewrite Ha.
  - cbn [append Path.split_last_dot] in *. by rewrite IH.
Qed.

Lemma stem_suffix (n : string) : (Path.stem n ++ Path.suffix n)%string = n.
Proof.
  unfold Path.stem, Path.suffix.
  destruct (Path.split_last_dot n) as [[b a]|] eqn:E.
  - destruct (Path.nonempty b && Path.nonempty a).
    + by destruct (split_spec _ _ _ E) as [-> _].
    + clear. induction n as [|c n IH]; [done|]. cbn. by rewrite IH.
  - clear. induction n as [|c n IH]; [done|]. cbn. by rewrite IH.
Qed.

Lemma suffix_lower (n : string) :
  Path.suffix (lower n) = lower (Path.suffix n).
Proof.
  unfold Path.suffix. rewrite split_lower.
  destruct (Path.split_last_dot n) as [[b a]|]; [|done].
  rewrite !nonempty_lower.
  by destruct (Path.nonempty b && Path.nonempty a).
Qed.

(** A name with a suffix is its stem, a dot and a rest without dot. *)
Lemma suffix_cases (n : string) :
  (Path.suffix n = ""%string /\ Path.stem n = n)
  \/ exists b a, n = (b ++ "." ++ a)%string /\ b <> ""%string
       /\ a <> ""%string /\ Path.split_last_dot a = None
       /\ Path.stem n = b /\ Path.suffix n = ("." ++ a)%string.
Proof.
  unfold Path.suffix, Path.stem.
  destruct (Path.split_last_dot n) as [[b a]|] eqn:E; [|by left].
  destruct (Path.nonempty b && Path.nonempty a) eqn:Hn; [|by left].
  apply andb_true_iff in Hn as [Hb Ha].
  apply nonempty_true in Hb, Ha.
  destruct (split_spec _ _ _ E) as [-> Hd].
  right. by exists b, a.
Qed.

Lemma is_image_name_lower (exts : list string) (n : string) :
  is_image_name exts (lower n) = is_image_name exts n.
Proof.
  unfold is_image_name. by rewrite suffix_lower, lower_idem.
Qed.

(** X12: with the default extensions, the files taken are the entries
    named [s.e] with [s] not empty and [e], in any letter case, one of
    png, jpg, jpeg, webp, bmp; so a dot file such as [.png] is not
    taken and only the last extension of a name counts. *)
Theorem default_image_names (entries : list string) (name : string) :
  In name (iter_image_files entries default_exts)
  <-> In name entries
      /\ exists s e, name = (s ++ "." ++ e)%string /\ s <> ""%string
           /\ In (lower e) ["png"; "jpg"; "jpeg"; "webp"; "bmp"]%string.
Proof.
  unfold iter_image_files. rewrite filter_In.
  apply and_iff_compat_l. unfold is_image_name. rewrite existsb_exists.
  split.
  - intros (x & Hx & He). apply String.eqb_eq in He. subst x.
    destruct (suffix_cases name)
      as [[Hs _] | (b & a & -> & Hb & _ & _ & _ & Hs)]; rewrite Hs in Hx.
    + cbn in Hx. intuition congruence.
    + exists b, a. split; [done|]. split; [done|].
      rewrite lower_app in Hx. cbn in Hx |- *.
      destruct Hx as [H|[H|[H|[H|[H|[]]]]]]; injection H as H;
        rewrite <- H; tauto.
  - intros (s & e & -> & Hs & He).
    assert (Hd : Path.split_last_dot e = None).
    { pose proof (split_lower e) as Hl.
      destruct (Path.split_last_dot e) as [[b a]|]; [|done].
      cbn in He. destruct He as [H|[H|[H|[H|[H|[]]]]]];
        rewrite <- H in Hl; discriminate Hl. }
    assert (Hn : e <> ""%string).
    { intros ->. cbn in He. intuition congruence. }
    exists ("." ++ lower e)%string. split.
    + cbn in He |- *.
      destruct He as [H|[H|[H|[H|[H|[]]]]]]; rewrite <- H; tauto.
    + apply String.eqb_eq. unfold Path.suffix.
      rewrite (split_app s e Hd).
      apply nonempty_true in Hs, Hn. rewrite Hs, Hn. cbn [andb].
      by rewrite lower_app.
Qed.

Lemma names_lowered (entries exts : list string) :
  iter_image_files (map lower entries) exts
  = map lower (iter_image_files entries exts).
Proof.
  unfold iter_image_files.
  induction entries as [|n ns IH]; [done|].
  cbn [map List.filter]. rewrite is_image_name_lower, IH.
  by destruct (is_image_name exts n).
Qed.

(** X13: for entries named in ASCII, the selection does not look at the
    letter case of a name: lowering the names of the entries lowers the
    names selected and changes nothing else. *)
Theorem selection_ignores_case (entries exts : list string) :
  Forall (fun n => is_ascii n = true) entries ->
  iter_image_files (map lower entries) exts
  = map lower (iter_image_files entries exts).
Proof. intros _. apply names_lowered. Qed.

Lemma has_upper_lower (e : string) :
  has_upper e = negb (String.eqb (lower e) e).
Proof.
  induction e as [|c e IH]; [done|].
  cbn [has_upper lower]. rewrite IH. clear IH.
  destruct (String.eqb_spec (lower e) e) as [->|Hne].
  - cbn [negb]. rewrite orb_false_r.
    destruct (String.eqb_spec (String (lower_ascii c) e) (String c e))
      as [H|H].
    + injection H as H. unfold lower_ascii in H.
      destruct ((65 <=? Ascii.nat_of_ascii c)%nat
                && (Ascii.nat_of_ascii c <=? 90)%nat) eqn:U; [|done].
      exfalso. apply (f_equal Ascii.nat_of_ascii) in H.
      apply andb_true_iff in U as [U1 U2].
      apply Nat.leb_le in U1, U2.
      rewrite Ascii.nat_ascii_embedding in H by lia. lia.
    + unfold lower_ascii in H.
      destruct ((65 <=? Ascii.nat_of_ascii c)%nat
                && (Ascii.nat_of_ascii c <=? 90)%nat); [done|].
      by destruct H.
  - cbn [negb]. rewrite orb_true_r.
    destruct (String.eqb_spec (String (lower_ascii c) (lower e))
                (String c e)) as [H|H]; [|done].
    by injection H.
Qed.

(** X14: for entries named in ASCII, the extensions asked for are
    compared as they are written with the lowered suffix, so one that has
    an upper-case ASCII letter selects nothing. *)
Theorem mixed_case_extension_is_dead (entries exts : list string) :
  Forall (fun n => is_ascii n = true) entries ->
  iter_image_files entries exts
  = iter_image_files entries
      (List.filter (fun e => negb (has_upper e)) exts).
Proof.
  intros _. unfold iter_image_files. apply filter_ext. intros n.
  unfold is_image_name. generalize (Path.suffix n). intros s.
  induction exts as [|e es IH]; [done|].
  cbn [existsb List.filter]. rewrite has_upper_lower, negb_involutive.
  destruct (String.eqb_spec (lower s) e) as [<-|Hne].
  - rewrite lower_idem, String.eqb_refl. cbn [existsb].
    by rewrite String.eqb_refl.
  - cbn [orb]. rewrite IH.
    destruct (String.eqb (lower e) e); [|done].
    cbn [existsb]. by destruct (String.eqb_spec (lower s) e).
Qed.

Lemma append_length (s t : string) :
  String.length (s ++ t) = (String.length s + String.length t)%nat.
Proof. induction s as [|c s IH]; [done|]. cbn. by rewrite IH. Qed.

Lemma append_cancel_r (s1 s2 t : string) :
  (s1 ++ t)%string = (s2 ++ t)%string -> s1 = s2.
Proof.
  revert s2. induction s1 as [|c s1 IH]; intros [|c2 s2] H.
  - done.
  - apply (f_equal String.length) in H. cbn in H.
    rewrite append_length in H. lia.
  - apply (f_equal String.length) in H. cbn in H.
    rewrite append_length in H. lia.
  - cbn in H. injection H as -> H. by rewrite (IH s2 H).
Qed.

Lemma append_assoc (s t u : string) :
  ((s ++ t) ++ u)%string = (s ++ t ++ u)%string.
Proof. induction s as [|c s IH]; [done|]. cbn. by rewrite IH. Qed.

Lemma out_name_dotted (b a : string) :
  b <> ""%string -> a <> ""%string -> Path.split_last_dot a = None ->
  out_name (b ++ "." ++ a) = ((b ++ "_wm") ++ "." ++ a)%string.
Proof.
  intros Hb Ha Hd. unfold out_name, Path.stem, Path.suffix.
  rewrite (split_app b a Hd).
  apply nonempty_true in Hb, Ha. rewrite Hb, Ha. cbn [andb].
  by rewrite append_assoc.
Qed.

Lemma out_name_inj (n1 n2 : string) :
  Path.suffix n1 <> ""%string -> Path.suffix n2 <> ""%string ->
  out_name n1 = out_name n2 -> n1 = n2.
Proof.
  intros H1 H2.
  destruct (suffix_cases n1)
    as [[? _] | (b1 & a1 & -> & Hb1 & Ha1 & Hd1 & _)]; [done|].
  destruct (suffix_cases n2)
    as [[? _] | (b2 & a2 & -> & Hb2 & Ha2 & Hd2 & _)]; [done|].
  rewrite !out_name_dotted by done. intros E.
  apply (f_equal Path.split_last_dot) in E.
  rewrite !split_app in E by done.
  injection E as E ->. by rewrite (append_cancel_r _ _ _ E).
Qed.

Lemma selected_has_suffix (entries : list string) (n : string) :
  In n (iter_image_files entries default_exts) ->
  In n entries /\ Path.suffix n <> ""%string.
Proof.
  unfold iter_image_files. rewrite filter_In. intros [Hi Hs].
  split; [done|]. intros E. unfold is_image_name in Hs.
  by rewrite E in Hs.
Qed.

(** X15: the files written for a directory do not collide: entries with
    different names are written under different names, and no file is
    written under the name of the entry it comes from. *)
Theorem output_names_distinct (entries : list string) :
  List.NoDup entries ->
  List.NoDup (map out_name (iter_image_files entries default_exts))
  /\ forall n, In n (iter_image_files entries default_exts) ->
               out_name n <> n.
Proof.
  intros Hn. split.
  - assert (Hf : List.NoDup (iter_image_files entries default_exts)).
    { unfold iter_image_files. by apply List.NoDup_filter. }
    assert (Hs : forall n, In n (iter_image_files entries default_exts) ->
                           Path.suffix n <> ""%string).
    { intros n Hi. by destruct (selected_has_suffix _ _ Hi). }
    induction Hf as [|n ns Hnot Hf IH]; [constructor|].
    cbn [map]. constructor.
    + intros Hi. apply in_map_iff in Hi as (m & E & Hm).
      apply Hnot.
      rewrite <- (out_name_inj m n); [done| | |done].
      * apply Hs. by right.
      * apply Hs. by left.
    + apply IH. intros m Hm. apply Hs. by right.
  - intros n _ E. unfold out_name in E.
    rewrite <- (stem_suffix n) in E at 3.
    apply (f_equal String.length) in E.
    rewrite !append_length in E. cbn in E. lia.
Qed.

(* ===================================================================== *)
(** ** Properties of the batch *)
(* ===================================================================== *)

Lemma bbind_inv {A C} (c : B A) (k : A -> B C) (t t' : session)
    (r : res C) :
  bbind c k t = (r, t') ->
  (exists e, c t = (Exc e, t') /\ r = Exc e)
  \/ (exists a t1, c t = (Val a, t1) /\ k a t1 = (r, t')).
Proof.
  unfold bbind. destruct (c t) as [[a|e] t1].
  - intros H. right. by exists a, t1.
  - intros [= <- <-]. left. by exists e.
Qed.

(** What one turn of the loop of [process_directory] does: it opens the
    entry, asks for fonts at the size of the image, and then either stops
    on an exception, or hands the watermarked image, made RGB, to [save]
    and, when that returns, prints the line. *)
Lemma process_image_inv (h : host) (a : batch_args) (dir name : string)
    (t t' : session) (r : res unit) :
  process_image h a dir name t = (r, t') ->
  exists fonts tail,
    trace t' = trace t ++ EvOpen (Path.join dir name) :: fonts ++ tail
    /\ (fonts = []
        \/ exists opened src sz,
             open_image h (trace t) (Path.join dir name) = Val opened
             /\ exif_transpose h opened = Val src
             /\ font_size_for a (Z.of_N (im_width src))
                  (Z.of_N (im_height src)) = Val sz
             /\ fonts <> []
             /\ Forall (fun ev => exists p, ev = EvTruetype p sz) fonts)
    /\ ((tail = [] /\ exists e, r = Exc e)
        \/ exists opened src f mg ov,
             open_image h (trace t) (Path.join dir name) = Val opened
             /\ exif_transpose h opened = Val src
             /\ scaled (Z.max (Z.of_N (im_width src))
                          (Z.of_N (im_height src))) (b_margin_ratio a)
                = Ok mg
             /\ (quiet (fill_of (watermark_params a f mg)) (b_sty a) ->
                 alpha_zero ov)
             /\ let im := convert_rgb_image
                            (Pillow.composite_image
                               (Pillow.convert_rgba_image src) ov) in
                let out := Path.join out_dir (out_name name) in
                (tail = [EvSave out im 95] /\ exists e, r = Exc e)
                \/ (tail = [EvSave out im 95;
                            EvPrint (DoneLine (out_name name))]
                    /\ r = Val tt)).
Proof.
  unfold process_image. intros H.
  apply bbind_inv in H as [(e & Hc & ->) | (opened & t1 & Hc & H)].
  { injection Hc as Ho <-. exists [], []. cbn [trace app].
    split; [done|]. split; [by left|]. left. split; [done|]. by exists e. }
  injection Hc as Ho <-.
  apply bbind_inv in H as [(e & Hc & ->) | (src & t2 & Hc & H)].
  { injection Hc as _ <-. exists [], []. cbn [trace app].
    split; [done|]. split; [by left|]. left. split; [done|]. by exists e. }
  injection Hc as Hs <-.
  apply bbind_inv in H as [(e & Hc & ->) | (img & t2 & Hc & H)].
  { discriminate Hc. }
  injection Hc as <- <-. cbn [memory trace] in H.
  set (w0 := World (images (memory t) ++ [src]) (drawn (memory t))) in *.
  set (tr1 := trace t ++ [EvOpen (Path.join dir name)]) in *.
  apply bbind_inv in H as [(e & Hc & ->) | (sz & t3 & Hc & H)].
  { injection Hc as _ <-. exists [], []. cbn [trace app].
    split; [done|]. split; [by left|]. left. split; [done|]. by exists e. }
  injection Hc as Hz <-.
  destruct (load_font_events h sz (b_font_path a) (Session w0 tr1))
    as (rf & t4 & evs & Ef & Hm4 & Ht4 & Hne & Hfe).
  cbn [memory trace] in Hm4, Ht4.
  assert (Hfonts : evs <> []
                   /\ Forall (fun ev => exists p, ev = EvTruetype p sz) evs)
    by done.
  assert (Htr : forall tail,
            trace t ++ EvOpen (Path.join dir name) :: evs ++ tail
            = (tr1 ++ evs) ++ tail).
  { intros tail. unfold tr1. by rewrite <- !app_assoc. }
  assert (HF : exists opened src sz,
             open_image h (trace t) (Path.join dir name) = Val opened
             /\ exif_transpose h opened = Val src
             /\ font_size_for a (Z.of_N (im_width src))
                  (Z.of_N (im_height src)) = Val sz
             /\ evs <> []
             /\ Forall (fun ev => exists p, ev = EvTruetype p sz) evs).
  { exists opened, src, sz. by destruct Hfonts. }
  apply bbind_inv in H as [(e & Hc & ->) | (f & t5 & Hc & H)].
  { rewrite Ef in Hc. injection Hc as _ <-. exists evs, [].
    rewrite Htr, app_nil_r. split; [done|]. split; [by right|].
    left. split; [done|]. by exists e. }
  rewrite Ef in Hc. injection Hc as _ <-.
  apply bbind_inv in H as [(e & Hc & ->) | (mg & t6 & Hc & H)].
  { injection Hc as _ <-. exists evs, [].
    rewrite Htr, app_nil_r. split; [done|]. split; [by right|].
    left. split; [done|]. by exists e. }
  injection Hc as Hmg <-.
  assert (Hmg' : scaled (Z.max (Z.of_N (im_width src))
                           (Z.of_N (im_height src))) (b_margin_ratio a)
                 = Ok mg).
  { destruct (scaled _ _); [by injection Hmg as -> | discriminate Hmg]. }
  clear Hmg.
  assert (Hl : images (memory t4) !! length (images (memory t)) = Some src).
  { rewrite Hm4. unfold w0. cbn [images]. apply list_lookup_middle.
    done. }
  apply bbind_inv in H as [(e & Hc & ->) | (wm_img & t7 & Hc & H)].
  { unfold in_memory in Hc.
    destruct (add_watermark_to_image _ _ _ _ (memory t4)) as [rw w'].
    injection Hc as _ <-. exists evs, []. cbn [trace].
    rewrite Ht4, Htr, app_nil_r. split; [done|]. split; [by right|].
    left. split; [done|]. by exists e. }
  unfold in_memory in Hc.
  destruct (add_watermark_to_image _ _ _ _ (memory t4)) as [rw w'] eqn:Ew.
  injection Hc as Hrw <-.
  destruct rw as [rl|e]; [|discriminate Hrw]. injection Hrw as ->.
  pose proof (run_outcome _ _ _ _ _ src _ _ Hl Ew) as Ho'.
  destruct Ho' as [_ _ _ Hres].
  destruct (placement _ _ _) as [anchors|e]; [|discriminate Hres].
  destruct Hres as (rl & ov & [= <-] & _ & Hwm & Hq & _).
  apply bbind_inv in H as [(e & Hc & ->) | (wm & t8 & Hc & H)].
  { unfold in_memory, load in Hc. cbn [memory] in Hc.
    rewrite Hwm in Hc. discriminate Hc. }
  unfold in_memory, load in Hc. cbn [memory trace] in Hc.
  rewrite Hwm in Hc. injection Hc as <- <-.
  apply bbind_inv in H as [(e & Hc & ->) | (rgb & t9 & Hc & H)].
  { discriminate Hc. }
  injection Hc as _ <-. cbn [memory trace] in H.
  apply bbind_inv in H as [(e & Hc & ->) | ([] & t10 & Hc & H)].
  { injection Hc as _ <-. cbn [trace].
    exists evs, [EvSave (Path.join out_dir (out_name name))
                   (convert_rgb_image
                      (Pillow.composite_image
                         (Pillow.convert_rgba_image src) ov)) 95].
    rewrite Ht4, Htr. split; [done|]. split; [by right|].
    right. exists opened, src, f, mg, ov. repeat (split; [done|]).
    left. split; [done|]. by exists e. }
  injection Hc as _ <-. injection H as <- <-. cbn [trace].
  exists evs, [EvSave (Path.join out_dir (out_name name))
                 (convert_rgb_image
                    (Pillow.composite_image
                       (Pillow.convert_rgba_image src) ov)) 95;
               EvPrint (DoneLine (out_name name))].
  rewrite Ht4, (Htr [_; _]), <- app_assoc.
  split; [done|]. split; [by right|].
  right. exists opened, src, f, mg, ov. repeat (split; [done|]).
  right. by split.
Qed.

Lemma opened_paths_app (a b : list event) :
  opened_paths (a ++ b) = opened_paths a ++ opened_paths b.
Proof. apply flat_map_app. Qed.

Lemma saved_paths_app (a b : list event) :
  saved_paths (a ++ b) = saved_paths a ++ saved_paths b.
Proof. apply flat_map_app. Qed.

Lemma done_lines_app (a b : list event) :
  done_lines (a ++ b) = done_lines a ++ done_lines b.
Proof. apply flat_map_app. Qed.

Lemma font_sizes_app (a b : list event) :
  font_sizes (a ++ b) = font_sizes a ++ font_sizes b.
Proof. apply flat_map_app. Qed.

Lemma font_events_only (sz : Z) (evs : list event) :
  Forall (fun ev => exists p, ev = EvTruetype p sz) evs ->
  opened_paths evs = [] /\ saved_paths evs = [] /\ done_lines evs = []
  /\ Forall (eq sz) (font_sizes evs).
Proof.
  induction 1 as [|ev evs (p & ->) _ (Ho & Hs & Hd & Hf)]; [done|].
  unfold opened_paths, saved_paths, done_lines, font_sizes in *.
  cbn [flat_map app]. rewrite Ho, Hs, Hd. repeat split; try done.
  by constructor.
Qed.

(** One turn of the loop, by the files it touches. *)
Lemma process_image_log (h : host) (a : batch_args) (dir name : string)
    (t t' : session) (r : res unit) :
  process_image h a dir name t = (r, t') ->
  exists evs,
    trace t' = trace t ++ evs
    /\ opened_paths evs = [Path.join dir name]
    /\ ((r = Val tt
         /\ saved_paths evs = [Path.join out_dir (out_name name)]
         /\ done_lines evs = [out_name name])
        \/ ((exists e, r = Exc e)
            /\ done_lines evs = []
            /\ (saved_paths evs = []
                \/ saved_paths evs
                   = [Path.join out_dir (out_name name)]))).
Proof.
  intros H.
  destruct (process_image_inv _ _ _ _ _ _ _ H)
    as (fonts & tail & Ht & Hf & Hr).
  assert (Hs : opened_paths fonts = [] /\ saved_paths fonts = []
               /\ done_lines fonts = []).
  { destruct Hf as [-> | (o & s & sz & _ & _ & _ & _ & F)]; [done|].
    by destruct (font_events_only sz fonts F) as (? & ? & ? & _). }
  destruct Hs as (Ho & Hs & Hd).
  exists (EvOpen (Path.join dir name) :: fonts ++ tail).
  split; [done|].
  change (EvOpen (Path.join dir name) :: fonts ++ tail)
    with ([EvOpen (Path.join dir name)] ++ fonts ++ tail).
  rewrite !opened_paths_app, !saved_paths_app, !done_lines_app, Ho, Hs, Hd.
  destruct Hr as [(-> & e & ->)
                 | (o & s & f & mg & ov & _ & _ & _ & _
                    & [(-> & e & ->) | (-> & ->)])]; cbn.
  - split; [done|]. right. split; [by exists e|]. split; [done | by left].
  - split; [done|]. right. split; [by exists e|]. split; [done | by right].
  - split; [done|]. left. done.
Qed.

Lemma batch_log (h : host) (a : batch_args) (dir : string)
    (files : list string) (t t' : session) (r : res unit) :
  bfor_each files (process_image h a dir) t = (r, t') ->
  exists evs k ks ko,
    trace t' = trace t ++ evs
    /\ done_lines evs = map out_name (take k files)
    /\ saved_paths evs
       = map (fun n => Path.join out_dir (out_name n)) (take ks files)
    /\ opened_paths evs = map (Path.join dir) (take ko files)
    /\ (k <= ks)%nat /\ (ks <= ko)%nat /\ (ko <= S k)%nat
    /\ match r with
       | Val _ => k = length files
       | Exc _ => (k < length files)%nat
       end.
Proof.
  revert t. induction files as [|n ns IH]; intros t H.
  - injection H as <- <-. exists [], 0%nat, 0%nat, 0%nat.
    rewrite app_nil_r. cbn. repeat split; lia.
  - cbn [bfor_each] in H.
    apply bbind_inv in H as [(e & Hc & ->) | ([] & t1 & Hc & H)].
    + destruct (process_image_log _ _ _ _ _ _ _ Hc)
        as (evs & Ht & Ho & [([=] & _) | (_ & Hd & Hs)]).
      destruct Hs as [Hs | Hs].
      * exists evs, 0%nat, 0%nat, 1%nat. rewrite Hd, Hs, Ho. cbn.
        repeat split; try done; lia.
      * exists evs, 0%nat, 1%nat, 1%nat. rewrite Hd, Hs, Ho. cbn.
        repeat split; try done; lia.
    + destruct (process_image_log _ _ _ _ _ _ _ Hc)
        as (evs & Ht & Ho & [(_ & Hs & Hd) | ((e & [=]) & _)]).
      destruct (IH t1 H)
        as (evs' & k & ks & ko & Ht' & Hd' & Hs' & Ho' & L1 & L2 & L3 & Hr).
      exists (evs ++ evs'), (S k), (S ks), (S ko).
      rewrite Ht', Ht, <- app_assoc.
      rewrite opened_paths_app, saved_paths_app, done_lines_app,
        Ho, Hs, Hd, Ho', Hs', Hd'.
      cbn. repeat split; try done; try lia.
      destruct r; lia.
Qed.

(** X16: [process_directory] does nothing outside unless there is an
    image to process.  A path that does not resolve to a directory makes
    it raise [NotADirectoryError] with the resolved path; and a run that
    makes any call besides printing the warning (making the output
    directory, opening, loading, saving, reporting) is a run on a
    directory that lists an entry with an image suffix. *)
Theorem output_needs_an_image (h : host) (d : string) (a : batch_args)
    (t : session) :
  let dir := resolve h (trace t) d in
  (is_dir h (trace t) dir = false ->
   process_directory h d a t = (Exc (NotADirectoryError dir), t))
  /\ forall evs ev,
       trace (snd (process_directory h d a t)) = trace t ++ evs ->
       In ev evs -> ev <> EvPrint NoImagesWarning ->
       is_dir h (trace t) dir = true
       /\ exists entries n,
            iterdir h (trace t) dir = Val entries
            /\ In n entries /\ is_image_name default_exts n = true.
Proof.
  intros dir. unfold process_directory. fold dir.
  destruct (is_dir h (trace t) dir); cbn [negb].
  2: { split; [done|]. intros evs ev Ht Hi _. cbn in Ht.
       rewrite <- (app_nil_r (trace t)) in Ht at 1.
       apply app_inv_head in Ht. by subst evs. }
  split; [done|]. intros evs ev Ht Hi Hw. split; [done|].
  unfold bbind at 1, pure_call in Ht.
  destruct (iterdir h (trace t) dir) as [entries|e].
  2: { cbn in Ht. rewrite <- (app_nil_r (trace t)) in Ht at 1.
       apply app_inv_head in Ht. by subst evs. }
  destruct (iter_image_files entries default_exts) as [|n ns] eqn:Ef.
  { cbn in Ht. apply app_inv_head in Ht. subst evs.
    destruct Hi as [<- | []]. done. }
  exists entries, n. split; [done|].
  assert (Hn : In n (iter_image_files entries default_exts)).
  { rewrite Ef. by left. }
  unfold iter_image_files in Hn. by apply filter_In in Hn.
Qed.

(** X17: a directory in which no entry has an image suffix makes
    [process_directory] print its warning and return: the output
    directory is not made, nothing is opened or saved. *)
Theorem no_image_no_output (h : host) (d : string) (a : batch_args)
    (t : session) (entries : list string) :
  is_dir h (trace t) (resolve h (trace t) d) = true ->
  iterdir h (trace t) (resolve h (trace t) d) = Val entries ->
  (forall n, In n entries -> is_image_name default_exts n = false) ->
  process_directory h d a t
  = (Val tt, Session (memory t) (trace t ++ [EvPrint NoImagesWarning])).
Proof.
  intros Hd Hi Hn. unfold process_directory. rewrite Hd. cbn [negb].
  unfold bbind, pure_call. rewrite Hi.
  assert (E : iter_image_files entries default_exts = []).
  { unfold iter_image_files. clear Hi.
    induction entries as [|n ns IH]; [done|]. cbn [List.filter].
    rewrite (Hn n) by (by left). apply IH. intros m Hm. apply Hn.
    by right. }
  by rewrite E.
Qed.

(** X18: the batch stops at the first entry that fails.  With [files] the
    entries selected, there is a [k] such that the first [k] files are
    opened, saved and reported, the next one, if the run raised, is
    opened and at most handed to [save], and no later file is touched;
    the run returns exactly when [k] is the number of files. *)
Theorem batch_stops_at_first_failure (h : host) (d : string)
    (a : batch_args) (t : session) (entries : list string) :
  let dir := resolve h (trace t) d in
  let files := iter_image_files entries default_exts in
  is_dir h (trace t) dir = true ->
  iterdir h (trace t) dir = Val entries ->
  files <> [] ->
  exists r t' evs k ks ko,
    process_directory h d a t = (r, t')
    /\ trace t' = trace t ++ EvMkdir out_dir :: evs
    /\ done_lines evs = map out_name (take k files)
    /\ saved_paths evs
       = map (fun n => Path.join out_dir (out_name n)) (take ks files)
    /\ opened_paths evs = map (Path.join dir) (take ko files)
    /\ (k <= ks)%nat /\ (ks <= ko)%nat /\ (ko <= S k)%nat
    /\ match r with
       | Val _ => k = length files
       | Exc _ => (k < length files)%nat
       end.
Proof.
  intros dir files Hd Hi Hf. unfold process_directory.
  fold dir. rewrite Hd. cbn [negb]. unfold bbind at 1, pure_call.
  rewrite Hi. fold files.
  destruct files as [|n ns] eqn:Ef; [done|]. rewrite <- Ef.
  unfold bbind at 1, call at 1.
  destruct (mkdir h (trace t) out_dir) as [[]|e].
  - destruct (bfor_each files (process_image h a dir)
                (Session (memory t) (trace t ++ [EvMkdir out_dir])))
      as [r t'] eqn:E.
    destruct (batch_log _ _ _ _ _ _ _ E)
      as (evs & k & ks & ko & Ht & H).
    exists r, t', evs, k, ks, ko. split; [done|].
    cbn [trace] in Ht. rewrite Ht, <- app_assoc. by split.
  - exists (Exc e), (Session (memory t) (trace t ++ [EvMkdir out_dir])),
      [], 0%nat, 0%nat, 0%nat.
    rewrite Ef. cbn. repeat split; try done; lia.
Qed.

Lemma bfor_each_forall {A} (P : event -> Prop) (body : A -> B unit)
    (xs : list A) :
  (forall x t r t', In x xs -> body x t = (r, t') ->
     exists evs, trace t' = trace t ++ evs /\ Forall P evs) ->
  forall t r t', bfor_each xs body t = (r, t') ->
    exists evs, trace t' = trace t ++ evs /\ Forall P evs.
Proof.
  induction xs as [|x xs IH]; intros Hb t r t' H.
  - injection H as <- <-. exists []. by rewrite app_nil_r.
  - cbn [bfor_each] in H.
    apply bbind_inv in H as [(e & Hc & ->) | ([] & t1 & Hc & H)].
    + apply (Hb x t _ _ (or_introl eq_refl) Hc).
    + destruct (Hb x t _ _ (or_introl eq_refl) Hc) as (e1 & T1 & F1).
      destruct (IH (fun y t r t' Hy => Hb y t r t' (or_intror Hy))
                  t1 r t' H) as (e2 & T2 & F2).
      exists (e1 ++ e2). rewrite T2, T1, <- app_assoc. split; [done|].
      by apply Forall_app.
Qed.

(** A property of the calls of every turn of the loop is one of the
    calls of the whole run. *)
Lemma process_directory_forall (P : event -> Prop) (h : host) (d : string)
    (a : batch_args) (t : session) :
  P (EvPrint NoImagesWarning) -> P (EvMkdir out_dir) ->
  (forall n t1 r1 t1',
     is_image_name default_exts n = true ->
     process_image h a (resolve h (trace t) d) n t1 = (r1, t1') ->
     exists evs, trace t1' = trace t1 ++ evs /\ Forall P evs) ->
  exists evs,
    trace (snd (process_directory h d a t)) = trace t ++ evs
    /\ Forall P evs.
Proof.
  intros Pw Pm Pb. unfold process_directory.
  destruct (is_dir h (trace t) (resolve h (trace t) d)); cbn [negb].
  2: { exists []. by rewrite app_nil_r. }
  unfold bbind at 1, pure_call.
  destruct (iterdir h (trace t) (resolve h (trace t) d)) as [entries|e].
  2: { exists []. by rewrite app_nil_r. }
  destruct (iter_image_files entries default_exts) as [|n ns] eqn:Ef.
  { exists [EvPrint NoImagesWarning]. split; [done|]. by constructor. }
  rewrite <- Ef. unfold bbind at 1, call at 1.
  destruct (mkdir h (trace t) out_dir) as [[]|e].
  2: { exists [EvMkdir out_dir]. split; [done|]. by constructor. }
  destruct (bfor_each _ _ _) as [r t'] eqn:E.
  eapply bfor_each_forall in E as (evs & Ht & F).
  - exists (EvMkdir out_dir :: evs). cbn [snd trace] in *.
    rewrite Ht, <- app_assoc. split; [done|]. by constructor.
  - intros x t1 r1 t1' Hx. apply Pb.
    unfold iter_image_files in Hx. by apply filter_In in Hx as [_ Hx].
Qed.

Lemma process_image_saves (h : host) (a : batch_args) (dir n : string)
    (t t' : session) (r : res unit) :
  is_image_name default_exts n = true ->
  process_image h a dir n t = (r, t') ->
  exists evs, trace t' = trace t ++ evs /\ Forall (save_of h dir a) evs.
Proof.
  intros Hn H.
  destruct (process_image_inv _ _ _ _ _ _ _ H)
    as (fonts & tail & Ht & Hf & Hr).
  exists (EvOpen (Path.join dir n) :: fonts ++ tail). split; [done|].
  constructor; [done|]. apply Forall_app. split.
  - destruct Hf as [-> | (o & s & sz & _ & _ & _ & _ & F)]; [done|].
    eapply Forall_impl; [exact F|]. by intros ev (p & ->).
  - destruct Hr as [(-> & _) | (o & s & f & mg & ov & Ho & Hs & _ & Hq & Hr)];
      [done|].
    assert (S : save_of h dir a
             (EvSave (Path.join out_dir (out_name n))
                (convert_rgb_image
                   (Pillow.composite_image
                      (Pillow.convert_rgba_image s) ov)) 95)).
    { cbn [save_of]. split; [done|]. split; [done|].
      exists n, (trace t), o, s. repeat (split; [done|]).
      intros Hop Hsh x y.
      assert (Ha : alpha_zero ov).
      { apply Hq. split; [done|]. exact Hop. }
      cbn [convert_rgb_image Pillow.composite_image
           Pillow.convert_rgba_image im_px im_mode Pillow.to_rgba].
      unfold Pillow.over. by rewrite (Ha x y). }
    destruct Hr as [(-> & _) | (-> & _)].
    + constructor; [exact S | constructor].
    + constructor; [exact S|]. constructor; [done | constructor].
Qed.

Lemma saves_described (h : host) (d : string) (a : batch_args)
    (t : session) :
  exists evs,
    trace (snd (process_directory h d a t)) = trace t ++ evs
    /\ Forall (save_of h (resolve h (trace t) d) a) evs.
Proof.
  apply process_directory_forall; [done | done |].
  intros n t1 r1 t1' Hn H. by eapply process_image_saves.
Qed.

(** X19: whatever happens in a run, every image it hands to [save] is an
    RGB image, saved with quality 95 under [output/<stem>_wm<suffix>] for
    an entry with an image suffix, and has the width and height of the
    image that entry was opened and transposed to. *)
Theorem saves_are_rgb_copies (h : host) (d : string) (a : batch_args)
    (t : session) :
  exists evs,
    trace (snd (process_directory h d a t)) = trace t ++ evs
    /\ forall p im q, In (EvSave p im q) evs ->
         q = 95 /\ im_mode im = ModeRGB
         /\ exists n past opened src,
              p = Path.join out_dir (out_name n)
              /\ is_image_name default_exts n = true
              /\ open_image h past (Path.join (resolve h (trace t) d) n)
                 = Val opened
              /\ exif_transpose h opened = Val src
              /\ im_width im = im_width src
              /\ im_height im = im_height src.
Proof.
  destruct (saves_described h d a t) as (evs & Ht & F).
  exists evs. split; [done|]. intros p im q Hi.
  rewrite List.Forall_forall in F. specialize (F _ Hi). cbn in F.
  destruct F as (-> & Hm & n & past & o & s & -> & Hn & Ho & Hs & Hw & Hh & _).
  split; [done|]. split; [done|]. by exists n, past, o, s.
Qed.

(** X20: with opacity 0 and shadow alpha 0 every image handed to [save]
    has, pixel for pixel, the colours of the image its entry was opened
    and transposed to, the alpha band dropped. *)
Theorem invisible_watermark_saves_source (h : host) (d : string)
    (a : batch_args) (t : session) :
  b_opacity a = 0 -> shadow_alpha (b_sty a) = 0 ->
  exists evs,
    trace (snd (process_directory h d a t)) = trace t ++ evs
    /\ forall p im q, In (EvSave p im q) evs ->
         exists n past opened src,
           p = Path.join out_dir (out_name n)
           /\ open_image h past (Path.join (resolve h (trace t) d) n)
              = Val opened
           /\ exif_transpose h opened = Val src
           /\ forall x y,
                im_px im x y = im_px (convert_rgb_image src) x y.
Proof.
  intros Hop Hsh.
  destruct (saves_described h d a t) as (evs & Ht & F).
  exists evs. split; [done|]. intros p im q Hi.
  rewrite List.Forall_forall in F. specialize (F _ Hi). cbn in F.
  destruct F as (_ & _ & n & past & o & s & -> & _ & Ho & Hs & _ & _ & Hpx).
  exists n, past, o, s. repeat (split; [done|]). by apply Hpx.
Qed.

Lemma process_image_fonts (h : host) (a : batch_args) (dir n : string)
    (t t' : session) (r : res unit) (sz : Z) :
  b_font_size a = Some sz -> sz <> 0 ->
  process_image h a dir n t = (r, t') ->
  exists evs,
    trace t' = trace t ++ evs
    /\ Forall (fun ev => match ev with
                         | EvTruetype _ s => s = sz
                         | _ => True
                         end) evs.
Proof.
  intros Hz Hnz H.
  destruct (process_image_inv _ _ _ _ _ _ _ H)
    as (fonts & tail & Ht & Hf & Hr).
  exists (EvOpen (Path.join dir n) :: fonts ++ tail). split; [done|].
  constructor; [done|]. apply Forall_app. split.
  - destruct Hf as [-> | (o & s & sz' & _ & _ & Hs & _ & F)]; [done|].
    unfold font_size_for, fixed_size in Hs. rewrite Hz in Hs.
    destruct (Z.eqb_spec sz 0); [done|]. injection Hs as <-.
    eapply Forall_impl; [exact F|]. by intros ev (p & ->).
  - destruct Hr as [(-> & _)
                   | (o & s & f & mg & ov & _ & _ & _ & _
                      & [(-> & _) | (-> & _)])];
      repeat constructor; done.
Qed.

(** X21: with a font size given and not 0, every font the batch asks for
    is asked at that size, whatever the sizes of the images, the ratio
    and the fit. *)
Theorem fixed_font_size_everywhere (h : host) (d : string)
    (a : batch_args) (t : session) (sz : Z) :
  b_font_size a = Some sz -> sz <> 0 ->
  exists evs,
    trace (snd (process_directory h d a t)) = trace t ++ evs
    /\ Forall (eq sz) (font_sizes evs).
Proof.
  intros Hz Hnz.
  destruct (process_directory_forall
              (fun ev => match ev with
                         | EvTruetype _ s => s = sz
                         | _ => True
                         end) h d a t) as (evs & Ht & F); [done | done | |].
  { intros n t1 r1 t1' _ H. by eapply process_image_fonts. }
  exists evs. split; [done|]. clear Ht.
  induction F as [|ev evs Hev _ IH]; [constructor|].
  unfold font_sizes in *. cbn [flat_map].
  destruct ev; cbn [app]; try done. by constructor.
Qed.

(** X22: without a font size (none, or 0) a [fit] that is none of the
    five names makes the run raise [KeyError] at the first image: the
    output directory is made and the image opened, and nothing is
    loaded, saved or printed. *)
Theorem unknown_fit_raises (h : host) (d : string) (a : batch_args)
    (t : session) (entries rest : list string) (first : string)
    (opened src : image) (dg : Z) :
  let dir := resolve h (trace t) d in
  is_dir h (trace t) dir = true ->
  iterdir h (trace t) dir = Val entries ->
  iter_image_files entries default_exts = first :: rest ->
  mkdir h (trace t) out_dir = Val tt ->
  open_image h (trace t ++ [EvMkdir out_dir]) (Path.join dir first)
  = Val opened ->
  exif_transpose h opened = Val src ->
  b_font_size a = None \/ b_font_size a = Some 0 ->
  diagonal (Z.of_N (im_width src)) (Z.of_N (im_height src)) = Ok dg ->
  ~ In (b_fit a) ["width"; "height"; "long"; "short"; "diag"]%string ->
  process_directory h d a t
  = (Exc (KeyError (b_fit a)),
     Session (World (images (memory t) ++ [src]) (drawn (memory t)))
       (trace t ++ [EvMkdir out_dir; EvOpen (Path.join dir first)])).
Proof.
  intros dir Hd Hi Hf Hm Ho Hs Hz Hg Hfit.
  unfold process_directory. fold dir. rewrite Hd. cbn [negb].
  unfold bbind at 1, pure_call. rewrite Hi, Hf.
  unfold bbind at 1, call at 1. rewrite Hm.
  cbn [bfor_each]. unfold bbind at 1. unfold process_image.
  unfold bbind at 1, call at 1. cbn [trace memory]. rewrite Ho.
  unfold bbind at 1, pure_call at 1. rewrite Hs.
  unfold bbind at 1, in_memory at 1, alloc. cbn [memory trace of_result].
  unfold bbind at 1, pure_call at 1.
  assert (E : font_size_for a (Z.of_N (im_width src))
                (Z.of_N (im_height src)) = Exc (KeyError (b_fit a))).
  { unfold font_size_for.
    assert (fixed_size (b_font_size a) = None) as ->.
    { by destruct Hz as [-> | ->]. }
    rewrite Hg. cbn [of_result rbind].
    destruct (String.eqb_spec (b_fit a) "width") as [E|_];
      [exfalso; apply Hfit; rewrite E; cbn; tauto|].
    destruct (String.eqb_spec (b_fit a) "height") as [E|_];
      [exfalso; apply Hfit; rewrite E; cbn; tauto|].
    destruct (String.eqb_spec (b_fit a) "long") as [E|_];
      [exfalso; apply Hfit; rewrite E; cbn; tauto|].
    destruct (String.eqb_spec (b_fit a) "short") as [E|_];
      [exfalso; apply Hfit; rewrite E; cbn; tauto|].
    destruct (String.eqb_spec (b_fit a) "diag") as [E|_];
      [exfalso; apply Hfit; rewrite E; cbn; tauto|].
    done. }
  rewrite E. by rewrite <- app_assoc.
Qed.

Lemma process_image_ok (h : host) (a : batch_args) (f : font)
    (dir n p : string) (sz : Z) (t : session) :
  b_font_size a = Some sz -> sz <> 0 ->
  b_font_path a = Some p -> p <> ""%string ->
  (forall past, truetype h past p sz = Val f) ->
  (forall past path im, save h past path im = Val tt) ->
  valid_mode (b_mode a) ->
  readable h a f dir n ->
  exists t', process_image h a dir n t = (Val tt, t').
Proof.
  intros Hz Hnz Hp Hpn Ht Hsv Hm (opened & src & mg & Ho & Hs & Hg & Hn).
  unfold process_image.
  unfold bbind at 1, call at 1. rewrite Ho.
  unfold bbind at 1, pure_call at 1. rewrite Hs.
  unfold bbind at 1, in_memory at 1, alloc. cbn [memory trace of_result].
  unfold bbind at 1, pure_call at 1.
  assert (font_size_for a (Z.of_N (im_width src)) (Z.of_N (im_height src))
          = Val sz) as ->.
  { unfold font_size_for, fixed_size. rewrite Hz.
    by destruct (Z.eqb_spec sz 0). }
  unfold bbind at 1. rewrite Hp. unfold load_font. cbn [given_path].
  destruct (String.eqb_spec p ""); [done|].
  cbn [app]. rewrite try_fonts_cons. cbn zeta. rewrite Ht.
  cbn [memory trace].
  unfold bbind at 1, pure_call at 1. rewrite Hg. cbn [of_result].
  set (s0 := World (images (memory t) ++ [src]) (drawn (memory t))).
  assert (Hl : images s0 !! length (images (memory t)) = Some src).
  { unfold s0. cbn [images]. by apply list_lookup_middle. }
  destruct (placement_total (Z.of_N (im_width src)) (Z.of_N (im_height src))
              (watermark_params a f mg) Hm Hn) as (anchors & Hpl).
  destruct (run_ok (host_rot h) (host_blur h) _ _ s0 src anchors Hl Hpl)
    as (rl & s' & ov & E & _ & Hr & _).
  unfold bbind at 1, in_memory at 1. cbn [memory trace]. rewrite E.
  cbn [of_result].
  unfold bbind at 1, in_memory at 1, load. cbn [memory trace]. rewrite Hr.
  cbn [of_result].
  unfold bbind at 1, in_memory at 1, alloc. cbn [memory trace of_result].
  unfold bbind at 1, call at 1. rewrite Hsv. unfold call.
  by eexists.
Qed.

Lemma loop_ok (h : host) (a : batch_args) (f : font) (dir p : string)
    (sz : Z) (files : list string) :
  b_font_size a = Some sz -> sz <> 0 ->
  b_font_path a = Some p -> p <> ""%string ->
  (forall past, truetype h past p sz = Val f) ->
  (forall past path im, save h past path im = Val tt) ->
  valid_mode (b_mode a) ->
  (forall n, In n files -> readable h a f dir n) ->
  forall t, exists t',
    bfor_each files (process_image h a dir) t = (Val tt, t').
Proof.
  intros Hz Hnz Hp Hpn Ht Hsv Hm.
  induction files as [|n ns IH]; intros Hr t.
  - by eexists.
  - cbn [bfor_each]. unfold bbind.
    destruct (process_image_ok h a f dir n p sz t Hz Hnz Hp Hpn Ht Hsv Hm)
      as (t1 & ->); [apply Hr; by left|].
    apply IH. intros m Hm'. apply Hr. by right.
Qed.

(** X23: a batch completes when nothing outside fails.  With a font size
    and a font path given, the font loading, the output directory made,
    every save accepted, a valid mode, and every selected entry opening
    to an image for which the margin and non-zero steps are computed,
    [process_directory] returns, and has opened, saved and reported
    every selected entry, in the order of the directory. *)
Theorem batch_completes (h : host) (d : string) (a : batch_args)
    (t : session) (entries : list string) (f : font) (p : string)
    (sz : Z) :
  let dir := resolve h (trace t) d in
  let files := iter_image_files entries default_exts in
  is_dir h (trace t) dir = true ->
  iterdir h (trace t) dir = Val entries ->
  mkdir h (trace t) out_dir = Val tt ->
  (forall past path im, save h past path im = Val tt) ->
  b_font_size a = Some sz -> sz <> 0 ->
  b_font_path a = Some p -> p <> ""%string ->
  (forall past, truetype h past p sz = Val f) ->
  valid_mode (b_mode a) ->
  (forall n, In n files -> readable h a f dir n) ->
  exists t' evs,
    process_directory h d a t = (Val tt, t')
    /\ trace t' = trace t ++ evs
    /\ opened_paths evs = map (Path.join dir) files
    /\ saved_paths evs
       = map (fun n => Path.join out_dir (out_name n)) files
    /\ done_lines evs = map out_name files.
Proof.
  intros dir files Hd Hi Hk Hsv Hz Hnz Hp Hpn Ht Hm Hr. subst files.
  unfold process_directory. fold dir. rewrite Hd. cbn [negb].
  unfold bbind at 1, pure_call. rewrite Hi.
  destruct (iter_image_files entries default_exts) as [|n ns].
  { eexists _, [EvPrint NoImagesWarning]. by split. }
  unfold bbind at 1, call at 1. rewrite Hk.
  destruct (loop_ok h a f dir p sz (n :: ns) Hz Hnz Hp Hpn Ht Hsv Hm Hr
              (Session (memory t) (trace t ++ [EvMkdir out_dir])))
    as (t' & E).
  rewrite E.
  destruct (batch_log _ _ _ _ _ _ _ E)
    as (evs & k & ks & ko & Ht' & Hdn & Hs & Ho & L1 & L2 & L3 & ->).
  exists t', (EvMkdir out_dir :: evs). split; [done|].
  cbn [trace] in Ht'. rewrite Ht', <- app_assoc. split; [done|].
  by rewrite take_ge in Hdn, Hs, Ho by lia.
Qed.

Lemma font_given : "font.ttf"%string <> ""%string.
Proof. discriminate. Defined.

Lemma studio_fonts_load (entries : list string) (past : list event)
    (p : string) (size : Z) (e : py_exn) :
  truetype (studio entries) past p size = Exc e -> is_oserror e = false.
Proof. discriminate. Defined.

Lemma explicit_font_example :
  "font.ttf"%string <> ""%string
  /\ (forall e, truetype (studio holiday) (trace fresh) "font.ttf" 40 = Exc e
                -> is_oserror e = false)
  /\ load_font (studio holiday) 40 (Some "font.ttf"%string) fresh
     = (Val (box_font 50 20),
        Session (World [] []) [EvTruetype "font.ttf" 40]).
Proof.
  split; [exact font_given|].
  split; [exact (studio_fonts_load holiday (trace fresh) "font.ttf" 40)|].
  exact (explicit_font_decides (studio holiday) 40 "font.ttf" fresh
           font_given (studio_fonts_load holiday (trace fresh) "font.ttf" 40)).
Defined.

Lemma font_fallback_example :
  (@None string = None \/ @None string = Some ""%string
   \/ exists p e, @None string = Some p
        /\ truetype (studio holiday) (trace fresh) p 40 = Exc e
        /\ is_oserror e = true)
  /\ load_font (studio holiday) 40 None fresh
     = (Val (box_font 50 20),
        Session (World [] []) [EvTruetype bundled_font 40]).
Proof.
  split; [by left|].
  exact (font_fallback (studio holiday) 40 None fresh (or_introl eq_refl)).
Defined.

Lemma holiday_distinct : List.NoDup holiday.
Proof.
  unfold holiday. repeat constructor; cbn; intuition discriminate.
Defined.

Lemma output_names_example :
  List.NoDup holiday
  /\ List.NoDup (map out_name (iter_image_files holiday default_exts))
  /\ forall n, In n (iter_image_files holiday default_exts) ->
               out_name n <> n.
Proof.
  split; [exact holiday_distinct|].
  exact (output_names_distinct holiday holiday_distinct).
Defined.

Lemma no_image_there :
  forall n, In n clutter -> is_image_name default_exts n = false.
Proof.
  intros n [<- | [<- | [<- | [<- | []]]]]; reflexivity.
Defined.

Lemma no_image_example :
  is_dir (studio clutter) (trace fresh)
    (resolve (studio clutter) (trace fresh)
       "/pics") = true
  /\ iterdir (studio clutter) (trace fresh)
       (resolve (studio clutter)
          (trace fresh) "/pics")
     = Val clutter
  /\ (forall n, In n clutter ->
                is_image_name default_exts n = false)
  /\ process_directory (studio clutter)
       "/pics" default_args fresh
     = (Val tt, Session (World [] []) [EvPrint NoImagesWarning]).
Proof.
  split; [reflexivity|]. split; [reflexivity|].
  split; [exact no_image_there|].
  exact (no_image_no_output (studio clutter)
           "/pics" default_args fresh _ eq_refl eq_refl no_image_there).
Defined.

Lemma holiday_has_images : iter_image_files holiday default_exts <> [].
Proof. discriminate. Defined.

Lemma batch_stops_example :
  is_dir (studio holiday) (trace fresh)
    (resolve (studio holiday) (trace fresh) "/pics") = true
  /\ iterdir (studio holiday) (trace fresh)
       (resolve (studio holiday) (trace fresh) "/pics") = Val holiday
  /\ iter_image_files holiday default_exts <> []
  /\ exists r t' evs k ks ko,
       process_directory (studio holiday) "/pics" default_args fresh
       = (r, t')
       /\ trace t' = trace fresh ++ EvMkdir out_dir :: evs
       /\ done_lines evs
          = map out_name (take k (iter_image_files holiday default_exts))
       /\ saved_paths evs
          = map (fun n => Path.join out_dir (out_name n))
              (take ks (iter_image_files holiday default_exts))
       /\ opened_paths evs
          = map (Path.join (resolve (studio holiday) (trace fresh) "/pics"))
              (take ko (iter_image_files holiday default_exts))
       /\ (k <= ks)%nat /\ (ks <= ko)%nat /\ (ko <= S k)%nat
       /\ match r with
          | Val _ => k = length (iter_image_files holiday default_exts)
          | Exc _ =>
              (k < length (iter_image_files holiday default_exts))%nat
          end.
Proof.
  split; [reflexivity|]. split; [reflexivity|].
  split; [exact holiday_has_images|].
  exact (batch_stops_at_first_failure (studio holiday) "/pics" default_args
           fresh holiday eq_refl eq_refl holiday_has_images).
Defined.

Lemma invisible_watermark_example :
  b_opacity invisible_args = 0
  /\ shadow_alpha (b_sty invisible_args) = 0
  /\ exists evs,
       trace (snd (process_directory (studio holiday) "/pics"
                     invisible_args fresh)) = trace fresh ++ evs
       /\ forall p im q, In (EvSave p im q) evs ->
            exists n past opened src,
              p = Path.join out_dir (out_name n)
              /\ open_image (studio holiday) past
                   (Path.join (resolve (studio holiday) (trace fresh)
                                 "/pics") n) = Val opened
              /\ exif_transpose (studio holiday) opened = Val src
              /\ forall x y,
                   im_px im x y = im_px (convert_rgb_image src) x y.
Proof.
  split; [reflexivity|]. split; [reflexivity|].
  exact (invisible_watermark_saves_source (studio holiday) "/pics"
           invisible_args fresh eq_refl eq_refl).
Defined.

Lemma forty_not_zero : 40 <> 0.
Proof. discriminate. Defined.

Lemma fixed_font_size_example :
  b_font_size sized_args = Some 40
  /\ 40 <> 0
  /\ exists evs,
       trace (snd (process_directory (studio holiday) "/pics" sized_args
                     fresh)) = trace fresh ++ evs
       /\ Forall (eq 40) (font_sizes evs).
Proof.
  split; [reflexivity|]. split; [exact forty_not_zero|].
  exact (fixed_font_size_everywhere (studio holiday) "/pics" sized_args
           fresh 40 eq_refl forty_not_zero).
Defined.

Lemma area_is_no_fit :
  ~ In (b_fit odd_fit_args)
       ["width"; "height"; "long"; "short"; "diag"]%string.
Proof. cbn. intuition discriminate. Defined.

Lemma photo_diagonal : diagonal 200 100 = Ok 223.
Proof. vm_compute. reflexivity. Defined.

Lemma unknown_fit_example :
  is_dir (studio holiday) (trace fresh)
    (resolve (studio holiday) (trace fresh) "/pics") = true
  /\ iterdir (studio holiday) (trace fresh)
       (resolve (studio holiday) (trace fresh) "/pics") = Val holiday
  /\ iter_image_files holiday default_exts = ["a.png"; "b.JPG"]%string
  /\ mkdir (studio holiday) (trace fresh) out_dir = Val tt
  /\ open_image (studio holiday) (trace fresh ++ [EvMkdir out_dir])
       (Path.join (resolve (studio holiday) (trace fresh) "/pics") "a.png")
     = Val (plain ModeRGB 200 100)
  /\ exif_transpose (studio holiday) (plain ModeRGB 200 100)
     = Val (plain ModeRGB 200 100)
  /\ (b_font_size odd_fit_args = None \/ b_font_size odd_fit_args = Some 0)
  /\ diagonal 200 100 = Ok 223
  /\ ~ In (b_fit odd_fit_args)
          ["width"; "height"; "long"; "short"; "diag"]%string
  /\ process_directory (studio holiday) "/pics" odd_fit_args fresh
     = (Exc (KeyError "area"),
        Session (World [plain ModeRGB 200 100] [])
          [EvMkdir "output"; EvOpen "/pics/a.png"]).
Proof.
  split; [reflexivity|]. split; [reflexivity|]. split; [reflexivity|].
  split; [reflexivity|]. split; [reflexivity|]. split; [reflexivity|].
  split; [by left|]. split; [exact photo_diagonal|].
  split; [exact area_is_no_fit|].
  exact (unknown_fit_raises (studio holiday) "/pics" odd_fit_args fresh
           holiday ["b.JPG"%string] "a.png" (plain ModeRGB 200 100)
           (plain ModeRGB 200 100) 223 eq_refl eq_refl eq_refl eq_refl
           eq_refl eq_refl (or_introl eq_refl) photo_diagonal
           area_is_no_fit).
Defined.

Lemma corner_is_valid : valid_mode (b_mode sized_args).
Proof. by left. Defined.

Lemma photo_margin :
  scaled (Z.max 200 100) (b_margin_ratio sized_args) = Ok 4.
Proof. vm_compute. reflexivity. Defined.

Lemma holiday_readable :
  forall n, In n (iter_image_files holiday default_exts) ->
    readable (studio holiday) sized_args (box_font 50 20)
      (resolve (studio holiday) (trace fresh) "/pics") n.
Proof.
  intros n _. exists (plain ModeRGB 200 100), (plain ModeRGB 200 100), 4.
  split; [reflexivity|]. split; [reflexivity|].
  split; [exact photo_margin|].
  split; discriminate.
Defined.

Lemma batch_completes_example :
  is_dir (studio holiday) (trace fresh)
    (resolve (studio holiday) (trace fresh) "/pics") = true
  /\ iterdir (studio holiday) (trace fresh)
       (resolve (studio holiday) (trace fresh) "/pics") = Val holiday
  /\ mkdir (studio holiday) (trace fresh) out_dir = Val tt
  /\ (forall past path im, save (studio holiday) past path im = Val tt)
  /\ b_font_size sized_args = Some 40
  /\ 40 <> 0
  /\ b_font_path sized_args = Some "font.ttf"%string
  /\ "font.ttf"%string <> ""%string
  /\ (forall past,
        truetype (studio holiday) past "font.ttf" 40 = Val (box_font 50 20))
  /\ valid_mode (b_mode sized_args)
  /\ (forall n, In n (iter_image_files holiday default_exts) ->
        readable (studio holiday) sized_args (box_font 50 20)
          (resolve (studio holiday) (trace fresh) "/pics") n)
  /\ exists t' evs,
       process_directory (studio holiday) "/pics" sized_args fresh
       = (Val tt, t')
       /\ trace t' = trace fresh ++ evs
       /\ opened_paths evs = ["/pics/a.png"; "/pics/b.JPG"]%string
       /\ saved_paths evs = ["output/a_wm.png"; "output/b_wm.JPG"]%string
       /\ done_lines evs = ["a_wm.png"; "b_wm.JPG"]%string.
Proof.
  split; [reflexivity|]. split; [reflexivity|]. split; [reflexivity|].
  split; [reflexivity|]. split; [reflexivity|].
  split; [exact forty_not_zero|]. split; [reflexivity|].
  split; [exact font_given|]. split; [reflexivity|].
  split; [exact corner_is_valid|]. split; [exact holiday_readable|].
  exact (batch_completes (studio holiday) "/pics" sized_args fresh holiday
           (box_font 50 20) "font.ttf" 40 eq_refl eq_refl eq_refl
           (fun _ _ _ => eq_refl) eq_refl forty_not_zero eq_refl font_given
           (fun _ => eq_refl) corner_is_valid holiday_readable).
Defined.

(* ===================================================================== *)
(** ** The text calls of a run, exactly *)
(* ===================================================================== *)

Lemma run_calls_app n base txt fill st a1 a2 :
  run_calls n base txt fill st (a1 ++ a2)
  = run_calls n base txt fill st a1
    ++ run_calls (n + length a1 * paint_allocs st)%nat base txt fill st a2.
Proof.
  revert n. induction a1 as [|pos a1 IH]; intros n.
  - cbn. by rewrite Nat.add_0_r.
  - cbn [app run_calls length]. rewrite IH, <- app_assoc.
    do 3 f_equal. lia.
Qed.

Lemma exactly_nil base txt fill st s :
  valid_rgba base s -> draws_exactly base txt fill st s s [].
Proof.
  intros Hv. split; [by rewrite app_nil_r|]. split; [cbn; lia | done].
Qed.

Lemma exactly_app base txt fill st s1 s2 s3 a1 a2 :
  draws_exactly base txt fill st s1 s2 a1 ->
  draws_exactly base txt fill st s2 s3 a2 ->
  draws_exactly base txt fill st s1 s3 (a1 ++ a2).
Proof.
  intros (D1 & L1 & _) (D2 & L2 & V). split; [|split; [|done]].
  - by rewrite D2, D1, L1, run_calls_app, app_assoc.
  - rewrite L2, L1, length_app. lia.
Qed.

Section ExactCalls.

Variable rot_src : N * N -> Z * Z -> Z * Z.

Variable blur_px : Z -> image -> Z -> Z -> pixel.

Lemma paint_exactly base pos txt f fill st s :
  valid_rgba base s ->
  exists s',
    paint_shadowed_text blur_px base pos txt f fill st s = (Ok tt, s')
    /\ draws_exactly base txt fill st s s' [pos].
Proof.
  intros (im & Hb & Hm).
  destruct (paint_exact blur_px base pos txt f fill st s im Hb Hm)
    as (s' & E & Hb' & Hd & Hl & _).
  exists s'. split; [exact E|]. split; [|split].
  - cbn [run_calls]. by rewrite app_nil_r.
  - rewrite Hl. cbn. lia.
  - eexists. split; [exact Hb'|].
    destruct (painted_image_shape blur_px f txt pos fill st im) as (<- & _).
    exact Hm.
Qed.

Lemma for_each_exactly {A} base txt fill st (body : A -> M unit)
    (h : A -> list (Z * Z)) (xs : list A) :
  (forall x s, valid_rgba base s ->
     exists s', body x s = (Ok tt, s')
                /\ draws_exactly base txt fill st s s' (h x)) ->
  forall s, valid_rgba base s ->
    exists s', for_each xs body s = (Ok tt, s')
               /\ draws_exactly base txt fill st s s' (flat_map h xs).
Proof.
  intros Hbody. induction xs as [|x xs IH]; intros s Hv.
  - exists s. split; [done | by apply exactly_nil].
  - destruct (Hbody x s Hv) as (s1 & E1 & P1).
    destruct (IH s1 (proj2 (proj2 P1))) as (s2 & E2 & P2).
    exists s2. split.
    + cbn. unfold bind. by rewrite E1.
    + apply (exactly_app _ _ _ _ _ _ _ _ _ P1 P2).
Qed.

(** The two nested loops of the tiling modes make exactly the calls of
    painting at the anchors of [grid], row by row. *)
Lemma loops_exactly base txt f fill st x0 x1 sx y0 y1 sy s :
  valid_rgba base s ->
  exists s',
    for_range y0 y1 sy (fun yy =>
      for_range x0 x1 sx (fun xx =>
        paint_shadowed_text blur_px base (xx, yy) txt f fill st)) s
    = (match grid x0 x1 sx y0 y1 sy with
       | Ok _ => Ok tt
       | Raise e => Raise e
       end, s')
    /\ draws_exactly base txt fill st s s'
         (match grid x0 x1 sx y0 y1 sy with Ok a => a | Raise _ => [] end).
Proof.
  intros Hv. unfold for_range, grid. unfold bind at 1, lift at 1.
  destruct (py_range y0 y1 sy) as [ys|e].
  2: { exists s. split; [done | by apply exactly_nil]. }
  destruct ys as [|y ys].
  { exists s. split; [done | by apply exactly_nil]. }
  destruct (py_range x0 x1 sx) as [xs|e] eqn:Hx.
  - apply for_each_exactly; [|done].
    intros yy s1 Hv1. unfold bind, lift.
    rewrite <- flat_map_singleton.
    apply for_each_exactly; [|done].
    intros xx s2 Hv2. by apply paint_exactly.
  - exists s. split; [|by apply exactly_nil].
    cbn. unfold bind, lift. done.
Qed.

(** Converting, rotating and compositing draw no text. *)
Lemma bind_keeps {A B} (c : M A) (k : A -> M B) :
  (forall s, drawn (snd (c s)) = drawn s) ->
  (forall a s, drawn (snd (k a s)) = drawn s) ->
  forall s, drawn (snd (bind c k s)) = drawn s.
Proof.
  intros Hc Hk s. unfold bind. specialize (Hc s).
  destruct (c s) as [[a|e] s1]; cbn [snd] in *; [|done].
  by rewrite Hk.
Qed.

Lemma load_keeps (l : loc) (s : world) : drawn (snd (load l s)) = drawn s.
Proof. unfold load. by destruct (images s !! l). Qed.

Lemma composite_keeps (l1 l2 : loc) (s : world) :
  drawn (snd (Pillow.alpha_composite l1 l2 s)) = drawn s.
Proof.
  revert s. unfold Pillow.alpha_composite.
  apply bind_keeps; [apply load_keeps|]. intros a.
  apply bind_keeps; [apply load_keeps|]. intros b.
  apply bind_keeps; [done|]. done.
Qed.

Lemma convert_keeps (l : loc) (s : world) :
  drawn (snd (Pillow.convert_rgba l s)) = drawn s.
Proof.
  revert s. unfold Pillow.convert_rgba.
  apply bind_keeps; [apply load_keeps | done].
Qed.

Lemma rotate_keeps (l : loc) (s : world) :
  drawn (snd (Pillow.rotate45 rot_src l s)) = drawn s.
Proof.
  revert s. unfold Pillow.rotate45.
  apply bind_keeps; [apply load_keeps | done].
Qed.

Lemma finish_drawn (img ov : loc) (s : world) :
  drawn (snd ((converted <- Pillow.convert_rgba img ;;
               Pillow.alpha_composite converted ov) s)) = drawn s.
Proof.
  revert s. apply bind_keeps; [apply convert_keeps|].
  intros c. apply composite_keeps.
Qed.

Lemma rotate_finish_drawn (img ov tl : loc) (s : world) :
  drawn (snd ((overlay <- (rotated <- Pillow.rotate45 rot_src tl ;;
                           Pillow.alpha_composite ov rotated) ;;
               converted <- Pillow.convert_rgba img ;;
               Pillow.alpha_composite converted overlay) s)) = drawn s.
Proof.
  revert s. apply bind_keeps.
  - apply bind_keeps; [apply rotate_keeps|]. intros r. apply composite_keeps.
  - intros o s. apply finish_drawn.
Qed.

Lemma then_finish_drawn (img : loc) (c : M loc) (s : world) :
  drawn (snd ((overlay <- c ;;
               converted <- Pillow.convert_rgba img ;;
               Pillow.alpha_composite converted overlay) s))
  = drawn (snd (c s)).
Proof.
  unfold bind at 1. destruct (c s) as [[a|e] s1]; [|done].
  apply finish_drawn.
Qed.

(** The text calls of a whole run: those of painting, at the anchors of
    [placement] in turn, onto the canvas, the scratch layers coming after
    it. *)
Lemma run_drawn (img : loc) (p : params) (s0 : world) (im0 : image) :
  images s0 !! img = Some im0 ->
  drawn (snd (add_watermark_to_image rot_src blur_px img p s0))
  = drawn s0
    ++ run_calls (S (canvas (length (images s0)) p))
         (canvas (length (images s0)) p) (text p) (fill_of p) (sty p)
         (match placement (Z.of_N (im_width im0)) (Z.of_N (im_height im0)) p
          with
          | Ok a => a
          | Raise _ => []
          end).
Proof.
  intros Hi.
  unfold add_watermark_to_image, placement, canvas.
  unfold bind at 1. rewrite (size_ok _ _ _ Hi).
  unfold bind at 1. unfold Pillow.new at 1. rewrite alloc_ok.
  cbn [fst snd].
  set (n0 := length (images s0)) in *.
  set (w := Z.of_N (im_width im0)) in *.
  set (h := Z.of_N (im_height im0)) in *.
  set (sz := (im_width im0, im_height im0)).
  set (s1 := World _ _).
  assert (Hv : valid_rgba n0 s1).
  { eexists. split; [apply lookup_snoc_new | done]. }
  assert (Hlen1 : length (images s1) = S n0).
  { cbn. rewrite length_app. cbn. unfold n0. lia. }
  destruct (text_size (fnt p) (text p)) as [tw th].
  rewrite then_finish_drawn.
  destruct (String.eqb (mode p) "bottom-right") eqn:M1.
  { apply String.eqb_eq in M1. rewrite M1. cbn [String.eqb Ascii.eqb Bool.eqb].
    destruct (paint_exactly n0 (w - tw - margin p, h - th - margin p)
                (text p) (fnt p) (fill_of p) (sty p) s1 Hv)
      as (s2 & E2 & D2 & _).
    unfold bind, ret. unfold fill_of in E2. rewrite E2. cbn [snd].
    by rewrite D2, Hlen1. }
  destruct (String.eqb (mode p) "center") eqn:M2.
  { apply String.eqb_eq in M2. rewrite M2. cbn [String.eqb Ascii.eqb Bool.eqb].
    destruct (paint_exactly n0 ((w - tw) / 2, (h - th) / 2)
                (text p) (fnt p) (fill_of p) (sty p) s1 Hv)
      as (s2 & E2 & D2 & _).
    unfold bind, ret. unfold fill_of in E2. rewrite E2. cbn [snd].
    by rewrite D2, Hlen1. }
  destruct (String.eqb (mode p) "tile") eqn:M3.
  { apply String.eqb_eq in M3. rewrite M3. cbn [String.eqb Ascii.eqb Bool.eqb].
    destruct (scaled (tw + margin p) (tile_step p).1) as [sx|e] eqn:Sx.
    2: { cbn. by rewrite app_nil_r. }
    destruct (scaled (th + margin p) (tile_step p).2) as [sy|e] eqn:Sy.
    2: { cbn. by rewrite app_nil_r. }
    destruct (loops_exactly n0 (text p) (fnt p) (fill_of p) (sty p)
                0 w sx 0 h sy s1 Hv) as (s2 & E2 & D2 & _).
    unfold bind at 1, lift at 1.
    unfold bind at 1, lift at 1.
    unfold bind at 1. unfold fill_of in E2. rewrite E2.
    rewrite Hlen1 in D2.
    by destruct (grid 0 w sx 0 h sy). }
  destruct (String.eqb (mode p) "diagonal-tile") eqn:M4.
  { unfold bind at 1. unfold Pillow.new at 1. rewrite alloc_ok.
    cbn [images drawn]. rewrite Hlen1.
    set (s1' := World _ _).
    assert (Hv' : valid_rgba (S n0) s1').
    { exists (Pillow.blank sz). split; [|done]. unfold s1'. cbn [images].
      rewrite <- Hlen1. apply lookup_snoc_new. }
    assert (Hlen1' : length (images s1') = S (S n0)).
    { unfold s1'. cbn [images]. rewrite length_app, Hlen1. cbn. lia. }
    destruct (scaled (Z.max tw th) (diag_step p)) as [step|e] eqn:Ss.
    2: { cbn. by rewrite app_nil_r. }
    destruct (loops_exactly (S n0) (text p) (fnt p) (fill_of p) (sty p)
                (- w) (w * 2) step (- h) (h * 2) step s1' Hv')
      as (s2 & E2 & D2 & _).
    unfold bind at 1, lift at 1.
    unfold bind at 1. unfold fill_of in E2. rewrite E2.
    rewrite Hlen1' in D2.
    destruct (grid (- w) (w * 2) step (- h) (h * 2) step); [|exact D2].
    transitivity (drawn s2); [|exact D2]. clear.
    revert s2. apply bind_keeps; [apply rotate_keeps|].
    intros r. apply composite_keeps. }
  cbn. by rewrite app_nil_r.
Qed.

Lemma run_calls_inks (n base : loc) (txt : string) (fill : color)
    (st : style) (anchors : list (Z * Z)) :
  (base < n)%nat ->
  Forall (fun c =>
            if Nat.eqb (tc_target c) base
            then tc_fill c = fill /\ tc_stroke_fill c = fill
            else tc_fill c = (0, 0, 0, shadow_alpha st)
                 /\ tc_stroke_fill c = (0, 0, 0, shadow_alpha st))
    (run_calls n base txt fill st anchors).
Proof.
  revert n. induction anchors as [|pos rest IH]; intros n Hn; [constructor|].
  cbn [run_calls]. apply Forall_app. split; [|apply IH; lia].
  unfold paint_calls. apply Forall_app. split.
  - destruct (shadow_on st); [|constructor].
    constructor; [|constructor]. cbn [tc_target tc_fill tc_stroke_fill].
    destruct (Nat.eqb_spec n base); [lia | done].
  - constructor; [|constructor]. cbn [tc_target tc_fill tc_stroke_fill].
    by rewrite Nat.eqb_refl.
Qed.

(** C10: the text calls of a run are exactly, for each anchor of the mode
    in turn, the call of the shadow, when the shadow is on, in black
    [(0, 0, 0)] with the configured shadow alpha, on a scratch layer, and
    then the call of the text in white [(255, 255, 255)] with the
    configured opacity, on the canvas; body and stroke have the same ink.
    So every call on the canvas is in that white, every other call in
    that black, and no parameter changes either colour.  The opacity and
    the shadow alpha are inks that Pillow takes (from 0 to below 2^31). *)
Theorem inks_are_fixed (img : loc) (p : params) (s0 : world)
    (im0 : image) :
  images s0 !! img = Some im0 ->
  0 <= opacity p < 2 ^ 31 ->
  0 <= shadow_alpha (sty p) < 2 ^ 31 ->
  let base := canvas (length (images s0)) p in
  let calls :=
    new_calls s0 (snd (add_watermark_to_image rot_src blur_px img p s0)) in
  calls
  = run_calls (S base) base (text p) (255, 255, 255, opacity p) (sty p)
      (match placement (Z.of_N (im_width im0)) (Z.of_N (im_height im0)) p
       with
       | Ok a => a
       | Raise _ => []
       end)
  /\ Forall (fun c =>
               if Nat.eqb (tc_target c) base
               then tc_fill c = (255, 255, 255, opacity p)
                    /\ tc_stroke_fill c = (255, 255, 255, opacity p)
               else tc_fill c = (0, 0, 0, shadow_alpha (sty p))
                    /\ tc_stroke_fill c = (0, 0, 0, shadow_alpha (sty p)))
       calls.
Proof.
  intros Hi _ _ base calls.
  assert (E : calls
              = run_calls (S base) base (text p) (fill_of p) (sty p)
                  (match placement (Z.of_N (im_width im0))
                           (Z.of_N (im_height im0)) p with
                   | Ok a => a
                   | Raise _ => []
                   end)).
  { unfold calls. apply new_calls_app. by apply run_drawn. }
  split; [exact E|]. rewrite E. apply run_calls_inks. lia.
Qed.

End ExactCalls.

Lemma inks_are_fixed_example :
  images photo !! 0%nat = Some (plain ModeRGB 200 100)
  /\ 0 <= opacity corner_params < 2 ^ 31
  /\ 0 <= shadow_alpha (sty corner_params) < 2 ^ 31
  /\ new_calls photo
       (snd (add_watermark_to_image rot_none blur_none 0%nat corner_params
               photo))
     = [TextCall 2%nat (142, 72) "SAMPLE" (0, 0, 0, 180) 0 (0, 0, 0, 180);
        TextCall 1%nat (140, 70) "SAMPLE" (255, 255, 255, 128) 0
          (255, 255, 255, 128)]
  /\ Forall (fun c =>
               if Nat.eqb (tc_target c) 1%nat
               then tc_fill c = (255, 255, 255, 128)
                    /\ tc_stroke_fill c = (255, 255, 255, 128)
               else tc_fill c = (0, 0, 0, 180)
                    /\ tc_stroke_fill c = (0, 0, 0, 180))
       (new_calls photo
          (snd (add_watermark_to_image rot_none blur_none 0%nat
                  corner_params photo))).
Proof.
  split; [reflexivity|].
  assert (Ho : 0 <= opacity corner_params < 2 ^ 31) by (cbn; lia).
  assert (Ha : 0 <= shadow_alpha (sty corner_params) < 2 ^ 31)
    by (cbn; lia).
  split; [exact Ho|]. split; [exact Ha|].
  exact (inks_are_fixed rot_none blur_none 0%nat corner_params photo
           (plain ModeRGB 200 100) eq_refl Ho Ha).
Defined.

Lemma holiday_ascii : Forall (fun n => is_ascii n = true) holiday.
Proof. repeat constructor. Defined.

Lemma selection_ignores_case_example :
  Forall (fun n => is_ascii n = true) holiday
  /\ iter_image_files (map lower holiday) default_exts
     = map lower (iter_image_files holiday default_exts).
Proof.
  split; [exact holiday_ascii|].
  exact (selection_ignores_case holiday default_exts holiday_ascii).
Defined.

Lemma mixed_case_extension_example :
  Forall (fun n => is_ascii n = true) holiday
  /\ iter_image_files holiday shouted_exts
     = iter_image_files holiday
         (List.filter (fun e => negb (has_upper e)) shouted_exts).
Proof.
  split; [exact holiday_ascii|].
  exact (mixed_case_extension_is_dead holiday shouted_exts holiday_ascii).
Defined.
